(** * A schema-driven XML reader and writer: model and properties

    The program (src/main.cpp) builds a schema out of descriptor objects
    ([Node], [Attribute], [Text], [NodeList], [Required]) and walks it
    against a pugixml tree ([parse]) or against a [NodeData] record
    ([serialize]).  This file embeds the descriptors and the two walks as
    Rocq functions and states the properties of the specification over them,
    then [main] and what the program writes to the standard output, and
    more properties of the code.

    Exceptions are modelled by the [result] type, the pugixml tree by an
    algebraic tree with the handle operations the program calls,
    [std::map] by [gmap], and the [std::string] fields of a record by
    [std_string], which tells the part that [c_str()] shows from what
    follows a NUL byte. *)

From Stdlib Require Import Ascii String DecimalString.
From stdpp Require Import gmap strings list fin_maps.

#[local] Set Warnings "-register-all,-clear-no-such-hyp".
#[local] Open Scope string_scope.
#[local] Open Scope list_scope.

(** ** Exceptions *)

(** The four [throw std::runtime_error(...)] sites of the program, named
    after the error kinds of the specification. *)
Inductive runtime_error :=
| MissingRequiredAttribute (name : string)
| MissingRequiredText
| MissingRequiredNode (name : string)
| NodeNameMismatch (expected actual : string).

(** The message each exception carries ([e.what()]). *)
Definition what (e : runtime_error) : string :=
  match e with
  | MissingRequiredAttribute name => "Expected xml attribute " +:+ name
  | MissingRequiredText => "A text node is required"
  | MissingRequiredNode name => "Expected an xml node of name " +:+ name
  | NodeNameMismatch name actual =>
      "Expected " +:+ name +:+ " node instead of " +:+ actual
  end.

Inductive result (A : Type) :=
| Ok (a : A)
| Throw (e : runtime_error).
Arguments Ok {A} a.
Arguments Throw {A} e.

Definition bind {A B} (m : result A) (k : A -> result B) : result B :=
  match m with
  | Ok a => k a
  | Throw e => Throw e
  end.

Notation "x <- m ;; k" := (bind m (fun x => k))
  (at level 100, m at next level, right associativity).

Section Loops.
Context {A B : Type}.

(** A [for] loop that threads a state [A] over the elements of a list and
    stops at the first exception. *)
Section Fold.
Variable f : A -> B -> result A.
Fixpoint foldM (l : list B) (a : A) : result A :=
  match l with
  | [] => Ok a
  | b :: l' => a' <- f a b ;; foldM l' a'
  end.
End Fold.

(** A [for] loop that produces one value per element, in order. *)
Section Map.
Variable f : B -> result A.
Fixpoint mapM (l : list B) : result (list A) :=
  match l with
  | [] => Ok []
  | b :: l' => a <- f b ;; r <- mapM l' ;; Ok (a :: r)
  end.
End Map.
End Loops.

(** ** The tree collaborator (pugixml)

    Modelled from the spec: the tree collaborator, the pugixml library,
    whose sources are not in the repository.  The tree it keeps and the
    handle operations the program calls follow the interface of section 6
    of the specification and the behaviour of pugixml: null handles are
    [None], a name or value that pugixml stores as a null pointer is the
    empty string. *)
Module pugi.

Record xml_attribute_struct := mk_attribute {
  attr_name : string;
  attr_value : string }.

(** Modelled from the spec: the nodes of the tree.
    Element nodes and character data nodes; the other node kinds of
    pugixml (comments, processing instructions, ...) never reach the
    program and are left out. *)
Inductive xml_node_struct :=
| node_element (name : string)
               (attributes : list xml_attribute_struct)
               (children : list xml_node_struct)
| node_pcdata (value : string).

(** Handles: [pugi::xml_node], [pugi::xml_attribute] and [pugi::xml_text]
    are nullable pointers into the tree; [xml_text] points to the node
    whose text it gives access to. *)
Definition xml_node := option xml_node_struct.
Definition xml_attribute := option xml_attribute_struct.
Definition xml_text := option xml_node_struct.

(** The children of the document node. *)
Definition xml_document := list xml_node_struct.

Definition is_element (n : xml_node_struct) : bool :=
  match n with node_element _ _ _ => true | node_pcdata _ => false end.

Definition is_text_node (n : xml_node_struct) : bool :=
  match n with node_element _ _ _ => false | node_pcdata _ => true end.

Definition struct_name (n : xml_node_struct) : string :=
  match n with node_element nm _ _ => nm | node_pcdata _ => "" end.

Definition struct_attributes (n : xml_node_struct) : list xml_attribute_struct :=
  match n with node_element _ a _ => a | node_pcdata _ => [] end.

Definition struct_children (n : xml_node_struct) : list xml_node_struct :=
  match n with node_element _ _ c => c | node_pcdata _ => [] end.

Definition struct_value (n : xml_node_struct) : string :=
  match n with node_element _ _ _ => "" | node_pcdata v => v end.

(** [node.name()]: the empty string on a null handle and on a node
    without a name. *)
Definition name (node : xml_node) : string :=
  match node with Some n => struct_name n | None => "" end.

(** The name test of the lookups, [i->name && strequal(name_, i->name)]:
    an entry whose name is null is never found. *)
Definition name_is (name_ iname : string) : bool :=
  negb (String.eqb iname "") && String.eqb name_ iname.

(** Modelled from the spec: [attribute(nodeHandle, name)], that is
    [node.attribute(name_)], the first attribute of that name. *)
Definition attribute (node : xml_node) (name_ : string) : xml_attribute :=
  match node with
  | Some n => List.find (fun a => name_is name_ (attr_name a)) (struct_attributes n)
  | None => None
  end.

(** [attr.as_string()]. *)
Definition attribute_as_string (attr : xml_attribute) : string :=
  match attr with Some a => attr_value a | None => "" end.

(** Modelled from the spec: [child(nodeHandle, name)], that is
    [node.child(name_)], the first child of that name. *)
Definition child (node : xml_node) (name_ : string) : xml_node :=
  match node with
  | Some n => List.find (fun c => name_is name_ (struct_name c)) (struct_children n)
  | None => None
  end.

(** Modelled from the spec: [children(nodeHandle, name)], that is
    [node.children(name_)], the range of the children of that name, in
    document order. *)
Definition children (node : xml_node) (name_ : string) : list xml_node_struct :=
  match node with
  | Some n => List.filter (fun c => name_is name_ (struct_name c)) (struct_children n)
  | None => []
  end.

(** Modelled from the spec: [text(nodeHandle)], that is [node.text()]. *)
Definition text (node : xml_node) : xml_text := node.

(** [xml_text::_data()]: the node itself when it is character data, else
    its first character data child. *)
Definition text_data (t : xml_text) : option xml_node_struct :=
  match t with
  | None => None
  | Some n =>
      if is_text_node n then Some n
      else List.find is_text_node (struct_children n)
  end.

(** [text.empty()]. *)
Definition text_empty (t : xml_text) : bool :=
  match text_data t with Some _ => false | None => true end.

(** [text.as_string()]. *)
Definition text_as_string (t : xml_text) : string :=
  match text_data t with Some d => struct_value d | None => "" end.

(** Modelled from the spec: [documentElement(handle)], that is
    [doc.document_element()], the first element among the children of the
    document. *)
Definition document_element (doc : xml_document) : xml_node :=
  List.find is_element doc.

(** Modelled from the spec: [appendChild(parentHandle, name)].
    [parent.append_child(name_)] makes [node_element name_ [] []] the
    last child of [parent]; the program then fills that child through
    its handle.  Here the child is built first and appended when it is
    complete.  Character data cannot have children. *)
Definition new_element (name_ : string) : xml_node_struct :=
  node_element name_ [] [].

Definition append_child_struct (parent c : xml_node_struct) : xml_node_struct :=
  match parent with
  | node_element nm a cs => node_element nm a (cs ++ [c])
  | node_pcdata v => node_pcdata v
  end.

(** Modelled from the spec: [appendAttribute(parentHandle, name, value)],
    that is [parent.append_attribute(name_) = value]. *)
Definition append_attribute (parent : xml_node_struct) (name_ value : string)
  : xml_node_struct :=
  match parent with
  | node_element nm a cs => node_element nm (a ++ [mk_attribute name_ value]) cs
  | node_pcdata v => node_pcdata v
  end.

(** [xml_text::_data_new()] followed by the assignment of the value: the
    first character data child is overwritten, and one is appended when
    there is none. *)
Fixpoint set_first_text (value : string) (cs : list xml_node_struct)
  : list xml_node_struct :=
  match cs with
  | [] => [node_pcdata value]
  | node_pcdata _ :: cs' => node_pcdata value :: cs'
  | c :: cs' => c :: set_first_text value cs'
  end.

(** Modelled from the spec: [setText(nodeHandle, value)], that is
    [parent.text().set(value)]. *)
Definition text_set (parent : xml_node_struct) (value : string) : xml_node_struct :=
  match parent with
  | node_element nm a cs => node_element nm a (set_first_text value cs)
  | node_pcdata _ => node_pcdata value
  end.

(** *** Text to tree and back

    Modelled from the spec: [loadDocument] and [printDocument], the
    tokenizer and the printer of pugixml.  The model
    covers elements, attributes in single or double quotes, character
    data and the five predefined entities, with the default parsing
    options (character data made of white space only is dropped, and
    character data outside the document element is skipped).  As
    pugixml does, the tokenizer returns a status together with the tree
    it built before it stopped. *)

Inductive xml_parse_status :=
| status_ok
| status_unrecognized_tag
| status_bad_start_element
| status_bad_attribute
| status_bad_end_element
| status_end_element_mismatch
| status_no_document_element.

(** The double quote character, and a string between double quotes. *)
Definition dquote : ascii := ascii_of_nat 34.

Definition quoted (s : string) : string :=
  String dquote (s +:+ String dquote EmptyString).

Definition is_space (c : ascii) : bool :=
  let n := nat_of_ascii c in
  Nat.eqb n 32 || Nat.eqb n 9 || Nat.eqb n 10 || Nat.eqb n 13.

Definition is_start_symbol (c : ascii) : bool :=
  let n := nat_of_ascii c in
  (Nat.leb 65 n && Nat.leb n 90) || (Nat.leb 97 n && Nat.leb n 122)
  || Nat.eqb n 95 || Nat.eqb n 58 || Nat.leb 128 n.

Definition is_symbol (c : ascii) : bool :=
  let n := nat_of_ascii c in
  is_start_symbol c || (Nat.leb 48 n && Nat.leb n 57)
  || Nat.eqb n 45 || Nat.eqb n 46.

Fixpoint all_space (s : string) : bool :=
  match s with
  | EmptyString => true
  | String c s' => is_space c && all_space s'
  end.

Definition snoc (s : string) (c : ascii) : string := s +:+ String c EmptyString.

(** The predefined entities are replaced while the value is read. *)
Fixpoint unescape_from (skip : nat) (s : string) : string :=
  match s with
  | EmptyString => EmptyString
  | String c s' =>
      match skip with
      | S k => unescape_from k s'
      | O =>
          if Ascii.eqb c "&" then
            if String.prefix "lt;" s' then String "<" (unescape_from 3 s')
            else if String.prefix "gt;" s' then String ">" (unescape_from 3 s')
            else if String.prefix "amp;" s' then String "&" (unescape_from 4 s')
            else if String.prefix "quot;" s' then String dquote (unescape_from 5 s')
            else if String.prefix "apos;" s' then String "'" (unescape_from 5 s')
            else String c (unescape_from 0 s')
          else String c (unescape_from 0 s')
      end
  end.

Definition unescape (s : string) : string := unescape_from 0 s.

(** An element whose end tag has not been read yet; its children are
    kept last first. *)
Record open_element := mk_open {
  open_name : string;
  open_attributes : list xml_attribute_struct;
  open_children : list xml_node_struct }.

(** The cursor of the tokenizer: the open elements, innermost first, and
    the children of the document read so far, last first. *)
Record cursor := mk_cursor {
  open_elements : list open_element;
  document_children : list xml_node_struct }.

Definition close_element (f : open_element) : xml_node_struct :=
  node_element (open_name f) (open_attributes f) (rev (open_children f)).

Definition add_child (n : xml_node_struct) (f : open_element) : open_element :=
  mk_open (open_name f) (open_attributes f) (n :: open_children f).

Definition push_node (n : xml_node_struct) (cur : cursor) : cursor :=
  match open_elements cur with
  | [] => mk_cursor [] (n :: document_children cur)
  | f :: fs => mk_cursor (add_child n f :: fs) (document_children cur)
  end.

Definition push_element (name_ : string) (cur : cursor) : cursor :=
  mk_cursor (mk_open name_ [] [] :: open_elements cur) (document_children cur).

Definition pop_element (cur : cursor) : cursor :=
  match open_elements cur with
  | [] => cur
  | f :: fs => push_node (close_element f) (mk_cursor fs (document_children cur))
  end.

Definition push_attribute (name_ : string) (cur : cursor) : cursor :=
  match open_elements cur with
  | [] => cur
  | f :: fs =>
      mk_cursor (mk_open (open_name f)
                         (open_attributes f ++ [mk_attribute name_ ""])
                         (open_children f) :: fs)
                (document_children cur)
  end.

Fixpoint set_last_value (v : string) (attrs : list xml_attribute_struct)
  : list xml_attribute_struct :=
  match attrs with
  | [] => []
  | [a] => [mk_attribute (attr_name a) v]
  | a :: attrs' => a :: set_last_value v attrs'
  end.

Definition set_attribute_value (v : string) (cur : cursor) : cursor :=
  match open_elements cur with
  | [] => cur
  | f :: fs =>
      mk_cursor (mk_open (open_name f) (set_last_value v (open_attributes f))
                         (open_children f) :: fs)
                (document_children cur)
  end.

(** Character data becomes a node when it is inside an element and is
    not white space only. *)
Definition push_pcdata (acc : string) (cur : cursor) : cursor :=
  match open_elements cur with
  | [] => cur
  | _ :: _ => if all_space acc then cur else push_node (node_pcdata (unescape acc)) cur
  end.

(** The tree as it stands: every open element is closed where the
    tokenizer stopped. *)
Fixpoint unwind (inner : xml_node_struct) (fs : list open_element)
    (doc : list xml_node_struct) : list xml_node_struct :=
  match fs with
  | [] => inner :: doc
  | f :: fs' => unwind (close_element (add_child inner f)) fs' doc
  end.

Definition tree_of (cur : cursor) : xml_document :=
  match open_elements cur with
  | [] => rev (document_children cur)
  | f :: fs => rev (unwind (close_element f) fs (document_children cur))
  end.

Inductive mode :=
| in_pcdata (acc : string)
| in_tag_start
| in_start_name (acc : string)
| in_attributes (after_value : bool)
| in_attribute_name (acc : string)
| in_attribute_eq
| in_attribute_quote
| in_attribute_value (quote : ascii) (acc : string)
| in_empty_element
| in_end_name (acc : string)
| in_end_tag.

Definition end_name_matches (acc : string) (cur : cursor) : bool :=
  match open_elements cur with
  | [] => false
  | f :: _ => String.eqb acc (open_name f)
  end.

(** One character of input. *)
Definition step (c : ascii) (m : mode) (cur : cursor)
  : xml_parse_status * cursor + mode * cursor :=
  match m with
  | in_pcdata acc =>
      if Ascii.eqb c "<" then inr (in_tag_start, push_pcdata acc cur)
      else inr (in_pcdata (snoc acc c), cur)
  | in_tag_start =>
      if is_start_symbol c then inr (in_start_name (String c EmptyString), cur)
      else if Ascii.eqb c "/" then inr (in_end_name EmptyString, cur)
      else inl (status_unrecognized_tag, cur)
  | in_start_name acc =>
      if is_symbol c then inr (in_start_name (snoc acc c), cur)
      else
        let cur' := push_element acc cur in
        if Ascii.eqb c ">" then inr (in_pcdata EmptyString, cur')
        else if is_space c then inr (in_attributes false, cur')
        else if Ascii.eqb c "/" then inr (in_empty_element, cur')
        else inl (status_bad_start_element, cur')
  | in_attributes after_value =>
      if is_space c then inr (in_attributes false, cur)
      else if is_start_symbol c then
        if after_value then inl (status_bad_attribute, cur)
        else inr (in_attribute_name (String c EmptyString), cur)
      else if Ascii.eqb c "/" then inr (in_empty_element, cur)
      else if Ascii.eqb c ">" then inr (in_pcdata EmptyString, cur)
      else inl (status_bad_start_element, cur)
  | in_attribute_name acc =>
      if is_symbol c then inr (in_attribute_name (snoc acc c), cur)
      else
        let cur' := push_attribute acc cur in
        if is_space c then inr (in_attribute_eq, cur')
        else if Ascii.eqb c "=" then inr (in_attribute_quote, cur')
        else inl (status_bad_attribute, cur')
  | in_attribute_eq =>
      if is_space c then inr (in_attribute_eq, cur)
      else if Ascii.eqb c "=" then inr (in_attribute_quote, cur)
      else inl (status_bad_attribute, cur)
  | in_attribute_quote =>
      if is_space c then inr (in_attribute_quote, cur)
      else if Ascii.eqb c dquote || Ascii.eqb c "'" then
        inr (in_attribute_value c EmptyString, cur)
      else inl (status_bad_attribute, cur)
  | in_attribute_value quote acc =>
      if Ascii.eqb c quote then
        inr (in_attributes true, set_attribute_value (unescape acc) cur)
      else inr (in_attribute_value quote (snoc acc c), cur)
  | in_empty_element =>
      if Ascii.eqb c ">" then inr (in_pcdata EmptyString, pop_element cur)
      else inl (status_bad_start_element, cur)
  | in_end_name acc =>
      if is_symbol c then inr (in_end_name (snoc acc c), cur)
      else if end_name_matches acc cur then
        let cur' := pop_element cur in
        if Ascii.eqb c ">" then inr (in_pcdata EmptyString, cur')
        else if is_space c then inr (in_end_tag, cur')
        else inl (status_bad_end_element, cur')
      else inl (status_end_element_mismatch, cur)
  | in_end_tag =>
      if is_space c then inr (in_end_tag, cur)
      else if Ascii.eqb c ">" then inr (in_pcdata EmptyString, cur)
      else inl (status_bad_end_element, cur)
  end.

(** The end of the input. *)
Definition at_end (m : mode) (cur : cursor) : xml_parse_status * cursor :=
  match m with
  | in_pcdata acc =>
      let cur' := push_pcdata acc cur in
      match open_elements cur' with
      | _ :: _ => (status_end_element_mismatch, cur')
      | [] =>
          if existsb is_element (document_children cur') then (status_ok, cur')
          else (status_no_document_element, cur')
      end
  | in_tag_start => (status_unrecognized_tag, cur)
  | in_start_name acc => (status_bad_start_element, push_element acc cur)
  | in_attributes _ => (status_bad_start_element, cur)
  | in_attribute_name acc => (status_bad_attribute, push_attribute acc cur)
  | in_attribute_eq | in_attribute_quote | in_attribute_value _ _ =>
      (status_bad_attribute, cur)
  | in_empty_element => (status_bad_start_element, cur)
  | in_end_name _ | in_end_tag => (status_bad_end_element, cur)
  end.

Fixpoint parse_tree (s : string) (m : mode) (cur : cursor)
  : xml_parse_status * xml_document :=
  match s with
  | EmptyString => let (st, cur') := at_end m cur in (st, tree_of cur')
  | String c s' =>
      match step c m cur with
      | inl (st, cur') => (st, tree_of cur')
      | inr (m', cur') => parse_tree s' m' cur'
      end
  end.

(** Modelled from the spec: [loadDocument(text)], that is
    [doc.load_buffer(s.data(), s.size())] on a fresh document: the
    result of the call and the document afterwards. *)
Definition load_buffer (s : string) : xml_parse_status * xml_document :=
  parse_tree s (in_pcdata EmptyString) (mk_cursor [] []).

Fixpoint escape (in_attribute : bool) (s : string) : string :=
  match s with
  | EmptyString => EmptyString
  | String c s' =>
      (if Ascii.eqb c "&" then "&amp;"
       else if Ascii.eqb c "<" then "&lt;"
       else if Ascii.eqb c ">" then "&gt;"
       else if in_attribute && Ascii.eqb c dquote then "&quot;"
       else String c EmptyString) +:+ escape in_attribute s'
  end.

(** A node without a name is printed under the name [:anonymous]. *)
Definition printed_name (name_ : string) : string :=
  if String.eqb name_ "" then ":anonymous" else name_.

Definition print_attribute (a : xml_attribute_struct) : string :=
  " " +:+ printed_name (attr_name a) +:+ "=" +:+ quoted (escape true (attr_value a)).

(** [print] with [format_raw]: no indentation and no line breaks. *)
Fixpoint print_node (n : xml_node_struct) : string :=
  match n with
  | node_pcdata v => escape false v
  | node_element nm attrs cs =>
      "<" +:+ printed_name nm +:+ String.concat "" (List.map print_attribute attrs)
      +:+ match cs with
          | [] => "/>"
          | _ :: _ =>
              ">" +:+ String.concat "" (List.map print_node cs)
              +:+ "</" +:+ printed_name nm +:+ ">"
          end
  end.

(** Modelled from the spec: [printDocument(handle)], that is
    [doc.print(ss, "", pugi::format_raw)]. *)
Definition print (doc : xml_document) : string :=
  String.concat "" (List.map print_node doc).

End pugi.
Import pugi.

(** ** Strings

    The program has two kinds of strings.  A C string ([const char*]: the
    names of the descriptors, and every name and value that pugixml takes
    or returns) is a [string] of the model; it holds no NUL byte.  A
    [std::string] (the fields of [NodeData]) can hold NUL bytes: it is
    given by its characters before the first NUL byte, which is what
    [c_str()] shows to a function that takes a C string, and by the
    characters that stand after each of its NUL bytes.  The text that
    [parse] is given goes to pugixml as a buffer with its size; it is a
    [string] too. *)
Record std_string := mk_std_string {
  c_str : string;
  after_nul : list string }.

(** The [std::string] made from a C string; the program converts where a
    [std::string] is assigned or compared. *)
Definition of_c_str (s : string) : std_string := mk_std_string s [].
Coercion of_c_str : string >-> std_string.

#[global] Instance std_string_eq_dec : EqDecision std_string.
Proof. solve_decision. Defined.

(** All the characters of a [std::string], the NUL bytes too: what
    [operator<<] writes. *)
Definition bytes (v : std_string) : string :=
  c_str v +:+ String.concat EmptyString (List.map (String Ascii.zero) (after_nul v)).

(** ** The record

    The keys of the two maps are the keys that are C strings: the program
    looks up the names of descriptors only, so a key that holds a NUL byte
    is never read. *)

Inductive NodeData := mkNodeData {
  nd_name : std_string;
  nd_text : std_string;
  nd_subnodes : gmap string (list NodeData);
  nd_attributes : gmap string std_string }.

(** A default-constructed [NodeData]. *)
Definition empty_NodeData : NodeData := mkNodeData "" "" ∅ ∅.

Definition set_name (v : std_string) (data : NodeData) : NodeData :=
  mkNodeData v (nd_text data) (nd_subnodes data) (nd_attributes data).

Definition set_text (v : std_string) (data : NodeData) : NodeData :=
  mkNodeData (nd_name data) v (nd_subnodes data) (nd_attributes data).

(** [data.attributes[k] = v]. *)
Definition set_attribute (k : string) (v : std_string) (data : NodeData)
  : NodeData :=
  mkNodeData (nd_name data) (nd_text data) (nd_subnodes data)
             (<[k := v]> (nd_attributes data)).

(** [data.subnodes[k]] followed by one [emplace_back] per element of
    [subs]: the entry is created when it is missing. *)
Definition append_subnodes (k : string) (subs : list NodeData) (data : NodeData)
  : NodeData :=
  mkNodeData (nd_name data) (nd_text data)
             (<[k := default [] (nd_subnodes data !! k) ++ subs]> (nd_subnodes data))
             (nd_attributes data).

(** ** Descriptors *)

(** The descriptor types.  [Args...] of a class template is the list of
    the descriptors it was built from; [NodeList name node_args args]
    stands for [NodeList<Node<name, node_args...>, args...>] ([Node] is
    the only class a [NodeList] can wrap). *)
Inductive Descriptor :=
| Required
| Attribute (name : string) (args : list Descriptor)
| Text (args : list Descriptor)
| Node (name : string) (args : list Descriptor)
| NodeList (name : string) (node_args : list Descriptor) (args : list Descriptor).

Definition is_Required (d : Descriptor) : bool :=
  match d with Required => true | _ => false end.

(** [is_required_v<Args...>]. *)
Fixpoint is_required (args : list Descriptor) : bool :=
  match args with
  | [] => false
  | arg :: args' => if is_Required arg then true else is_required args'
  end.

(** *** Attribute *)

Definition Attribute_validate (name : string) (args : list Descriptor)
    (attr : xml_attribute) : result bool :=
  match attr with
  | None =>
      if is_required args then Throw (MissingRequiredAttribute name)
      else Ok false
  | Some _ => Ok true
  end.

Definition Attribute_subnode (name : string) (node : xml_node) : xml_attribute :=
  attribute node name.

Definition Attribute_parse (name : string) (data : NodeData) (attr : xml_attribute)
  : NodeData :=
  set_attribute name (attribute_as_string attr) data.

(** [parent.append_attribute(name) = it->second.c_str()] when the record
    has the key. *)
Definition Attribute_serialize (name : string) (parent : xml_node_struct)
    (data : NodeData) : xml_node_struct :=
  match nd_attributes data !! name with
  | None => parent
  | Some v => append_attribute parent name (c_str v)
  end.

(** *** Text *)

(** [Text::subnode] also writes a line to the standard output; the walk
    with what it writes is [parse_subnode_io] below. *)
Definition Text_subnode (node : xml_node) : xml_text := text node.

Definition Text_validate (args : list Descriptor) (t : xml_text) : result bool :=
  if text_empty t then
    if is_required args then Throw MissingRequiredText else Ok false
  else Ok true.

Definition Text_parse (data : NodeData) (textNode : xml_text) : NodeData :=
  set_text (text_as_string textNode) data.

(** [parent.text().set(data.text.c_str())]. *)
Definition Text_serialize (parent : xml_node_struct) (data : NodeData)
  : xml_node_struct :=
  text_set parent (c_str (nd_text data)).

(** *** Node *)

Definition Node_validate (name : string) (args : list Descriptor) (node : xml_node)
  : result bool :=
  match node with
  | None =>
      if is_required args then Throw (MissingRequiredNode name) else Ok false
  | Some _ =>
      if String.eqb name (pugi.name node) then Ok true
      else Throw (NodeNameMismatch name (pugi.name node))
  end.

Definition Node_subnode (name : string) (node : xml_node) : xml_node :=
  child node name.

(** *** NodeList *)

Definition NodeList_subnode (name : string) (node : xml_node)
  : list xml_node_struct :=
  children node name.

(** [for (auto& child : children) if (!subNodeType.validate(child)) return false;] *)
Fixpoint NodeList_validate (name : string) (node_args : list Descriptor)
    (children : list xml_node_struct) : result bool :=
  match children with
  | [] => Ok true
  | child :: rest =>
      b <- Node_validate name node_args (Some child) ;;
      if b then NodeList_validate name node_args rest else Ok false
  end.

(** ** The two walks *)

(** One round of [parse_subnodes]: locate, validate and, when [validate]
    returns true, parse.  [Node::parse] and [NodeList::parse] are the
    [Node] and [NodeList] branches after the validation. *)
Fixpoint parse_subnode (desc : Descriptor) (data : NodeData) (node : xml_node)
  {struct desc} : result NodeData :=
  match desc with
  | Required => Ok data
  | Attribute name args =>
      let attr := Attribute_subnode name node in
      b <- Attribute_validate name args attr ;;
      Ok (if (b : bool) then Attribute_parse name data attr else data)
  | Text args =>
      let t := Text_subnode node in
      b <- Text_validate args t ;;
      Ok (if (b : bool) then Text_parse data t else data)
  | Node name args =>
      let subnode := Node_subnode name node in
      b <- Node_validate name args subnode ;;
      if (b : bool) then
        foldM (fun data desc => parse_subnode desc data subnode)
              args (set_name name data)
      else Ok data
  | NodeList name node_args args =>
      let children := NodeList_subnode name node in
      b <- NodeList_validate name node_args children ;;
      if (b : bool) then
        subs <- mapM (fun child =>
                        foldM (fun data desc => parse_subnode desc data (Some child))
                              node_args (set_name name empty_NodeData))
                     children ;;
        Ok (append_subnodes name subs data)
      else Ok data
  end.

Definition parse_subnodes (data : NodeData) (node : xml_node)
    (descs : list Descriptor) : result NodeData :=
  foldM (fun data desc => parse_subnode desc data node) descs data.

Definition Node_parse (name : string) (args : list Descriptor) (data : NodeData)
    (node : xml_node) : result NodeData :=
  parse_subnodes (set_name name data) node args.

Definition NodeList_parse (name : string) (node_args : list Descriptor)
    (data : NodeData) (children : list xml_node_struct) : result NodeData :=
  subs <- mapM (fun child => Node_parse name node_args empty_NodeData (Some child))
               children ;;
  Ok (append_subnodes name subs data).

(** One round of [serialize_subnodes]: the descriptor writes into the
    element [parent].  [Node::serialize] is the [Node] branch; the
    [NodeList] branch runs it once per stored child record.  The new
    element is [parent.append_child(data.name.c_str())]. *)
Fixpoint serialize_subnode (desc : Descriptor) (parent : xml_node_struct)
    (data : NodeData) {struct desc} : result xml_node_struct :=
  match desc with
  | Required => Ok parent
  | Attribute name args => Ok (Attribute_serialize name parent data)
  | Text args => Ok (Text_serialize parent data)
  | Node name args =>
      node <- foldM (fun node desc => serialize_subnode desc node data)
                    args (new_element (c_str (nd_name data))) ;;
      _ <- Node_validate name args (Some node) ;;
      Ok (append_child_struct parent node)
  | NodeList name node_args args =>
      match nd_subnodes data !! name with
      | None => Ok parent
      | Some subs =>
          foldM (fun parent child =>
                   node <- foldM (fun node desc => serialize_subnode desc node child)
                                 node_args (new_element (c_str (nd_name child))) ;;
                   _ <- Node_validate name node_args (Some node) ;;
                   Ok (append_child_struct parent node))
                subs parent
      end
  end.

Definition serialize_subnodes (parent : xml_node_struct) (data : NodeData)
    (descs : list Descriptor) : result xml_node_struct :=
  foldM (fun parent desc => serialize_subnode desc parent data) descs parent.

Definition Node_serialize (name : string) (args : list Descriptor)
    (parent : xml_node_struct) (data : NodeData) : result xml_node_struct :=
  node <- serialize_subnodes (new_element (c_str (nd_name data))) data args ;;
  _ <- Node_validate name args (Some node) ;;
  Ok (append_child_struct parent node).

Definition NodeList_serialize (name : string) (node_args : list Descriptor)
    (parent : xml_node_struct) (data : NodeData) : result xml_node_struct :=
  match nd_subnodes data !! name with
  | None => Ok parent
  | Some subs => foldM (fun parent child => Node_serialize name node_args parent child)
                       subs parent
  end.

(** ** The two entry points *)

(** The walk of [parse] over a loaded document. *)
Definition parse_document (doc : xml_document) (name : string)
    (args : list Descriptor) : result NodeData :=
  _ <- Node_validate name args (document_element doc) ;;
  Node_parse name args empty_NodeData (document_element doc).

(** [parse(s, desc)] for [desc] of type [Node<name, args...>].  The value
    [load_buffer] returns is not looked at. *)
Definition parse (s : string) (name : string) (args : list Descriptor)
  : result NodeData :=
  let doc := snd (load_buffer s) in
  parse_document doc name args.

(** The document [serialize] builds before it prints it; its root is
    [doc.append_child(data.name.c_str())]. *)
Definition serialize_document (data : NodeData) (name : string)
    (args : list Descriptor) : result xml_document :=
  root <- serialize_subnodes (new_element (c_str (nd_name data))) data args ;;
  _ <- Node_validate name args (Some root) ;;
  Ok [root].

(** [serialize(data, desc)]. *)
Definition serialize (data : NodeData) (name : string) (args : list Descriptor)
  : result string :=
  doc <- serialize_document data name args ;;
  Ok (print doc).

(** The schema of [main]. *)
Definition xml_name : string := "root".
Definition xml_args : list Descriptor :=
  [ Required;
    Attribute "key" [Required];
    Attribute "client_id" [];
    NodeList "data" [Attribute "id" [Required]; Text [Required]] [] ].

(** The five documents of [main]. *)
Definition example1 : string := "<wrong />".
Definition example2 : string := "<root />".
Definition example3 : string := "<root key=" +:+ quoted "mykey" +:+ " />".
Definition example4 : string :=
  "<root key=" +:+ quoted "mykey" +:+ "><data id=" +:+ quoted "1" +:+ " /></root>".
Definition example5 : string :=
  "<root key=" +:+ quoted "mykey" +:+ "><data id=" +:+ quoted "1"
  +:+ ">D1</data><data id=" +:+ quoted "2" +:+ ">D2</data></root>".

(** The documents of the scenarios of the specification. *)
Definition scenario1 : string := "<wrong/>".
Definition scenario2 : string := "<root/>".
Definition scenario3 : string := "<root key=" +:+ quoted "mykey" +:+ "/>".
Definition scenario4 : string :=
  "<root key=" +:+ quoted "mykey" +:+ "><data id=" +:+ quoted "1" +:+ "/></root>".
Definition scenario5 : string := example5.

(** ** The standard output

    [Text::subnode] writes a line to [std::cout] each time it is called,
    and [main] writes the rest.  The walk of [parse] is given a second
    time with what it writes; what it returns is what the walk above
    returns (lemma [parse_io_snd]). *)

(** The end of a line: what ['\n'] and [std::endl] write. *)
Definition endl : string := String (ascii_of_nat 10) EmptyString.

(** A computation that writes to [std::cout]: what it has written, and
    its value or the exception that ended it. *)
Definition io (A : Type) : Type := string * result A.

Definition io_ret {A} (a : A) : io A := (EmptyString, Ok a).

Definition io_lift {A} (m : result A) : io A := (EmptyString, m).

Definition io_write (s : string) : io unit := (s, Ok tt).

Definition io_bind {A B} (m : io A) (k : A -> io B) : io B :=
  match snd m with
  | Ok a => (fst m +:+ fst (k a), snd (k a))
  | Throw e => (fst m, Throw e)
  end.

Notation "x <~ m ;; k" := (io_bind m (fun x => k))
  (at level 100, m at next level, right associativity).

Section Loops_io.
Context {A B : Type}.

Section Fold_io.
Variable f : A -> B -> io A.
Fixpoint foldM_io (l : list B) (a : A) : io A :=
  match l with
  | [] => io_ret a
  | b :: l' => a' <~ f a b ;; foldM_io l' a'
  end.
End Fold_io.

Section Map_io.
Variable f : B -> io A.
Fixpoint mapM_io (l : list B) : io (list A) :=
  match l with
  | [] => io_ret []
  | b :: l' => a <~ f b ;; r <~ mapM_io l' ;; io_ret (a :: r)
  end.
End Map_io.
End Loops_io.

(** [Text::subnode]: the line it writes, with the value of the attribute
    [id] of the node, and the handle it returns. *)
Definition Text_subnode_io (node : xml_node) : io xml_text :=
  _ <~ io_write ("Node: " +:+ attribute_as_string (attribute node "id") +:+ endl) ;;
  io_ret (text node).

(** One round of [parse_subnodes], with what it writes. *)
Fixpoint parse_subnode_io (desc : Descriptor) (data : NodeData) (node : xml_node)
  {struct desc} : io NodeData :=
  match desc with
  | Required => io_ret data
  | Attribute name args =>
      let attr := Attribute_subnode name node in
      b <~ io_lift (Attribute_validate name args attr) ;;
      io_ret (if (b : bool) then Attribute_parse name data attr else data)
  | Text args =>
      t <~ Text_subnode_io node ;;
      b <~ io_lift (Text_validate args t) ;;
      io_ret (if (b : bool) then Text_parse data t else data)
  | Node name args =>
      let subnode := Node_subnode name node in
      b <~ io_lift (Node_validate name args subnode) ;;
      if (b : bool) then
        foldM_io (fun data desc => parse_subnode_io desc data subnode)
                 args (set_name name data)
      else io_ret data
  | NodeList name node_args args =>
      let children := NodeList_subnode name node in
      b <~ io_lift (NodeList_validate name node_args children) ;;
      if (b : bool) then
        subs <~ mapM_io (fun child =>
                           foldM_io (fun data desc =>
                                       parse_subnode_io desc data (Some child))
                                    node_args (set_name name empty_NodeData))
                        children ;;
        io_ret (append_subnodes name subs data)
      else io_ret data
  end.

Definition parse_subnodes_io (data : NodeData) (node : xml_node)
    (descs : list Descriptor) : io NodeData :=
  foldM_io (fun data desc => parse_subnode_io desc data node) descs data.

Definition Node_parse_io (name : string) (args : list Descriptor) (data : NodeData)
    (node : xml_node) : io NodeData :=
  parse_subnodes_io (set_name name data) node args.

(** [parse(s, desc)], with what it writes. *)
Definition parse_io (s : string) (name : string) (args : list Descriptor)
  : io NodeData :=
  let doc := snd (load_buffer s) in
  _ <~ io_lift (Node_validate name args (document_element doc)) ;;
  Node_parse_io name args empty_NodeData (document_element doc).

(** ** [main] *)

(** [data.subnodes[k]] on a record that is not [const]: the entry is
    created when it is missing. *)
Definition subnodes_at (k : string) (data : NodeData) : list NodeData * NodeData :=
  match nd_subnodes data !! k with
  | Some v => (v, data)
  | None =>
      ([], mkNodeData (nd_name data) (nd_text data)
                      (<[k := []]> (nd_subnodes data)) (nd_attributes data))
  end.

(** [data.attributes[k]], likewise. *)
Definition attributes_at (k : string) (data : NodeData)
  : std_string * NodeData :=
  match nd_attributes data !! k with
  | Some v => (v, data)
  | None =>
      (of_c_str EmptyString,
       mkNodeData (nd_name data) (nd_text data) (nd_subnodes data)
                  (<[k := of_c_str EmptyString]> (nd_attributes data)))
  end.

(** A [size_t] as [operator<<] writes it. *)
Definition decimal (n : nat) : string := NilEmpty.string_of_uint (Nat.to_uint n).

(** [(dataNodeCount > i ? v.at(i).text : "")]: [at] throws when [i] is
    out of range, which the guard excludes when [dataNodeCount] is the
    size of [v]; out of range the model reads an empty record. *)
Definition text_at (dataNodeCount i : nat) (v : list NodeData) : std_string :=
  if Nat.ltb i dataNodeCount then nd_text (nth i v empty_NodeData)
  else of_c_str EmptyString.

(** The body of the [try] block of [main] for the document [s].  The
    operands of [<<] are evaluated from left to right, so [Serialized: ]
    is written before [serialize] is called. *)
Definition example_body (s : string) : io unit :=
  _ <~ io_write ("== Example: " +:+ s +:+ endl) ;;
  root <~ parse_io s xml_name xml_args ;;
  _ <~ io_write ("OK" +:+ endl) ;;
  let (v, root) := subnodes_at "data" root in
  let dataNodeCount := length v in
  let (key, root) := attributes_at "key" root in
  _ <~ io_write ("KEY: " +:+ bytes key +:+ endl
                 +:+ "Data subnode count: " +:+ decimal dataNodeCount +:+ endl
                 +:+ "Data1 value: "
                 +:+ bytes (text_at dataNodeCount 0 (fst (subnodes_at "data" root)))
                 +:+ endl
                 +:+ "Data2 value: "
                 +:+ bytes (text_at dataNodeCount 1 (fst (subnodes_at "data" root)))
                 +:+ endl) ;;
  _ <~ io_write "Serialized: " ;;
  out <~ io_lift (serialize root xml_name xml_args) ;;
  io_write (out +:+ endl).

(** One turn of the loop of [main]: the [try] block and its handler,
    which writes the message of the exception. *)
Definition example_run (s : string) : string :=
  match example_body s with
  | (out, Ok _) => out
  | (out, Throw e) => out +:+ what e +:+ endl
  end.

Definition examples : list string :=
  [example1; example2; example3; example4; example5].

(** [main]: what it writes, and the value it returns. *)
Definition main : string * Z :=
  (String.concat EmptyString (List.map example_run examples), 0%Z).

(** * Notions used in the properties *)

(** ** Serializing a record under another name *)

(** A record that does not bear the name of the root descriptor and has a
    child record that does not bear the name of its list. *)
Definition misnamed_record : NodeData :=
  mkNodeData "x" "" {[ "data" := [mkNodeData "y" "" ∅ ∅] ]} ∅.

(** A record whose name is [root], a NUL byte, [x]. *)
Definition nul_name_record : NodeData :=
  set_name (mk_std_string "root" ["x"]) empty_NodeData.

(** ** Input that is not well formed *)

(** A start tag that is never closed. *)
Definition unclosed_root : string := "<root key=" +:+ quoted "mykey" +:+ ">".

(** ** A text with a NUL byte *)

(** A record whose text is [a], a NUL byte, [b]. *)
Definition nul_text_record : NodeData :=
  set_text (mk_std_string "a" ["b"]) empty_NodeData.

(** ** A list whose second child fails *)

(** Two [data] children, the second one without text. *)
Definition second_child_empty : string :=
  "<root key=" +:+ quoted "mykey" +:+ "><data id=" +:+ quoted "1"
  +:+ ">D1</data><data id=" +:+ quoted "2" +:+ "/></root>".

(** ** Only declared names are captured *)

(** The names of the [Attribute] descriptors of a schema, and the inner
    node names of its [NodeList] descriptors. *)
Fixpoint declared_attributes (d : Descriptor) : list string :=
  match d with
  | Required => []
  | Attribute name _ => [name]
  | Text _ => []
  | Node _ args => flat_map declared_attributes args
  | NodeList _ node_args _ => flat_map declared_attributes node_args
  end.

Fixpoint declared_lists (d : Descriptor) : list string :=
  match d with
  | Required => []
  | Attribute _ _ => []
  | Text _ => []
  | Node _ args => flat_map declared_lists args
  | NodeList name node_args _ => name :: flat_map declared_lists node_args
  end.

(** The descriptors that write into the record of the node they are
    parsed against: those that are not below a [NodeList]. *)
Fixpoint captured_attributes (d : Descriptor) : list string :=
  match d with
  | Required => []
  | Attribute name _ => [name]
  | Text _ => []
  | Node _ args => flat_map captured_attributes args
  | NodeList _ _ _ => []
  end.

Fixpoint captured_lists (d : Descriptor) : list string :=
  match d with
  | Required => []
  | Attribute _ _ => []
  | Text _ => []
  | Node _ args => flat_map captured_lists args
  | NodeList name _ _ => [name]
  end.

(** The keys of [data'] that are not keys of [data] are among [A] for the
    attributes and among [L] for the lists. *)
Definition keys_within (A L : list string) (data data' : NodeData) : Prop :=
  (forall k, k ∈ dom (nd_attributes data') ->
             k ∈ dom (nd_attributes data) \/ k ∈ A)
  /\ (forall k, k ∈ dom (nd_subnodes data') ->
                k ∈ dom (nd_subnodes data) \/ k ∈ L).

(** The records that a record holds: the record itself, the records of
    its lists, and the records that these hold. *)
Inductive stored_in : NodeData -> NodeData -> Prop :=
| stored_here r : stored_in r r
| stored_below c' c r m recs :
    nd_subnodes r !! m = Some recs ->
    In c recs ->
    stored_in c' c ->
    stored_in c' r.

(** The keys of the record are among [A] for the attributes and among
    [L] for the lists. *)
Definition keys_declared (A L : list string) (c : NodeData) : Prop :=
  (forall k, k ∈ dom (nd_attributes c) -> k ∈ A)
  /\ (forall k, k ∈ dom (nd_subnodes c) -> k ∈ L).

(** A document with attributes and children that the schema of [main]
    does not declare. *)
Definition undeclared_document : string :=
  "<root key=" +:+ quoted "k" +:+ " color=" +:+ quoted "red"
  +:+ "><data id=" +:+ quoted "1" +:+ " secret=" +:+ quoted "x"
  +:+ ">D1<extra/></data><other/></root>".

(** A record of a list after a round was there before the round, or it
    and the records it holds have declared keys only. *)
Definition new_records_declared (A L : list string) (data data' : NodeData) : Prop :=
  forall m recs' c,
    nd_subnodes data' !! m = Some recs' ->
    In c recs' ->
    (exists recs, nd_subnodes data !! m = Some recs /\ In c recs)
    \/ (forall c', stored_in c' c -> keys_declared A L c').

(** ** Whether a round of [parse_subnodes] throws does not depend on the record *)

Definition succeeds (d : Descriptor) (node : xml_node) : Prop :=
  forall data, exists r, parse_subnode d data node = Ok r.

Definition throws (d : Descriptor) (node : xml_node) (e : runtime_error) : Prop :=
  forall data, parse_subnode d data node = Throw e.

Definition walk_succeeds (args : list Descriptor) (node : xml_node) : Prop :=
  forall data, exists r, parse_subnodes data node args = Ok r.

Definition walk_throws (args : list Descriptor) (node : xml_node)
    (e : runtime_error) : Prop :=
  forall data, parse_subnodes data node args = Throw e.

(** ** Removing a required attribute *)

(** The element without its attributes named [a]. *)
Definition remove_attribute (a : string) (n : xml_node_struct) : xml_node_struct :=
  match n with
  | node_element nm attrs cs =>
      node_element nm
        (List.filter (fun x => negb (String.eqb a (attr_name x))) attrs) cs
  | node_pcdata v => node_pcdata v
  end.

(** The tree without the attributes named [a] of the element that [path]
    leads to; a path is the list of the positions of the children to go
    through. *)
Fixpoint remove_attribute_at (path : list nat) (a : string) (n : xml_node_struct)
  : xml_node_struct :=
  match path with
  | [] => remove_attribute a n
  | i :: path' =>
      match n with
      | node_element nm attrs cs =>
          node_element nm attrs (alter (remove_attribute_at path' a) i cs)
      | node_pcdata v => node_pcdata v
      end
  end.

(** [declared_required a args e path]: when [args] is parsed against the
    element [e], the element that [path] leads to is parsed against a
    [Node] whose descriptors include a required [Attribute] named [a].
    The path goes through a child that a [NodeList] locates, or through
    the child that a nested [Node] locates (the first of that name). *)
Inductive declared_required (a : string)
  : list Descriptor -> xml_node_struct -> list nat -> Prop :=
| required_here args attr_args nm attrs cs :
    In (Attribute a attr_args) args ->
    is_required attr_args = true ->
    declared_required a args (node_element nm attrs cs) []
| required_in_list args m node_args list_args nm attrs cs1 c cs2 path :
    In (NodeList m node_args list_args) args ->
    name_is m (struct_name c) = true ->
    declared_required a node_args c path ->
    declared_required a args (node_element nm attrs (cs1 ++ c :: cs2))
                      (length cs1 :: path)
| required_in_node args m node_args nm attrs cs1 c cs2 path :
    In (Node m node_args) args ->
    name_is m (struct_name c) = true ->
    Forall (fun x => name_is m (struct_name x) = false) cs1 ->
    declared_required a node_args c path ->
    declared_required a args (node_element nm attrs (cs1 ++ c :: cs2))
                      (length cs1 :: path).

(** [attributes_removed a n n']: [n'] is [n] where some elements have lost
    their attributes named [a]. *)
Inductive attributes_removed (a : string)
  : xml_node_struct -> xml_node_struct -> Prop :=
| removed_pcdata v : attributes_removed a (node_pcdata v) (node_pcdata v)
| removed_element nm attrs attrs' cs cs' :
    attrs' = attrs
    \/ attrs' = List.filter (fun x => negb (String.eqb a (attr_name x))) attrs ->
    Forall2 (attributes_removed a) cs cs' ->
    attributes_removed a (node_element nm attrs cs) (node_element nm attrs' cs').

Definition removed_handle (a : string) (node node' : xml_node) : Prop :=
  match node, node' with
  | Some n, Some n' => attributes_removed a n n'
  | None, None => True
  | _, _ => False
  end.

(** The document element of [example5]. *)
Definition example5_root : xml_node_struct :=
  node_element "root" [mk_attribute "key" "mykey"]
    [node_element "data" [mk_attribute "id" "1"] [node_pcdata "D1"];
     node_element "data" [mk_attribute "id" "2"] [node_pcdata "D2"]].

(** ** What a walk without nested nodes stores *)

Definition is_Node (d : Descriptor) : bool :=
  match d with Node _ _ => true | _ => false end.

Definition is_Text (d : Descriptor) : bool :=
  match d with Text _ => true | _ => false end.

(** No [Node] descriptor stands directly among the descriptors. *)
Definition no_nested_node (args : list Descriptor) : bool :=
  forallb (fun d => negb (is_Node d)) args.

Definition has_text (args : list Descriptor) : bool := existsb is_Text args.

Definition attribute_names (args : list Descriptor) : list string :=
  flat_map captured_attributes args.

Definition list_names (args : list Descriptor) : list string :=
  flat_map captured_lists args.

(** The records of the children named [m], in document order. *)
Definition parse_children (m : string) (node_args : list Descriptor)
    (node : xml_node) : result (list NodeData) :=
  mapM (fun c => Node_parse m node_args empty_NodeData (Some c)) (children node m).

(** ** What a walk without nested nodes writes *)

(** [Node::serialize] up to the point where the new element is complete. *)
Definition Node_build (name : string) (args : list Descriptor) (data : NodeData)
  : result xml_node_struct :=
  node <- serialize_subnodes (new_element (c_str (nd_name data))) data args ;;
  _ <- Node_validate name args (Some node) ;;
  Ok node.

(** The elements a [NodeList] writes for the records [recs]. *)
Definition build_children (m : string) (node_args : list Descriptor)
    (recs : list NodeData) : result (list xml_node_struct) :=
  mapM (Node_build m node_args) recs.

Definition written_attribute (d : Descriptor) (data : NodeData)
  : list xml_attribute_struct :=
  match d with
  | Attribute k _ =>
      match nd_attributes data !! k with
      | Some v => [mk_attribute k (c_str v)]
      | None => []
      end
  | _ => []
  end.

Definition written_attributes (args : list Descriptor) (data : NodeData)
  : list xml_attribute_struct :=
  flat_map (fun d => written_attribute d data) args.

(** ** Lists: order and count *)

(** Two lists of the same inner name. *)
Definition two_lists : list Descriptor :=
  [NodeList "data" [] []; NodeList "data" [] []].

(** The names of the [Node] descriptors that stand directly among the
    descriptors. *)
Definition node_names (args : list Descriptor) : list string :=
  flat_map (fun d => match d with Node m _ => [m] | _ => [] end) args.

(** A [Node] directly among the descriptors of the root, before a list. *)
Definition node_and_list : list Descriptor :=
  [Node "child" []; NodeList "data" [] []].

(** A [Node] that bears the inner name of the list. *)
Definition node_named_as_list : list Descriptor :=
  [Node "data" []; NodeList "data" [] []].

(** ** Records that bear the names of their lists *)

(** No [Node] stands directly among the descriptors of a node, in the
    lists too. *)
Fixpoint no_node_inside (d : Descriptor) : bool :=
  match d with
  | Node _ _ => false
  | NodeList _ node_args _ => forallb no_node_inside node_args
  | _ => true
  end.

(** Every record of a list, in [r] and in the records that [r] holds,
    bears the name of the list. *)
Definition named_by_key (r : NodeData) : Prop :=
  forall c m recs c',
    stored_in c r ->
    nd_subnodes c !! m = Some recs ->
    In c' recs ->
    nd_name c' = of_c_str m.

(** A record of a list after a round was there before the round, or it
    bears the name of the list and so do the records it holds. *)
Definition new_records_named (data data' : NodeData) : Prop :=
  forall m recs' c,
    nd_subnodes data' !! m = Some recs' ->
    In c recs' ->
    (exists recs, nd_subnodes data !! m = Some recs /\ In c recs)
    \/ (nd_name c = of_c_str m /\ named_by_key c).

(** ** Round trip *)

(** The schemas of the round trip: no [Node] stands directly among the
    descriptors of a node, and the lists of a node have distinct inner
    names; the same holds inside the lists. *)
Fixpoint unambiguous (d : Descriptor) : bool :=
  match d with
  | Required => true
  | Attribute _ _ => true
  | Text _ => true
  | Node _ _ => false
  | NodeList _ node_args _ =>
      forallb unambiguous node_args
      && bool_decide (NoDup (flat_map captured_lists node_args))
  end.

Definition unambiguous_args (args : list Descriptor) : bool :=
  forallb unambiguous args && bool_decide (NoDup (list_names args)).

Definition is_empty_text (n : xml_node_struct) : bool :=
  match n with
  | node_pcdata v => String.eqb v ""
  | node_element _ _ _ => false
  end.

(** No character data node of the tree is empty. *)
Fixpoint text_nonempty (n : xml_node_struct) : bool :=
  match n with
  | node_pcdata v => negb (String.eqb v "")
  | node_element _ _ cs => forallb text_nonempty cs
  end.

Definition text_nonempty_handle (node : xml_node) : bool :=
  match node with Some n => text_nonempty n | None => true end.

(** The tree without its empty character data nodes. *)
Fixpoint strip_empty_text (n : xml_node_struct) : xml_node_struct :=
  match n with
  | node_pcdata v => node_pcdata v
  | node_element nm a cs =>
      node_element nm a
        (flat_map (fun c => if is_empty_text c then [] else [strip_empty_text c]) cs)
  end.

Definition strip_document (doc : xml_document) : xml_document :=
  flat_map (fun c => if is_empty_text c then [] else [strip_empty_text c]) doc.

(** A record that [parse] returns for [node] is built into an element that
    [parse] reads back as the same record; so is that element without its
    empty character data, when [node] had none. *)
Definition round_trip_at (m : string) (node_args : list Descriptor) : Prop :=
  forall (node : xml_node) (r : NodeData),
    Node_parse m node_args empty_NodeData node = Ok r ->
    exists n : xml_node_struct,
      Node_build m node_args r = Ok n
      /\ Node_parse m node_args empty_NodeData (Some n) = Ok r
      /\ (text_nonempty_handle node = true ->
          Node_parse m node_args empty_NodeData (Some (strip_empty_text n)) = Ok r).

(** *** The tokenizer makes no empty character data *)

Definition nodes_nonempty (l : list xml_node_struct) : Prop :=
  Forall (fun n => text_nonempty n = true) l.

Definition cursor_nonempty (cur : cursor) : Prop :=
  nodes_nonempty (document_children cur)
  /\ Forall (fun f => nodes_nonempty (open_children f)) (open_elements cur).

(** *** The whole document *)

(** A [Node] directly among the descriptors of the root. *)
Definition nested_schema : list Descriptor := [Node "child" []].

(** ** What the descriptors of a node look at *)

(** The attribute a descriptor looks up in the node it is parsed
    against, and the name of the children it locates there. *)
Definition direct_attributes (d : Descriptor) : list string :=
  match d with Attribute k _ => [k] | _ => [] end.

Definition located_names (d : Descriptor) : list string :=
  match d with
  | Node m _ => [m]
  | NodeList m _ _ => [m]
  | _ => []
  end.

Definition direct_lists (d : Descriptor) : list string :=
  match d with NodeList m _ _ => [m] | _ => [] end.

(** Whether the descriptor throws when what it locates is not there. *)
Definition direct_required (d : Descriptor) : bool :=
  match d with
  | Attribute _ ar => is_required ar
  | Text ar => is_required ar
  | Node _ ar => is_required ar
  | _ => false
  end.

(** The element without its child elements named [a]. *)
Definition remove_children (a : string) (n : xml_node_struct) : xml_node_struct :=
  match n with
  | node_element nm attrs cs =>
      node_element nm attrs
        (List.filter (fun c => negb (name_is a (struct_name c))) cs)
  | node_pcdata v => node_pcdata v
  end.

(** The element without its character data. *)
Definition remove_text (n : xml_node_struct) : xml_node_struct :=
  match n with
  | node_element nm attrs cs => node_element nm attrs (List.filter is_element cs)
  | node_pcdata v => node_pcdata v
  end.

(** ** The exceptions a schema can throw *)

(** The names of the required attributes of a schema, whether it has a
    required text, and the names of its required nested nodes.  The
    inner node of a list is located before it is validated, so it is
    never missing. *)
Fixpoint required_attributes (d : Descriptor) : list string :=
  match d with
  | Attribute k ar => if is_required ar then [k] else []
  | Node _ args => flat_map required_attributes args
  | NodeList _ sub _ => flat_map required_attributes sub
  | _ => []
  end.

Fixpoint requires_text (d : Descriptor) : bool :=
  match d with
  | Text ar => is_required ar
  | Node _ args => existsb requires_text args
  | NodeList _ sub _ => existsb requires_text sub
  | _ => false
  end.

Fixpoint required_nodes (d : Descriptor) : list string :=
  match d with
  | Node m args =>
      (if is_required args then [m] else []) ++ flat_map required_nodes args
  | NodeList _ sub _ => flat_map required_nodes sub
  | _ => []
  end.

(** The exception is backed by a required descriptor of [args]. *)
Definition declared_error (args : list Descriptor) (e : runtime_error) : Prop :=
  match e with
  | MissingRequiredAttribute k => k ∈ flat_map required_attributes args
  | MissingRequiredText => existsb requires_text args = true
  | MissingRequiredNode m => m ∈ flat_map required_nodes args
  | NodeNameMismatch _ _ => False
  end.

(** ** What [serialize] reads of a record *)

(** Whether the descriptor writes the text of the record it is given. *)
Fixpoint captures_text (d : Descriptor) : bool :=
  match d with
  | Text _ => true
  | Node _ args => existsb captures_text args
  | _ => false
  end.

(** The record bears the name of every [Node] it is serialized by, and so
    do the records of its lists. *)
Fixpoint well_named (d : Descriptor) (data : NodeData) : bool :=
  match d with
  | Node m sub =>
      bool_decide (nd_name data = of_c_str m)
      && forallb (fun d' => well_named d' data) sub
  | NodeList m sub _ =>
      forallb (fun c => bool_decide (nd_name c = of_c_str m)
                        && forallb (fun d' => well_named d' c) sub)
              (default [] (nd_subnodes data !! m))
  | _ => true
  end.

(** The same with the names as [serialize] reads them, through [c_str()]. *)
Fixpoint c_named (d : Descriptor) (data : NodeData) : bool :=
  match d with
  | Node m sub =>
      String.eqb m (c_str (nd_name data))
      && forallb (fun d' => c_named d' data) sub
  | NodeList m sub _ =>
      forallb (fun c => String.eqb m (c_str (nd_name c))
                        && forallb (fun d' => c_named d' c) sub)
              (default [] (nd_subnodes data !! m))
  | _ => true
  end.

(** ** The lines on the standard output *)

(** Whether the schema has a [Text] descriptor. *)
Fixpoint uses_text (d : Descriptor) : bool :=
  match d with
  | Text _ => true
  | Node _ args => existsb uses_text args
  | NodeList _ sub _ => existsb uses_text sub
  | _ => false
  end.

(** The line that [Text::subnode] writes for the element a record with
    the attribute [id] was read from. *)
Definition record_line (c : NodeData) : string :=
  "Node: " +:+ default EmptyString (c_str <$> nd_attributes c !! "id") +:+ endl.

(** * Properties *)

(** ** Basic facts *)

Lemma bind_Ok {A B} (m : result A) (k : A -> result B) (b : B) :
  bind m k = Ok b <-> exists a, m = Ok a /\ k a = Ok b.
Proof.
  destruct m as [a|e]; simpl; split.
  - intros H. exists a. auto.
  - intros (a' & Ha & Hk). congruence.
  - discriminate.
  - intros (a' & Ha & _). discriminate.
Qed.

Lemma bind_Throw {A B} (m : result A) (k : A -> result B) (e : runtime_error) :
  bind m k = Throw e <-> m = Throw e \/ exists a, m = Ok a /\ k a = Throw e.
Proof.
  destruct m as [a|e']; simpl; split.
  - intros H. right. exists a. auto.
  - intros [H | (a' & Ha & Hk)]; congruence.
  - intros H. left. congruence.
  - intros [H | (a' & Ha & _)]; congruence.
Qed.

Lemma name_is_true (name_ iname : string) :
  name_is name_ iname = true <-> iname <> "" /\ name_ = iname.
Proof.
  unfold name_is. rewrite andb_true_iff, negb_true_iff.
  rewrite String.eqb_neq, String.eqb_eq. tauto.
Qed.

Lemma name_is_eqb (name_ iname : string) :
  name_is name_ iname = true -> String.eqb name_ iname = true.
Proof. unfold name_is. rewrite andb_true_iff. tauto. Qed.

Lemma find_some_holds {A} (f : A -> bool) (l : list A) (x : A) :
  List.find f l = Some x -> f x = true.
Proof. intros H. apply List.find_some in H. tauto. Qed.

Lemma Node_validate_present (name : string) (args : list Descriptor)
    (n : xml_node_struct) :
  Node_validate name args (Some n) =
    if String.eqb name (struct_name n) then Ok true
    else Throw (NodeNameMismatch name (struct_name n)).
Proof. reflexivity. Qed.

Lemma Node_validate_named (name : string) (args : list Descriptor)
    (n : xml_node_struct) :
  name_is name (struct_name n) = true -> Node_validate name args (Some n) = Ok true.
Proof.
  intros H. rewrite Node_validate_present, (name_is_eqb _ _ H). reflexivity.
Qed.

(** A child located by name passes the name check of [Node::validate]. *)
Lemma Node_validate_located (name : string) (args : list Descriptor)
    (node : xml_node) (c : xml_node_struct) :
  Node_subnode name node = Some c -> Node_validate name args (Some c) = Ok true.
Proof.
  unfold Node_subnode, child. destruct node as [n|]; [|discriminate].
  intros H. apply find_some_holds in H. apply Node_validate_named, H.
Qed.

Lemma NodeList_validate_named (name : string) (node_args : list Descriptor)
    (cs : list xml_node_struct) :
  Forall (fun c => name_is name (struct_name c) = true) cs ->
  NodeList_validate name node_args cs = Ok true.
Proof.
  induction 1 as [|c cs Hc _ IH]; [reflexivity|].
  cbn [NodeList_validate].
  rewrite (Node_validate_named name node_args c Hc). cbn [bind]. exact IH.
Qed.

Lemma children_named (node : xml_node) (name : string) :
  Forall (fun c => name_is name (struct_name c) = true) (children node name).
Proof.
  unfold children. destruct node as [n|]; [|constructor].
  apply List.Forall_forall. intros c Hc. apply List.filter_In in Hc. tauto.
Qed.

(** The range a [NodeList] locates always passes [NodeList::validate]. *)
Lemma NodeList_validate_located (name : string) (node_args : list Descriptor)
    (node : xml_node) :
  NodeList_validate name node_args (NodeList_subnode name node) = Ok true.
Proof. apply NodeList_validate_named, children_named. Qed.

(** The messages of the three failing documents of [main]. *)
Example scenario_messages :
  what (NodeNameMismatch "root" "wrong") = "Expected root node instead of wrong"
  /\ what (MissingRequiredAttribute "key") = "Expected xml attribute key"
  /\ what MissingRequiredText = "A text node is required".
Proof. repeat split; reflexivity. Qed.

(** The documents of the scenarios are read as the documents of [main]. *)
Example scenarios_loaded :
  load_buffer scenario1 = load_buffer example1
  /\ load_buffer scenario2 = load_buffer example2
  /\ load_buffer scenario3 = load_buffer example3
  /\ load_buffer scenario4 = load_buffer example4.
Proof. repeat split; vm_compute; reflexivity. Qed.

(** ** Root name mismatch *)

Lemma parse_document_mismatch (doc : xml_document) (name : string)
    (args : list Descriptor) (e : xml_node_struct) :
  document_element doc = Some e ->
  struct_name e <> name ->
  parse_document doc name args = Throw (NodeNameMismatch name (struct_name e)).
Proof.
  intros He Hne. unfold parse_document. rewrite He, Node_validate_present.
  destruct (String.eqb_spec name (struct_name e)) as [Heq|_]; [|reflexivity].
  congruence.
Qed.

(** C6. When the document element does not bear the declared name of the
    root descriptor, [parse] fails with [NodeNameMismatch declared actual],
    whatever the rest of the schema; a node located by name (by
    [Node::subnode] or [NodeList::subnode]) always passes the name check, so
    the root is the only place of [parse] where the mismatch is seen; and
    with the schema of [main] the document [<wrong/>] fails with
    [NodeNameMismatch "root" "wrong"]. *)
Theorem root_name_mismatch :
  (forall (s name : string) (args : list Descriptor) (e : xml_node_struct),
      document_element (snd (load_buffer s)) = Some e ->
      struct_name e <> name ->
      parse s name args = Throw (NodeNameMismatch name (struct_name e)))
  /\ (forall (name : string) (args : list Descriptor) (node : xml_node)
             (c : xml_node_struct),
         Node_subnode name node = Some c ->
         Node_validate name args (Some c) = Ok true)
  /\ (forall (name : string) (node_args : list Descriptor) (node : xml_node),
         NodeList_validate name node_args (NodeList_subnode name node) = Ok true)
  /\ parse scenario1 xml_name xml_args = Throw (NodeNameMismatch "root" "wrong").
Proof.
  split; [|split; [|split]].
  - intros s name args e He Hne. unfold parse.
    apply parse_document_mismatch; assumption.
  - apply Node_validate_located.
  - apply NodeList_validate_located.
  - vm_compute. reflexivity.
Qed.

Lemma root_name_mismatch_witness :
  parse example1 xml_name xml_args = Throw (NodeNameMismatch "root" "wrong").
Proof.
  apply (proj1 root_name_mismatch example1 xml_name xml_args
               (node_element "wrong" [] [])).
  - vm_compute. reflexivity.
  - simpl. discriminate.
Defined.

(** ** Text and attributes on output *)

Lemma find_set_first_text (v : string) (cs : list xml_node_struct) :
  List.find is_text_node (set_first_text v cs) = Some (node_pcdata v).
Proof.
  induction cs as [|c cs IH]; [reflexivity|].
  destruct c as [nm a k|w]; simpl; [exact IH|reflexivity].
Qed.

Lemma text_data_text_set (parent : xml_node_struct) (v : string) :
  text_data (text (Some (text_set parent v))) = Some (node_pcdata v).
Proof.
  destruct parent as [nm a cs|w]; simpl; [|reflexivity].
  apply find_set_first_text.
Qed.

(** C8, the claim as it stands fails: the text [a], NUL, [b] of a record
    is written as [a], since [Text::serialize] hands [data.text.c_str()]
    to pugixml. *)
Lemma text_with_nul_counterexample :
  bytes (nd_text nul_text_record) = String "a" (String Ascii.zero "b")
  /\ text_as_string (text (Some (Text_serialize (new_element "root")
                                                 nul_text_record))) = "a"
  /\ of_c_str (text_as_string (text (Some (Text_serialize (new_element "root")
                                                           nul_text_record))))
     <> nd_text nul_text_record.
Proof.
  split; [vm_compute; reflexivity|]. split; [vm_compute; reflexivity|].
  intros H. discriminate H.
Qed.

(** C8. [Text::serialize] always leaves a character data node in the
    output element, also when the text is empty; it holds [data.text] up
    to its first NUL byte, so all of a text that holds none.
    [Attribute::serialize] leaves the element as it is when the record has
    no entry of the declared name: a record without text is written as an
    element with an empty character data node, a record without attribute
    as an element without attribute. *)
Theorem text_attribute_asymmetry :
  (forall (args : list Descriptor) (parent : xml_node_struct) (data : NodeData),
      serialize_subnode (Text args) parent data = Ok (Text_serialize parent data)
      /\ text_empty (text (Some (Text_serialize parent data))) = false
      /\ text_as_string (text (Some (Text_serialize parent data)))
         = c_str (nd_text data)
      /\ (forall v : string,
             nd_text data = of_c_str v ->
             text_as_string (text (Some (Text_serialize parent data))) = v))
  /\ (forall (name : string) (args : list Descriptor) (parent : xml_node_struct)
             (data : NodeData),
         nd_attributes data !! name = None ->
         Attribute_serialize name parent data = parent
         /\ serialize_subnode (Attribute name args) parent data = Ok parent)
  /\ serialize_document (set_name "root" empty_NodeData) "root" [Text []]
       = Ok [node_element "root" [] [node_pcdata ""]]
  /\ serialize_document (set_name "root" empty_NodeData) "root"
                        [Attribute "key" []]
       = Ok [node_element "root" [] []].
Proof.
  split; [|split; [|split]].
  - intros args parent data. split; [reflexivity|].
    unfold Text_serialize, text_empty, text_as_string.
    rewrite text_data_text_set. split; [reflexivity|].
    split; [reflexivity|]. intros v ->. reflexivity.
  - intros name args parent data H. simpl. unfold Attribute_serialize.
    rewrite H. split; reflexivity.
  - vm_compute. reflexivity.
  - vm_compute. reflexivity.
Qed.

Lemma text_attribute_asymmetry_witness :
  serialize_subnode (Attribute "client_id" []) (new_element "root") empty_NodeData
    = Ok (new_element "root").
Proof.
  apply (proj1 (proj2 text_attribute_asymmetry) "client_id" []
               (new_element "root") empty_NodeData).
  vm_compute. reflexivity.
Defined.

(** ** Optional fields *)

(** C9. An optional attribute, text or node that is absent makes
    [validate] return false without an exception, and the round of
    [parse_subnodes] leaves the record as it is; with the schema of [main],
    [<root key="mykey"/>] is parsed into a record with [key] set to
    [mykey], no [client_id], and an empty list under [data]. *)
Theorem optional_absence :
  (forall (name : string) (args : list Descriptor) (node : xml_node)
          (data : NodeData),
      is_required args = false ->
      Attribute_subnode name node = None ->
      Attribute_validate name args (Attribute_subnode name node) = Ok false
      /\ parse_subnode (Attribute name args) data node = Ok data)
  /\ (forall (args : list Descriptor) (node : xml_node) (data : NodeData),
         is_required args = false ->
         text_empty (Text_subnode node) = true ->
         Text_validate args (Text_subnode node) = Ok false
         /\ parse_subnode (Text args) data node = Ok data)
  /\ (forall (name : string) (args : list Descriptor) (node : xml_node)
             (data : NodeData),
         is_required args = false ->
         Node_subnode name node = None ->
         Node_validate name args (Node_subnode name node) = Ok false
         /\ parse_subnode (Node name args) data node = Ok data)
  /\ (exists r : NodeData,
         parse scenario3 xml_name xml_args = Ok r
         /\ nd_attributes r !! "key" = Some (of_c_str "mykey")
         /\ nd_attributes r !! "client_id" = None
         /\ nd_subnodes r !! "data" = Some []).
Proof.
  split; [|split; [|split]].
  - intros name args node data Hopt Habs. simpl.
    rewrite Habs. unfold Attribute_validate. rewrite Hopt. split; reflexivity.
  - intros args node data Hopt Habs. simpl.
    unfold Text_validate. rewrite Habs, Hopt. split; reflexivity.
  - intros name args node data Hopt Habs.
    cbn [parse_subnode]. rewrite Habs. unfold Node_validate. rewrite Hopt.
    split; reflexivity.
  - eexists. split; [vm_compute; reflexivity|].
    split; [|split]; vm_compute; reflexivity.
Qed.

Lemma optional_absence_witness :
  parse_subnode (Attribute "client_id" [])
                empty_NodeData (Some (node_element "root" [] []))
    = Ok empty_NodeData.
Proof.
  apply (proj1 optional_absence "client_id" []
               (Some (node_element "root" [] [])) empty_NodeData).
  - reflexivity.
  - reflexivity.
Defined.

(** ** Lists: failures of the inner descriptor *)

Lemma NodeList_validate_true (name : string) (node_args : list Descriptor)
    (cs : list xml_node_struct) :
  NodeList_validate name node_args cs = Ok true <->
  Forall (fun c => Node_validate name node_args (Some c) = Ok true) cs.
Proof.
  induction cs as [|c cs IH]; cbn [NodeList_validate].
  - split; [constructor|reflexivity].
  - split.
    + intros H. apply bind_Ok in H as (b & Hb & H).
      destruct b; [|discriminate]. constructor; [exact Hb|]. apply IH, H.
    + intros H. inversion H as [|c' cs' Hc Hcs]; subst.
      rewrite Hc. cbn [bind]. apply IH, Hcs.
Qed.

Lemma NodeList_validate_throw (name : string) (node_args : list Descriptor)
    (cs1 cs2 : list xml_node_struct) (c : xml_node_struct) (e : runtime_error) :
  Forall (fun c => Node_validate name node_args (Some c) = Ok true) cs1 ->
  Node_validate name node_args (Some c) = Throw e ->
  NodeList_validate name node_args (cs1 ++ c :: cs2) = Throw e.
Proof.
  intros H Hc. induction H as [|c1 cs1 Hc1 _ IH]; cbn [app NodeList_validate].
  - rewrite Hc. reflexivity.
  - rewrite Hc1. cbn [bind]. exact IH.
Qed.

Lemma mapM_throw {A B} (f : B -> result A) (l1 l2 : list B) (b : B)
    (e : runtime_error) :
  Forall (fun x => exists a, f x = Ok a) l1 ->
  f b = Throw e ->
  mapM f (l1 ++ b :: l2) = Throw e.
Proof.
  intros H Hb. induction H as [|x l1 (a & Ha) _ IH]; cbn [app mapM].
  - rewrite Hb. reflexivity.
  - rewrite Ha. cbn [bind]. rewrite IH. reflexivity.
Qed.

Lemma parse_subnode_NodeList (name : string) (node_args args : list Descriptor)
    (data : NodeData) (node : xml_node) :
  parse_subnode (NodeList name node_args args) data node =
    NodeList_parse name node_args data (NodeList_subnode name node).
Proof.
  cbn [parse_subnode]. rewrite NodeList_validate_located. reflexivity.
Qed.

(** C5, as stated, fails: in the fourth scenario the [data] child has no
    text and [Text::validate] throws on it, yet [NodeList::validate]
    returns true on the children that were located: [Node::validate]
    compares names and does not call the [validate] of the descriptors
    of the node. *)
Lemma list_validate_counterexample :
  NodeList_subnode "data" (document_element (snd (load_buffer scenario4)))
    = [node_element "data" [mk_attribute "id" "1"] []]
  /\ Text_validate [Required]
       (Text_subnode (Some (node_element "data" [mk_attribute "id" "1"] [])))
     = Throw MissingRequiredText
  /\ NodeList_validate "data" [Attribute "id" [Required]; Text [Required]]
       (NodeList_subnode "data" (document_element (snd (load_buffer scenario4))))
     = Ok true.
Proof. split; [|split]; vm_compute; reflexivity. Qed.

(** C5, amended. [NodeList::validate] returns true exactly when every
    element of the range passes the [validate] of the inner [Node], which
    looks at the name of the element and not at the descriptors of the
    node; on the children that [NodeList::subnode] locates it returns
    true, whatever they hold.  The failure of a descriptor of the inner
    node comes out when [NodeList::parse] parses the children: the
    exception of the first child whose parse throws is the exception of
    the round of the list, and no record is returned; with the schema of
    [main] the document [<root key="mykey"><data id="1"/></root>] fails
    with [MissingRequiredText]. *)
Theorem list_inner_failure :
  (forall (name : string) (node_args : list Descriptor)
          (cs : list xml_node_struct),
      NodeList_validate name node_args cs = Ok true <->
      Forall (fun c => Node_validate name node_args (Some c) = Ok true) cs)
  /\ (forall (name : string) (node_args node_args' : list Descriptor)
             (c : xml_node_struct),
         Node_validate name node_args (Some c)
         = Node_validate name node_args' (Some c))
  /\ (forall (name : string) (node_args : list Descriptor) (node : xml_node),
         NodeList_validate name node_args (NodeList_subnode name node) = Ok true)
  /\ (forall (name : string) (node_args args : list Descriptor)
             (data : NodeData) (node : xml_node)
             (cs1 cs2 : list xml_node_struct) (c : xml_node_struct)
             (e : runtime_error),
         NodeList_subnode name node = cs1 ++ c :: cs2 ->
         Forall (fun c => exists r,
                   Node_parse name node_args empty_NodeData (Some c) = Ok r) cs1 ->
         Node_parse name node_args empty_NodeData (Some c) = Throw e ->
         parse_subnode (NodeList name node_args args) data node = Throw e)
  /\ parse scenario4 xml_name xml_args = Throw MissingRequiredText.
Proof.
  split; [|split; [|split; [|split]]].
  - apply NodeList_validate_true.
  - intros name node_args node_args' c. rewrite !Node_validate_present. reflexivity.
  - apply NodeList_validate_located.
  - intros name node_args args data node cs1 cs2 c e Hcs H1 Hc.
    rewrite parse_subnode_NodeList, Hcs. unfold NodeList_parse.
    rewrite (mapM_throw _ cs1 cs2 c e H1 Hc). reflexivity.
  - vm_compute. reflexivity.
Qed.

Lemma list_inner_failure_witness :
  parse_subnode (NodeList "data" [Attribute "id" [Required]; Text [Required]] [])
                empty_NodeData
                (document_element (snd (load_buffer second_child_empty)))
  = Throw MissingRequiredText.
Proof.
  apply (proj1 (proj2 (proj2 (proj2 list_inner_failure)))
           "data" [Attribute "id" [Required]; Text [Required]] [] empty_NodeData
           (document_element (snd (load_buffer second_child_empty)))
           [node_element "data" [mk_attribute "id" "1"] [node_pcdata "D1"]] []
           (node_element "data" [mk_attribute "id" "2"] [])
           MissingRequiredText).
  - vm_compute. reflexivity.
  - constructor; [|constructor]. eexists. vm_compute. reflexivity.
  - vm_compute. reflexivity.
Defined.

(** ** Induction on descriptors *)

Section Descriptor_induction.
Variable P : Descriptor -> Prop.
Hypothesis HRequired : P Required.
Hypothesis HAttribute : forall name args, P (Attribute name args).
Hypothesis HText : forall args, P (Text args).
Hypothesis HNode : forall name args, Forall P args -> P (Node name args).
Hypothesis HNodeList :
  forall name node_args args, Forall P node_args -> P (NodeList name node_args args).

Fixpoint Descriptor_nested_ind (d : Descriptor) : P d :=
  let all := fix all (l : list Descriptor) : Forall P l :=
    match l with
    | [] => @List.Forall_nil _ P
    | x :: l' => @List.Forall_cons _ P x l' (Descriptor_nested_ind x) (all l')
    end in
  match d with
  | Required => HRequired
  | Attribute name args => HAttribute name args
  | Text args => HText args
  | Node name args => HNode name args (all args)
  | NodeList name node_args args => HNodeList name node_args args (all node_args)
  end.
End Descriptor_induction.

(** ** Loops *)

Lemma foldM_app {A B} (f : A -> B -> result A) (l1 l2 : list B) (a : A) :
  foldM f (l1 ++ l2) a = (a' <- foldM f l1 a ;; foldM f l2 a').
Proof.
  revert a. induction l1 as [|b l1 IH]; intros a; cbn [app foldM bind].
  - reflexivity.
  - destruct (f a b) as [a'|e]; cbn [bind]; [apply IH|reflexivity].
Qed.

Lemma foldM_invariant {A B} (P : A -> Prop) (f : A -> B -> result A)
    (l : list B) (a a' : A) :
  P a ->
  (forall x b y, In b l -> P x -> f x b = Ok y -> P y) ->
  foldM f l a = Ok a' -> P a'.
Proof.
  revert a. induction l as [|b l IH]; intros a Ha Hstep H; cbn [foldM] in H.
  - congruence.
  - apply bind_Ok in H as (y & Hy & H).
    apply (IH y); [|intros x b' y' Hin; apply Hstep; right; exact Hin|exact H].
    apply (Hstep a b y); [left; reflexivity|exact Ha|exact Hy].
Qed.

Lemma foldM_throw_inv {A B} (f : A -> B -> result A) (l : list B) (a : A)
    (e : runtime_error) :
  foldM f l a = Throw e -> exists b x, In b l /\ f x b = Throw e.
Proof.
  revert a. induction l as [|b l IH]; intros a H; cbn [foldM] in H.
  - discriminate.
  - apply bind_Throw in H as [H | (y & _ & H)].
    + exists b, a. split; [left; reflexivity|exact H].
    + destruct (IH y H) as (b' & x & Hin & Hx).
      exists b', x. split; [right; exact Hin|exact Hx].
Qed.

(** ** What [serialize] can throw *)

Lemma Node_validate_present_throw (name : string) (args : list Descriptor)
    (n : xml_node_struct) (e : runtime_error) :
  Node_validate name args (Some n) = Throw e ->
  e = NodeNameMismatch name (struct_name n) /\ struct_name n <> name.
Proof.
  rewrite Node_validate_present.
  destruct (String.eqb_spec name (struct_name n)) as [Heq|Hne]; [discriminate|].
  intros H. split; [congruence|congruence].
Qed.

Lemma serialize_subnode_Node (name : string) (args : list Descriptor)
    (parent : xml_node_struct) (data : NodeData) :
  serialize_subnode (Node name args) parent data =
    Node_serialize name args parent data.
Proof. reflexivity. Qed.

Lemma serialize_subnode_NodeList (name : string) (node_args args : list Descriptor)
    (parent : xml_node_struct) (data : NodeData) :
  serialize_subnode (NodeList name node_args args) parent data =
    NodeList_serialize name node_args parent data.
Proof. reflexivity. Qed.

Lemma Node_serialize_throw (name : string) (args : list Descriptor)
    (parent : xml_node_struct) (data : NodeData) (e : runtime_error) :
  Forall (fun d => forall parent data e,
            serialize_subnode d parent data = Throw e ->
            exists x y, e = NodeNameMismatch x y) args ->
  Node_serialize name args parent data = Throw e ->
  exists x y, e = NodeNameMismatch x y.
Proof.
  intros IH H. unfold Node_serialize in H.
  apply bind_Throw in H as [H | (node & _ & H)].
  - apply foldM_throw_inv in H as (d & p & Hin & H).
    rewrite List.Forall_forall in IH. exact (IH d Hin p data e H).
  - apply bind_Throw in H as [H | (b & _ & H)]; [|discriminate].
    apply Node_validate_present_throw in H as [H _]. eauto.
Qed.

(** Every exception of the serializing walk is a name mismatch. *)
Lemma serialize_subnode_throw (d : Descriptor) :
  forall (parent : xml_node_struct) (data : NodeData) (e : runtime_error),
    serialize_subnode d parent data = Throw e ->
    exists x y, e = NodeNameMismatch x y.
Proof.
  induction d as [|name args|args|name args IH|name node_args args IH]
    using Descriptor_nested_ind; intros parent data e H.
  - discriminate.
  - discriminate.
  - discriminate.
  - rewrite serialize_subnode_Node in H.
    exact (Node_serialize_throw name args parent data e IH H).
  - rewrite serialize_subnode_NodeList in H. unfold NodeList_serialize in H.
    destruct (nd_subnodes data !! name) as [subs|]; [|discriminate].
    apply foldM_throw_inv in H as (c & p & _ & H).
    exact (Node_serialize_throw name node_args p c e IH H).
Qed.

Lemma struct_name_append_child (parent c : xml_node_struct) :
  struct_name (append_child_struct parent c) = struct_name parent.
Proof. destruct parent; reflexivity. Qed.

Lemma struct_name_append_attribute (parent : xml_node_struct) (k v : string) :
  struct_name (append_attribute parent k v) = struct_name parent.
Proof. destruct parent; reflexivity. Qed.

Lemma struct_name_text_set (parent : xml_node_struct) (v : string) :
  struct_name (text_set parent v) = struct_name parent.
Proof. destruct parent; reflexivity. Qed.

Lemma Node_serialize_name (name : string) (args : list Descriptor)
    (parent parent' : xml_node_struct) (data : NodeData) :
  Node_serialize name args parent data = Ok parent' ->
  struct_name parent' = struct_name parent.
Proof.
  unfold Node_serialize. intros H.
  apply bind_Ok in H as (node & _ & H). apply bind_Ok in H as (b & _ & H).
  injection H as <-. apply struct_name_append_child.
Qed.

(** The serializing walk never renames the element it writes into. *)
Lemma serialize_subnode_name (d : Descriptor) (parent parent' : xml_node_struct)
    (data : NodeData) :
  serialize_subnode d parent data = Ok parent' ->
  struct_name parent' = struct_name parent.
Proof.
  destruct d as [|name args|args|name args|name node_args args].
  - cbn. congruence.
  - cbn. intros H. injection H as <-. unfold Attribute_serialize.
    destruct (nd_attributes data !! name); [|reflexivity].
    apply struct_name_append_attribute.
  - cbn. intros H. injection H as <-. apply struct_name_text_set.
  - rewrite serialize_subnode_Node. apply Node_serialize_name.
  - rewrite serialize_subnode_NodeList. unfold NodeList_serialize.
    destruct (nd_subnodes data !! name) as [subs|]; [|congruence].
    apply (foldM_invariant (fun x => struct_name x = struct_name parent));
      [reflexivity|].
    intros x c y _ Hx Hy. rewrite <- Hx.
    exact (Node_serialize_name name node_args x y c Hy).
Qed.

Lemma serialize_subnodes_name (args : list Descriptor)
    (parent parent' : xml_node_struct) (data : NodeData) :
  serialize_subnodes parent data args = Ok parent' ->
  struct_name parent' = struct_name parent.
Proof.
  unfold serialize_subnodes.
  apply (foldM_invariant (fun x => struct_name x = struct_name parent));
    [reflexivity|].
  intros x d y _ Hx Hy. rewrite <- Hx. exact (serialize_subnode_name d x y data Hy).
Qed.

(** ** Serializing a record under another name *)

(** C10, as stated, fails: the exception of a nested descriptor comes
    first; and a record whose name is the declared name followed by a NUL
    byte and more is serialized, since the element is named
    [data.name.c_str()]. *)
Lemma serialize_wrong_name_counterexample :
  (nd_name misnamed_record <> of_c_str xml_name
   /\ serialize misnamed_record xml_name xml_args
        = Throw (NodeNameMismatch "data" "y")
   /\ serialize misnamed_record xml_name xml_args
        <> Throw (NodeNameMismatch xml_name (c_str (nd_name misnamed_record))))
  /\ (nd_name nul_name_record <> of_c_str xml_name
      /\ bytes (nd_name nul_name_record) = "root" +:+ String Ascii.zero "x"
      /\ serialize nul_name_record xml_name xml_args = Ok "<root/>").
Proof.
  split.
  - split; [discriminate|].
    assert (H : serialize misnamed_record xml_name xml_args
                = Throw (NodeNameMismatch "data" "y")) by (vm_compute; reflexivity).
    split; [exact H|]. rewrite H. discriminate.
  - split; [discriminate|]. split; vm_compute; reflexivity.
Qed.

(** C10, amended. [serialize] of a record whose name, read up to its
    first NUL byte, is not the declared name of the root descriptor never
    returns a text: it throws a [NodeNameMismatch].  When the walk over the
    children descriptors ends without an exception, the exception is
    [NodeNameMismatch declared record_name], with the name of the record
    up to its first NUL byte, thrown by the check of the root; otherwise
    it is the exception of that walk. *)
Theorem serialize_wrong_name :
  forall (data : NodeData) (name : string) (args : list Descriptor),
    c_str (nd_name data) <> name ->
    exists e : runtime_error,
      serialize data name args = Throw e
      /\ (exists x y, e = NodeNameMismatch x y)
      /\ (serialize_subnodes (new_element (c_str (nd_name data))) data args
            = Throw e
          \/ ((exists root,
                 serialize_subnodes (new_element (c_str (nd_name data))) data args
                   = Ok root)
              /\ e = NodeNameMismatch name (c_str (nd_name data)))).
Proof.
  intros data name args Hne. unfold serialize, serialize_document.
  destruct (serialize_subnodes (new_element (c_str (nd_name data))) data args)
    as [root|e] eqn:Hwalk.
  - pose proof (serialize_subnodes_name _ _ _ _ Hwalk) as Hname.
    cbn [new_element struct_name] in Hname.
    cbn [bind]. rewrite Node_validate_present, Hname.
    destruct (String.eqb_spec name (c_str (nd_name data))) as [Heq|_]; [congruence|].
    cbn [bind]. eexists. split; [reflexivity|]. split; [eauto|].
    right. split; [eauto|reflexivity].
  - cbn [bind]. exists e. split; [reflexivity|]. split; [|left; reflexivity].
    unfold serialize_subnodes in Hwalk.
    apply foldM_throw_inv in Hwalk as (d & p & _ & H).
    exact (serialize_subnode_throw d p data e H).
Qed.

Lemma serialize_wrong_name_witness :
  exists e : runtime_error,
    serialize (set_name "wrong" empty_NodeData) xml_name xml_args = Throw e
    /\ (exists x y, e = NodeNameMismatch x y)
    /\ (serialize_subnodes (new_element "wrong") (set_name "wrong" empty_NodeData)
                           xml_args = Throw e
        \/ ((exists root,
               serialize_subnodes (new_element "wrong")
                                  (set_name "wrong" empty_NodeData) xml_args
                 = Ok root)
            /\ e = NodeNameMismatch xml_name "wrong")).
Proof.
  apply (serialize_wrong_name (set_name "wrong" empty_NodeData) xml_name xml_args).
  simpl. discriminate.
Defined.

(** ** Input that is not well formed *)

(** C3, as stated, fails: [load_buffer] reports an error on the empty text
    and [parse] throws [MissingRequiredNode "root"]; it reports an error on
    a root that is never closed and [parse] returns a record. *)
Lemma malformed_input_counterexample :
  fst (load_buffer "") <> status_ok
  /\ parse "" xml_name xml_args = Throw (MissingRequiredNode "root")
  /\ fst (load_buffer unclosed_root) <> status_ok
  /\ exists r : NodeData,
       parse unclosed_root xml_name xml_args = Ok r
       /\ nd_attributes r !! "key" = Some (of_c_str "mykey").
Proof.
  split; [vm_compute; discriminate|].
  split; [vm_compute; reflexivity|].
  split; [vm_compute; discriminate|].
  eexists. split; vm_compute; reflexivity.
Qed.

(** C3, amended. [parse] does not look at what [load_buffer] returns:
    whether or not the text is well formed, it walks the tree that was
    loaded.  Without a document element it throws
    [MissingRequiredNode name] when the root descriptor is required, and
    otherwise parses the null handle; with a document element of another
    name it throws [NodeNameMismatch]; otherwise the result is that of
    [Node::parse] on the document element. *)
Theorem parse_ignores_load_result :
  forall (s name : string) (args : list Descriptor),
    match document_element (snd (load_buffer s)) with
    | None =>
        parse s name args =
          if is_required args then Throw (MissingRequiredNode name)
          else Node_parse name args empty_NodeData None
    | Some e =>
        parse s name args =
          if String.eqb name (struct_name e)
          then Node_parse name args empty_NodeData (Some e)
          else Throw (NodeNameMismatch name (struct_name e))
    end.
Proof.
  intros s name args. unfold parse, parse_document.
  destruct (document_element (snd (load_buffer s))) as [e|].
  - rewrite Node_validate_present.
    destruct (String.eqb name (struct_name e)); reflexivity.
  - unfold Node_validate. destruct (is_required args); reflexivity.
Qed.

(** ** Only declared names are captured *)

Lemma elem_of_flat_map {A B} (f : A -> list B) (l : list A) (y : B) :
  y ∈ flat_map f l <-> exists x, x ∈ l /\ y ∈ f x.
Proof.
  rewrite list_elem_of_In, in_flat_map. split; intros (x & Hx & Hy); exists x.
  - rewrite !list_elem_of_In. auto.
  - rewrite <- !list_elem_of_In. auto.
Qed.

Lemma captured_attributes_declared (d : Descriptor) :
  forall k, k ∈ captured_attributes d -> k ∈ declared_attributes d.
Proof.
  induction d as [|name args|args|name args IH|name node_args args IH]
    using Descriptor_nested_ind; intros k; cbn; try (intros H; exact H).
  - rewrite !elem_of_flat_map. intros (x & Hx & Hk). exists x. split; [exact Hx|].
    rewrite List.Forall_forall in IH. apply IH; [apply list_elem_of_In, Hx|exact Hk].
  - intros H. inversion H.
Qed.

Lemma captured_lists_declared (d : Descriptor) :
  forall k, k ∈ captured_lists d -> k ∈ declared_lists d.
Proof.
  induction d as [|name args|args|name args IH|name node_args args IH]
    using Descriptor_nested_ind; intros k; cbn; try (intros H; exact H).
  - rewrite !elem_of_flat_map. intros (x & Hx & Hk). exists x. split; [exact Hx|].
    rewrite List.Forall_forall in IH. apply IH; [apply list_elem_of_In, Hx|exact Hk].
  - intros H. apply list_elem_of_singleton in H as ->. left.
Qed.

Lemma keys_within_refl (A L : list string) (data : NodeData) :
  keys_within A L data data.
Proof. split; intros k H; left; exact H. Qed.

Lemma keys_within_walk (args : list Descriptor) (node : xml_node) :
  Forall (fun d => forall data data' node,
            parse_subnode d data node = Ok data' ->
            keys_within (captured_attributes d) (captured_lists d) data data') args ->
  forall data data',
    foldM (fun data desc => parse_subnode desc data node) args data = Ok data' ->
    keys_within (flat_map captured_attributes args) (flat_map captured_lists args)
                data data'.
Proof.
  intros IH data data'.
  apply (foldM_invariant
           (fun x => keys_within (flat_map captured_attributes args)
                                 (flat_map captured_lists args) data x)).
  - apply keys_within_refl.
  - intros x d y Hin [Hxa Hxl] Hy.
    rewrite List.Forall_forall in IH. destruct (IH d Hin x y node Hy) as [Hya Hyl].
    apply list_elem_of_In in Hin.
    split; intros k Hk.
    + destruct (Hya k Hk) as [H|H]; [apply Hxa, H|].
      right. apply elem_of_flat_map. eauto.
    + destruct (Hyl k Hk) as [H|H]; [apply Hxl, H|].
      right. apply elem_of_flat_map. eauto.
Qed.

Lemma parse_subnode_keys (d : Descriptor) :
  forall (data data' : NodeData) (node : xml_node),
    parse_subnode d data node = Ok data' ->
    keys_within (captured_attributes d) (captured_lists d) data data'.
Proof.
  induction d as [|name args|args|name args IH|name node_args args IH]
    using Descriptor_nested_ind; intros data data' node H; cbn [parse_subnode] in H.
  - injection H as <-. apply keys_within_refl.
  - apply bind_Ok in H as (b & _ & H). injection H as <-.
    destruct b; [|apply keys_within_refl].
    split; cbn; intros k Hk; [|left; exact Hk].
    apply elem_of_dom in Hk. destruct (decide (name = k)) as [->|Hne].
    + right. left.
    + left. rewrite lookup_insert_ne in Hk by exact Hne. apply elem_of_dom, Hk.
  - apply bind_Ok in H as (b & _ & H). injection H as <-.
    destruct b; [|apply keys_within_refl].
    split; cbn; intros k Hk; left; exact Hk.
  - apply bind_Ok in H as (b & _ & H). destruct b.
    + apply keys_within_walk in H; [|exact IH]. exact H.
    + injection H as <-. apply keys_within_refl.
  - apply bind_Ok in H as (b & _ & H). destruct b.
    + apply bind_Ok in H as (subs & _ & H). injection H as <-.
      split; cbn; intros k Hk; [left; exact Hk|].
      apply elem_of_dom in Hk. destruct (decide (name = k)) as [->|Hne].
      * right. left.
      * left. rewrite lookup_insert_ne in Hk by exact Hne. apply elem_of_dom, Hk.
    + injection H as <-. apply keys_within_refl.
Qed.

(** ** Whether a round of [parse_subnodes] throws does not depend on the record *)

Lemma parse_subnodes_cons (d : Descriptor) (args : list Descriptor)
    (data : NodeData) (node : xml_node) :
  parse_subnodes data node (d :: args) =
    (data' <- parse_subnode d data node ;; parse_subnodes data' node args).
Proof. reflexivity. Qed.

Lemma walk_dichotomy (args : list Descriptor) (node : xml_node) :
  Forall (fun d => succeeds d node \/ exists e, throws d node e) args ->
  walk_succeeds args node \/ exists e, walk_throws args node e.
Proof.
  induction 1 as [|d args Hd _ IH].
  - left. intros data. exists data. reflexivity.
  - destruct Hd as [Hd|(e & Hd)].
    + destruct IH as [IH|(e & IH)].
      * left. intros data. destruct (Hd data) as (r & Hr).
        destruct (IH r) as (r' & Hr'). exists r'.
        rewrite parse_subnodes_cons, Hr. exact Hr'.
      * right. exists e. intros data. destruct (Hd data) as (r & Hr).
        rewrite parse_subnodes_cons, Hr. apply IH.
    + right. exists e. intros data. rewrite parse_subnodes_cons, Hd. reflexivity.
Qed.

Lemma mapM_dichotomy {A B} (f : B -> result A) (l : list B) :
  (exists r, mapM f l = Ok r) \/ exists e, mapM f l = Throw e.
Proof. destruct (mapM f l) as [r|e]; eauto. Qed.

Lemma parse_subnode_Node (name : string) (args : list Descriptor)
    (data : NodeData) (node : xml_node) :
  parse_subnode (Node name args) data node =
    (b <- Node_validate name args (Node_subnode name node) ;;
     if (b : bool) then Node_parse name args data (Node_subnode name node)
     else Ok data).
Proof. reflexivity. Qed.

Lemma parse_subnode_dichotomy (d : Descriptor) :
  forall node : xml_node, succeeds d node \/ exists e, throws d node e.
Proof.
  induction d as [|name args|args|name args IH|name node_args args IH]
    using Descriptor_nested_ind; intros node.
  - left. intros data. exists data. reflexivity.
  - destruct (Attribute_validate name args (Attribute_subnode name node))
      as [b|e] eqn:Hv.
    + left. intros data. cbn [parse_subnode]. rewrite Hv. eexists. reflexivity.
    + right. exists e. intros data. cbn [parse_subnode]. rewrite Hv. reflexivity.
  - destruct (Text_validate args (Text_subnode node)) as [b|e] eqn:Hv.
    + left. intros data. cbn [parse_subnode]. rewrite Hv. eexists. reflexivity.
    + right. exists e. intros data. cbn [parse_subnode]. rewrite Hv. reflexivity.
  - destruct (Node_validate name args (Node_subnode name node)) as [b|e] eqn:Hv.
    + destruct b.
      * assert (Hw : walk_succeeds args (Node_subnode name node)
                     \/ exists e, walk_throws args (Node_subnode name node) e).
        { apply walk_dichotomy. apply List.Forall_forall. intros d Hd.
          rewrite List.Forall_forall in IH. apply IH, Hd. }
        destruct Hw as [Hw|(e & Hw)].
        -- left. intros data. rewrite parse_subnode_Node, Hv. apply Hw.
        -- right. exists e. intros data. rewrite parse_subnode_Node, Hv. apply Hw.
      * left. intros data. rewrite parse_subnode_Node, Hv. eexists. reflexivity.
    + right. exists e. intros data. rewrite parse_subnode_Node, Hv. reflexivity.
  - destruct (mapM_dichotomy
                (fun c => Node_parse name node_args empty_NodeData (Some c))
                (NodeList_subnode name node)) as [(r & Hr)|(e & He)].
    + left. intros data. rewrite parse_subnode_NodeList. unfold NodeList_parse.
      rewrite Hr. eexists. reflexivity.
    + right. exists e. intros data. rewrite parse_subnode_NodeList.
      unfold NodeList_parse. rewrite He. reflexivity.
Qed.

Lemma succeeds_of_Ok (d : Descriptor) (data r : NodeData) (node : xml_node) :
  parse_subnode d data node = Ok r -> succeeds d node.
Proof.
  intros H. destruct (parse_subnode_dichotomy d node) as [Hs|(e & He)];
    [exact Hs|]. rewrite He in H. discriminate.
Qed.

Lemma walk_Ok_all (args : list Descriptor) (node : xml_node) :
  forall data r,
    parse_subnodes data node args = Ok r ->
    Forall (fun d => succeeds d node) args.
Proof.
  induction args as [|d args IH]; intros data r H; [constructor|].
  rewrite parse_subnodes_cons in H. apply bind_Ok in H as (data' & Hd & H).
  constructor; [exact (succeeds_of_Ok d data data' node Hd)|exact (IH data' r H)].
Qed.

(** ** Removing a required attribute *)

Lemma attributes_removed_refl (a : string) (n : xml_node_struct) :
  attributes_removed a n n.
Proof.
  revert n. fix IH 1. intros [nm attrs cs|v]; constructor; [left; reflexivity|].
  induction cs as [|c cs IHcs]; constructor; [apply IH|exact IHcs].
Qed.

Lemma Forall2_refl_all (a : string) (cs : list xml_node_struct) :
  Forall2 (attributes_removed a) cs cs.
Proof. induction cs; constructor; [apply attributes_removed_refl|assumption]. Qed.

Lemma attributes_removed_at (a : string) (path : list nat) :
  forall n, attributes_removed a n (remove_attribute_at path a n).
Proof.
  induction path as [|i path IH]; intros n; destruct n as [nm attrs cs|v];
    cbn [remove_attribute_at remove_attribute]; try constructor.
  - right. reflexivity.
  - apply Forall2_refl_all.
  - left. reflexivity.
  - revert i. induction cs as [|c cs IHcs]; intros i; [constructor|].
    destruct i as [|i]; cbn.
    + constructor; [apply IH|apply Forall2_refl_all].
    + constructor; [apply attributes_removed_refl|apply IHcs].
Qed.

Lemma attributes_removed_name (a : string) (n n' : xml_node_struct) :
  attributes_removed a n n' -> struct_name n' = struct_name n.
Proof. intros H. inversion H; reflexivity. Qed.

Lemma attributes_removed_is_text (a : string) (n n' : xml_node_struct) :
  attributes_removed a n n' -> is_text_node n' = is_text_node n.
Proof. intros H. inversion H; reflexivity. Qed.

Lemma find_filter_other (a b : string) (attrs : list xml_attribute_struct) :
  b <> a ->
  List.find (fun x => name_is b (attr_name x))
            (List.filter (fun x => negb (String.eqb a (attr_name x))) attrs)
  = List.find (fun x => name_is b (attr_name x)) attrs.
Proof.
  intros Hne. induction attrs as [|x attrs IH]; [reflexivity|]. cbn [List.filter].
  destruct (String.eqb_spec a (attr_name x)) as [Heq|Hneq]; cbn [negb List.find].
  - destruct (name_is b (attr_name x)) eqn:Hb; [|exact IH].
    apply name_is_true in Hb as [_ Hb]. congruence.
  - rewrite IH. reflexivity.
Qed.

Lemma find_filter_same (a : string) (attrs : list xml_attribute_struct) :
  List.find (fun x => name_is a (attr_name x))
            (List.filter (fun x => negb (String.eqb a (attr_name x))) attrs)
  = None.
Proof.
  induction attrs as [|x attrs IH]; [reflexivity|]. cbn [List.filter].
  destruct (String.eqb_spec a (attr_name x)) as [Heq|Hneq]; cbn [negb List.find].
  - exact IH.
  - destruct (name_is a (attr_name x)) eqn:Hb; [|exact IH].
    apply name_is_true in Hb as [_ Hb]. congruence.
Qed.

Lemma removed_attribute_other (a b : string) (node node' : xml_node) :
  removed_handle a node node' -> b <> a -> attribute node' b = attribute node b.
Proof.
  destruct node as [n|], node' as [n'|]; cbn [removed_handle]; try tauto.
  intros H Hne. inversion H as [v|nm attrs attrs' cs cs' Hattrs Hcs]; subst;
    [reflexivity|]. cbn [attribute struct_attributes].
  destruct Hattrs as [->| ->]; [reflexivity|]. apply find_filter_other, Hne.
Qed.

Lemma removed_text_children (a : string) (cs cs' : list xml_node_struct) :
  Forall2 (attributes_removed a) cs cs' ->
  List.find is_text_node cs' = List.find is_text_node cs.
Proof.
  induction 1 as [|x x' cs cs' Hx _ IH]; [reflexivity|].
  inversion Hx; subst; cbn [List.find is_text_node]; [reflexivity|exact IH].
Qed.

Lemma removed_text_data (a : string) (node node' : xml_node) :
  removed_handle a node node' -> text_data node' = text_data node.
Proof.
  destruct node as [n|], node' as [n'|]; cbn [removed_handle]; try tauto.
  intros H. inversion H as [v|nm attrs attrs' cs cs' Hattrs Hcs]; subst;
    [reflexivity|]. cbn [text_data is_text_node struct_children].
  exact (removed_text_children a cs cs' Hcs).
Qed.

Lemma removed_find_child (a m : string) (cs cs' : list xml_node_struct) :
  Forall2 (attributes_removed a) cs cs' ->
  removed_handle a (List.find (fun c => name_is m (struct_name c)) cs)
                   (List.find (fun c => name_is m (struct_name c)) cs').
Proof.
  induction 1 as [|x x' cs cs' Hx _ IH]; [exact I|]. cbn [List.find].
  rewrite (attributes_removed_name a x x' Hx).
  destruct (name_is m (struct_name x)); [exact Hx|exact IH].
Qed.

Lemma removed_filter_children (a m : string) (cs cs' : list xml_node_struct) :
  Forall2 (attributes_removed a) cs cs' ->
  Forall2 (attributes_removed a)
          (List.filter (fun c => name_is m (struct_name c)) cs)
          (List.filter (fun c => name_is m (struct_name c)) cs').
Proof.
  induction 1 as [|x x' cs cs' Hx _ IH]; [constructor|]. cbn [List.filter].
  rewrite (attributes_removed_name a x x' Hx).
  destruct (name_is m (struct_name x)); [constructor; assumption|exact IH].
Qed.

Lemma removed_child (a m : string) (node node' : xml_node) :
  removed_handle a node node' -> removed_handle a (child node m) (child node' m).
Proof.
  destruct node as [n|], node' as [n'|]; cbn [removed_handle]; try tauto.
  intros H. inversion H as [v|nm attrs attrs' cs cs' Hattrs Hcs]; subst;
    [exact I|]. apply removed_find_child, Hcs.
Qed.

Lemma removed_children (a m : string) (node node' : xml_node) :
  removed_handle a node node' ->
  Forall2 (attributes_removed a) (children node m) (children node' m).
Proof.
  destruct node as [n|], node' as [n'|]; cbn [removed_handle]; try tauto;
    [|constructor].
  intros H. inversion H as [v|nm attrs attrs' cs cs' Hattrs Hcs]; subst;
    [constructor|]. apply removed_filter_children, Hcs.
Qed.

Lemma mapM_throw_inv {A B} (f : B -> result A) (l : list B) (e : runtime_error) :
  mapM f l = Throw e -> exists b, In b l /\ f b = Throw e.
Proof.
  induction l as [|b l IH]; cbn [mapM]; [discriminate|]. intros H.
  apply bind_Throw in H as [H|(x & _ & H)].
  - exists b. split; [left; reflexivity|exact H].
  - apply bind_Throw in H as [H|(r & _ & H)]; [|discriminate].
    destruct (IH H) as (b' & Hin & Hb'). exists b'. split; [right; exact Hin|exact Hb'].
Qed.

Lemma mapM_Ok_all {A B} (f : B -> result A) (l : list B) (r : list A) :
  mapM f l = Ok r -> Forall2 (fun b a => f b = Ok a) l r.
Proof.
  revert r. induction l as [|b l IH]; cbn [mapM]; intros r H.
  - injection H as <-. constructor.
  - apply bind_Ok in H as (x & Hx & H). apply bind_Ok in H as (r' & Hr' & H).
    injection H as <-. constructor; [exact Hx|exact (IH r' Hr')].
Qed.

Lemma Forall2_In_r {A B} (P : A -> B -> Prop) (l : list A) (k : list B) (y : B) :
  Forall2 P l k -> In y k -> exists x, In x l /\ P x y.
Proof.
  induction 1 as [|x y' l k Hxy _ IH]; intros Hin; [destruct Hin|].
  destruct Hin as [->|Hin].
  - exists x. split; [left; reflexivity|exact Hxy].
  - destruct (IH Hin) as (x' & Hx' & HP). exists x'. split; [right; exact Hx'|exact HP].
Qed.

Lemma Forall2_In_l {A B} (P : A -> B -> Prop) (l : list A) (k : list B) (x : A) :
  Forall2 P l k -> In x l -> exists y, In y k /\ P x y.
Proof.
  induction 1 as [|x' y l k Hxy _ IH]; intros Hin; [destruct Hin|].
  destruct Hin as [->|Hin].
  - exists y. split; [left; reflexivity|exact Hxy].
  - destruct (IH Hin) as (y' & Hy' & HP). exists y'. split; [right; exact Hy'|exact HP].
Qed.

Lemma walk_succeeds_of_Node_parse (name : string) (args : list Descriptor)
    (data r : NodeData) (node : xml_node) :
  Node_parse name args data node = Ok r ->
  Forall (fun d => succeeds d node) args.
Proof. unfold Node_parse. apply walk_Ok_all. Qed.

(** After the removal of attributes named [a], a descriptor that did not
    throw can only throw [MissingRequiredAttribute a]. *)
Lemma parse_subnode_removed (a : string) (d : Descriptor) :
  forall (node node' : xml_node),
    removed_handle a node node' ->
    succeeds d node ->
    forall data e, parse_subnode d data node' = Throw e ->
                   e = MissingRequiredAttribute a.
Proof.
  induction d as [|name args|args|name args IH|name node_args args IH]
    using Descriptor_nested_ind; intros node node' HR Hs data e H.
  - discriminate.
  - destruct (Hs data) as (r & Hr). cbn [parse_subnode] in H, Hr.
    apply bind_Throw in H as [H|(b & _ & H)]; [|discriminate].
    apply bind_Ok in Hr as (b & Hb & _).
    unfold Attribute_validate, Attribute_subnode in H, Hb.
    destruct (attribute node' name) eqn:Hn'; [discriminate|].
    destruct (is_required args); [|discriminate]. injection H as <-.
    destruct (decide (name = a)) as [->|Hne]; [reflexivity|].
    rewrite <- (removed_attribute_other a name node node' HR Hne), Hn' in Hb.
    discriminate.
  - destruct (Hs data) as (r & Hr). cbn [parse_subnode] in H, Hr.
    apply bind_Throw in H as [H|(b & _ & H)]; [|discriminate].
    apply bind_Ok in Hr as (b & Hb & _).
    unfold Text_validate, Text_subnode, text, text_empty in H, Hb.
    rewrite (removed_text_data a node node' HR) in H. congruence.
  - destruct (Hs data) as (r & Hr). rewrite parse_subnode_Node in H, Hr.
    pose proof (removed_child a name node node' HR) as HRc.
    unfold Node_subnode in H, Hr.
    destruct (child node name) as [c|] eqn:Hc, (child node' name) as [c'|] eqn:Hc';
      cbn [removed_handle] in HRc; try tauto.
    + rewrite Node_validate_present in H, Hr.
      rewrite (attributes_removed_name a c c' HRc) in H.
      destruct (String.eqb name (struct_name c)); cbn [bind] in H, Hr;
        [|discriminate].
      apply walk_succeeds_of_Node_parse in Hr.
      unfold Node_parse, parse_subnodes in H.
      apply foldM_throw_inv in H as (d & x & Hin & H).
      rewrite List.Forall_forall in IH, Hr.
      exact (IH d Hin (Some c) (Some c') HRc (Hr d Hin) x e H).
    + cbn [Node_validate] in H, Hr. destruct (is_required args); cbn [bind] in H, Hr;
        discriminate.
  - destruct (Hs data) as (r & Hr). rewrite parse_subnode_NodeList in H, Hr.
    pose proof (removed_children a name node node' HR) as HRc.
    unfold NodeList_parse, NodeList_subnode in H, Hr.
    apply bind_Throw in H as [H|(subs & _ & H)]; [|discriminate].
    apply bind_Ok in Hr as (subs & Hsubs & _).
    apply mapM_throw_inv in H as (c' & Hin' & H).
    apply mapM_Ok_all in Hsubs.
    destruct (Forall2_In_r _ _ _ _ HRc Hin') as (c & Hin & Hcc').
    destruct (Forall2_In_l _ _ _ _ Hsubs Hin) as (sub & _ & Hsub).
    apply walk_succeeds_of_Node_parse in Hsub.
    unfold Node_parse, parse_subnodes in H.
    apply foldM_throw_inv in H as (d & x & Hind & H).
    rewrite List.Forall_forall in IH, Hsub.
    exact (IH d Hind (Some c) (Some c') Hcc' (Hsub d Hind) x e H).
Qed.

Lemma walk_throws_some (args : list Descriptor) (node : xml_node)
    (err : runtime_error) :
  (exists d, In d args /\ throws d node err) ->
  (forall d, In d args ->
             forall data e, parse_subnode d data node = Throw e -> e = err) ->
  walk_throws args node err.
Proof.
  induction args as [|d args IH]; intros (d0 & Hin & Hd0) Hall data.
  - destruct Hin.
  - rewrite parse_subnodes_cons.
    destruct (parse_subnode d data node) as [data'|e] eqn:Hd; cbn [bind].
    + apply IH.
      * destruct Hin as [->|Hin]; [rewrite Hd0 in Hd; discriminate|].
        exists d0. split; assumption.
      * intros d' Hd'. apply Hall. right. exact Hd'.
    + f_equal. exact (Hall d (or_introl eq_refl) data e Hd).
Qed.

Lemma alter_middle {A} (f : A -> A) (l1 l2 : list A) (x : A) :
  alter f (length l1) (l1 ++ x :: l2) = l1 ++ f x :: l2.
Proof. induction l1 as [|y l1 IH]; cbn; [reflexivity|]. f_equal. exact IH. Qed.

Lemma find_app_skip {A} (p : A -> bool) (l1 l2 : list A) (x : A) :
  Forall (fun y => p y = false) l1 -> p x = true ->
  List.find p (l1 ++ x :: l2) = Some x.
Proof.
  induction 1 as [|y l1 Hy _ IH]; intros Hx; cbn [app List.find].
  - rewrite Hx. reflexivity.
  - rewrite Hy. exact (IH Hx).
Qed.

Lemma mapM_Ok_each {A B} (f : B -> result A) (l : list B) (r : list A) :
  mapM f l = Ok r -> Forall (fun b => exists a, f b = Ok a) l.
Proof.
  intros H. apply mapM_Ok_all in H.
  induction H as [|b a l r Hb _ IH]; constructor; eauto.
Qed.

Lemma remove_attribute_at_name (a : string) (path : list nat) (n : xml_node_struct) :
  struct_name (remove_attribute_at path a n) = struct_name n.
Proof. apply (attributes_removed_name a), attributes_removed_at. Qed.

(** The walk over the descriptors that declare [a] required throws once
    the attribute is gone. *)
Lemma remove_required_throws (a : string) (args : list Descriptor)
    (e : xml_node_struct) (path : list nat) :
  declared_required a args e path ->
  Forall (fun d => succeeds d (Some e)) args ->
  walk_throws args (Some (remove_attribute_at path a e))
              (MissingRequiredAttribute a).
Proof.
  intros Hdecl.
  induction Hdecl
    as [args attr_args nm attrs cs Hin Hreq
       |args m node_args list_args nm attrs cs1 c cs2 path Hin Hm Hdecl IH
       |args m node_args nm attrs cs1 c cs2 path Hin Hm Hfirst Hdecl IH];
    intros Hs; rewrite List.Forall_forall in Hs.
  - apply walk_throws_some.
    + exists (Attribute a attr_args). split; [exact Hin|]. intros data.
      cbn [parse_subnode remove_attribute_at remove_attribute].
      unfold Attribute_subnode. cbn [attribute struct_attributes].
      rewrite find_filter_same. cbn [Attribute_validate]. rewrite Hreq. reflexivity.
    + intros d Hd. apply (parse_subnode_removed a d (Some (node_element nm attrs cs))).
      * apply (attributes_removed_at a []).
      * apply Hs, Hd.
  - set (e := node_element nm attrs (cs1 ++ c :: cs2)) in *.
    set (c' := remove_attribute_at path a c).
    assert (He' : remove_attribute_at (length cs1 :: path) a e
                  = node_element nm attrs (cs1 ++ c' :: cs2)).
    { cbn [remove_attribute_at e]. rewrite alter_middle. reflexivity. }
    assert (Hm' : name_is m (struct_name c') = true).
    { unfold c'. rewrite remove_attribute_at_name. exact Hm. }
    apply walk_throws_some.
    + exists (NodeList m node_args list_args). split; [exact Hin|]. intros data.
      destruct (Hs _ Hin data) as (r & Hr).
      rewrite parse_subnode_NodeList in Hr |- *. rewrite He'.
      unfold NodeList_parse, NodeList_subnode in Hr |- *.
      cbn [children struct_children e] in Hr |- *.
      rewrite List.filter_app in Hr |- *. cbn [List.filter] in Hr |- *.
      rewrite Hm in Hr. rewrite Hm'.
      apply bind_Ok in Hr as (subs & Hsubs & _).
      apply mapM_Ok_each in Hsubs. apply List.Forall_app in Hsubs as [H1 H2].
      inversion H2 as [|x l (sub & Hsub) _]; subst.
      rewrite (mapM_throw _ _ _ c' (MissingRequiredAttribute a) H1); [reflexivity|].
      apply walk_succeeds_of_Node_parse in Hsub.
      unfold Node_parse. apply (IH Hsub).
    + intros d Hd. apply (parse_subnode_removed a d (Some e)).
      * apply (attributes_removed_at a (length cs1 :: path)).
      * apply Hs, Hd.
  - set (e := node_element nm attrs (cs1 ++ c :: cs2)) in *.
    set (c' := remove_attribute_at path a c).
    assert (He' : remove_attribute_at (length cs1 :: path) a e
                  = node_element nm attrs (cs1 ++ c' :: cs2)).
    { cbn [remove_attribute_at e]. rewrite alter_middle. reflexivity. }
    assert (Hm' : name_is m (struct_name c') = true).
    { unfold c'. rewrite remove_attribute_at_name. exact Hm. }
    apply walk_throws_some.
    + exists (Node m node_args). split; [exact Hin|]. intros data.
      destruct (Hs _ Hin data) as (r & Hr).
      rewrite parse_subnode_Node in Hr |- *. rewrite He'.
      unfold Node_subnode in Hr |- *. cbn [child struct_children e] in Hr |- *.
      rewrite (find_app_skip _ cs1 cs2 c Hfirst Hm) in Hr.
      rewrite (find_app_skip _ cs1 cs2 c' Hfirst Hm').
      rewrite (Node_validate_named m node_args c Hm) in Hr.
      rewrite (Node_validate_named m node_args c' Hm'). cbn [bind] in Hr |- *.
      apply walk_succeeds_of_Node_parse in Hr.
      unfold Node_parse. apply (IH Hr).
    + intros d Hd. apply (parse_subnode_removed a d (Some e)).
      * apply (attributes_removed_at a (length cs1 :: path)).
      * apply Hs, Hd.
Qed.

Lemma declared_required_element (a : string) (args : list Descriptor)
    (e : xml_node_struct) (path : list nat) :
  declared_required a args e path -> is_element e = true.
Proof. intros H. inversion H; reflexivity. Qed.

Lemma remove_attribute_at_element (a : string) (path : list nat)
    (e : xml_node_struct) :
  is_element (remove_attribute_at path a e) = is_element e.
Proof.
  pose proof (attributes_removed_at a path e) as H. inversion H; reflexivity.
Qed.

Lemma parse_document_removed (a name : string) (args : list Descriptor)
    (e : xml_node_struct) (rest : xml_document) (path : list nat) (r : NodeData) :
  declared_required a args e path ->
  parse_document (e :: rest) name args = Ok r ->
  parse_document (remove_attribute_at path a e :: rest) name args
    = Throw (MissingRequiredAttribute a).
Proof.
  intros Hdecl H. unfold parse_document, document_element in H |- *.
  cbn [List.find] in H |- *.
  rewrite remove_attribute_at_element.
  rewrite (declared_required_element a args e path Hdecl) in H |- *.
  rewrite Node_validate_present in H |- *. rewrite remove_attribute_at_name.
  destruct (String.eqb name (struct_name e)); cbn [bind] in H |- *; [|discriminate].
  apply walk_succeeds_of_Node_parse in H.
  unfold Node_parse. apply (remove_required_throws a args e path Hdecl H).
Qed.

(** C4. Take a document that [parse] accepts and an element of it that
    is parsed against descriptors among which an [Attribute] named [a] is
    declared [Required] (the document element, or an element reached
    through lists and nested nodes).  The document without the attributes
    named [a] of that element makes [parse] throw
    [MissingRequiredAttribute a].  With the schema of [main], [<root/>]
    fails with [MissingRequiredAttribute "key"]. *)
Theorem required_attribute_enforced :
  (forall (s s' a name : string) (args : list Descriptor) (e : xml_node_struct)
          (rest : xml_document) (path : list nat) (r : NodeData),
      snd (load_buffer s) = e :: rest ->
      declared_required a args e path ->
      parse s name args = Ok r ->
      snd (load_buffer s') = remove_attribute_at path a e :: rest ->
      parse s' name args = Throw (MissingRequiredAttribute a))
  /\ parse scenario2 xml_name xml_args = Throw (MissingRequiredAttribute "key").
Proof.
  split.
  - intros s s' a name args e rest path r Hs Hdecl H Hs'. unfold parse in H |- *.
    rewrite Hs in H. rewrite Hs'.
    exact (parse_document_removed a name args e rest path r Hdecl H).
  - vm_compute. reflexivity.
Qed.

(** [scenario2] is [scenario3] without the attribute [key]. *)
Lemma required_attribute_enforced_witness :
  parse example2 xml_name xml_args = Throw (MissingRequiredAttribute "key").
Proof.
  apply (proj1 required_attribute_enforced example3 example2 "key" xml_name xml_args
           (node_element "root" [mk_attribute "key" "mykey"] []) [] []
           (mkNodeData "root" "" {[ "data" := [] ]} {[ "key" := of_c_str "mykey" ]})).
  - vm_compute. reflexivity.
  - apply (required_here "key" xml_args [Required]); [|reflexivity].
    right. left. reflexivity.
  - vm_compute. reflexivity.
  - vm_compute. reflexivity.
Defined.

(** The same inside a list: the second [data] of [example5] without its
    [id]. *)
Example required_attribute_in_list :
  parse ("<root key=" +:+ quoted "mykey" +:+ "><data id=" +:+ quoted "1"
         +:+ ">D1</data><data>D2</data></root>") xml_name xml_args
    = Throw (MissingRequiredAttribute "id").
Proof.
  unfold parse.
  replace (snd (load_buffer _))
    with (remove_attribute_at [1]%nat "id" example5_root :: [])
    by (vm_compute; reflexivity).
  eapply parse_document_removed.
  - apply (required_in_list "id" xml_args "data"
             [Attribute "id" [Required]; Text [Required]] [] "root" _
             [node_element "data" [mk_attribute "id" "1"] [node_pcdata "D1"]]
             (node_element "data" [mk_attribute "id" "2"] [node_pcdata "D2"]) []).
    + right. right. right. left. reflexivity.
    + reflexivity.
    + apply (required_here "id" _ [Required]); [left; reflexivity|reflexivity].
  - vm_compute. reflexivity.
Qed.

(** ** What a walk without nested nodes stores *)

Lemma NodeData_eq (r r' : NodeData) :
  nd_name r = nd_name r' ->
  nd_text r = nd_text r' ->
  (forall k, nd_attributes r !! k = nd_attributes r' !! k) ->
  (forall m, nd_subnodes r !! m = nd_subnodes r' !! m) ->
  r = r'.
Proof.
  destruct r as [n t s a], r' as [n' t' s' a']. cbn. intros -> -> Ha Hs.
  f_equal; apply map_eq; assumption.
Qed.

Lemma parse_subnode_plain_inv (d : Descriptor) (data data' : NodeData)
    (node : xml_node) :
  parse_subnode d data node = Ok data' ->
  match d with
  | Required => data' = data
  | Attribute k _ =>
      data' = match attribute node k with
              | Some x => set_attribute k (attr_value x) data
              | None => data
              end
  | Text _ =>
      data' = if text_empty node then data
              else set_text (text_as_string node) data
  | NodeList m node_args _ =>
      exists recs, parse_children m node_args node = Ok recs
                   /\ data' = append_subnodes m recs data
  | Node _ _ => True
  end.
Proof.
  destruct d as [|k ar|ar|m sub|m sub la]; intros H.
  - cbn in H. congruence.
  - cbn [parse_subnode] in H. apply bind_Ok in H as (b & Hb & H).
    unfold Attribute_validate, Attribute_subnode, Attribute_parse in *.
    destruct (attribute node k) as [x|].
    + injection Hb as <-. cbn in H. congruence.
    + destruct (is_required ar); [discriminate|]. injection Hb as <-. congruence.
  - cbn [parse_subnode] in H. apply bind_Ok in H as (b & Hb & H).
    unfold Text_validate, Text_subnode, Text_parse, text in *.
    destruct (text_empty node).
    + destruct (is_required ar); [discriminate|]. injection Hb as <-. congruence.
    + injection Hb as <-. congruence.
  - exact I.
  - rewrite parse_subnode_NodeList in H. unfold NodeList_parse in H.
    apply bind_Ok in H as (recs & Hrecs & H). exists recs.
    split; [exact Hrecs|congruence].
Qed.

Lemma no_nested_node_cons (d : Descriptor) (args : list Descriptor) :
  no_nested_node (d :: args) = true ->
  is_Node d = false /\ no_nested_node args = true.
Proof.
  unfold no_nested_node. cbn [forallb]. rewrite andb_true_iff, negb_true_iff. tauto.
Qed.

Lemma no_nested_node_app (args1 args2 : list Descriptor) :
  no_nested_node (args1 ++ args2) = true ->
  no_nested_node args1 = true /\ no_nested_node args2 = true.
Proof. unfold no_nested_node. rewrite forallb_app, andb_true_iff. tauto. Qed.

(** The name. *)
Lemma walk_name (args : list Descriptor) (node : xml_node) :
  no_nested_node args = true ->
  forall data r,
    parse_subnodes data node args = Ok r -> nd_name r = nd_name data.
Proof.
  induction args as [|d args IH]; intros Hn data r H.
  - cbn in H. congruence.
  - apply no_nested_node_cons in Hn as [Hd Hn].
    rewrite parse_subnodes_cons in H. apply bind_Ok in H as (data' & Hd' & H).
    rewrite (IH Hn data' r H). apply parse_subnode_plain_inv in Hd'.
    destruct d as [|k ar|ar|m sub|m sub la]; try discriminate;
      cbv beta iota in Hd'.
    + subst data'. reflexivity.
    + subst data'. destruct (attribute node k); reflexivity.
    + subst data'. destruct (text_empty node); reflexivity.
    + destruct Hd' as (recs & _ & ->). reflexivity.
Qed.

(** The text. *)
Lemma walk_text (args : list Descriptor) (node : xml_node) :
  no_nested_node args = true ->
  forall data r,
    parse_subnodes data node args = Ok r ->
    nd_text r = if has_text args && negb (text_empty node)
                then text_as_string node else nd_text data.
Proof.
  induction args as [|d args IH]; intros Hn data r H.
  - cbn in H. injection H as <-. reflexivity.
  - apply no_nested_node_cons in Hn as [Hd Hn].
    rewrite parse_subnodes_cons in H. apply bind_Ok in H as (data' & Hd' & H).
    rewrite (IH Hn data' r H). apply parse_subnode_plain_inv in Hd'.
    unfold has_text. cbn [existsb]. fold (has_text args).
    destruct d as [|k ar|ar|m sub|m sub la]; try discriminate;
      cbv beta iota in Hd'; cbn [is_Text orb].
    + subst data'. reflexivity.
    + subst data'. destruct (attribute node k); reflexivity.
    + subst data'. destruct (text_empty node); cbn [negb andb].
      * rewrite andb_false_r. reflexivity.
      * rewrite andb_true_r. destruct (has_text args); reflexivity.
    + destruct Hd' as (recs & _ & ->). reflexivity.
Qed.

(** The attributes. *)
Lemma walk_attributes (args : list Descriptor) (node : xml_node) :
  no_nested_node args = true ->
  forall data r,
    parse_subnodes data node args = Ok r ->
    forall k,
      nd_attributes r !! k =
        if decide (k ∈ attribute_names args) then
          match attribute node k with
          | Some x => Some (of_c_str (attr_value x))
          | None => nd_attributes data !! k
          end
        else nd_attributes data !! k.
Proof.
  induction args as [|d args IH]; intros Hn data r H k.
  - cbn in H. injection H as <-. cbn.
    destruct (decide (k ∈ [])) as [Hin|_]; [inversion Hin|reflexivity].
  - apply no_nested_node_cons in Hn as [Hd Hn].
    rewrite parse_subnodes_cons in H. apply bind_Ok in H as (data' & Hd' & H).
    rewrite (IH Hn data' r H k). apply parse_subnode_plain_inv in Hd'.
    unfold attribute_names. cbn [flat_map]. fold (attribute_names args).
    destruct d as [|k' ar|ar|m sub|m sub la]; try discriminate;
      cbv beta iota in Hd'; cbn [captured_attributes app].
    + subst data'. reflexivity.
    + destruct (decide (k = k')) as [->|Hne].
      * rewrite (decide_True (P := k' ∈ k' :: attribute_names args))
          by (left).
        subst data'. destruct (attribute node k') as [x|] eqn:Hx.
        -- destruct (decide (k' ∈ attribute_names args)); [reflexivity|].
           cbn. apply lookup_insert_eq.
        -- destruct (decide (k' ∈ attribute_names args)); reflexivity.
      * assert (Hsame : nd_attributes data' !! k = nd_attributes data !! k).
        { subst data'. destruct (attribute node k'); [|reflexivity].
          cbn. apply lookup_insert_ne. congruence. }
        rewrite Hsame.
        destruct (decide (k ∈ attribute_names args)) as [Hin|Hnin].
        -- rewrite decide_True by (right; exact Hin). reflexivity.
        -- rewrite decide_False; [reflexivity|]. set_solver.
    + subst data'. destruct (text_empty node); reflexivity.
    + destruct Hd' as (recs & _ & ->). reflexivity.
Qed.

(** The lists no descriptor names. *)
Lemma walk_subnodes_other (args : list Descriptor) (node : xml_node) (m : string) :
  no_nested_node args = true ->
  m ∉ list_names args ->
  forall data r,
    parse_subnodes data node args = Ok r ->
    nd_subnodes r !! m = nd_subnodes data !! m.
Proof.
  induction args as [|d args IH]; intros Hn Hm data r H.
  - cbn in H. congruence.
  - apply no_nested_node_cons in Hn as [Hd Hn].
    rewrite parse_subnodes_cons in H. apply bind_Ok in H as (data' & Hd' & H).
    unfold list_names in Hm. cbn [flat_map] in Hm. fold (list_names args) in Hm.
    rewrite (IH Hn) with (data := data') (r := r); [|set_solver|exact H].
    apply parse_subnode_plain_inv in Hd'.
    destruct d as [|k ar|ar|m' sub|m' sub la]; try discriminate;
      cbv beta iota in Hd'.
    + subst data'. reflexivity.
    + subst data'. destruct (attribute node k); reflexivity.
    + subst data'. destruct (text_empty node); reflexivity.
    + destruct Hd' as (recs & _ & ->). cbn. apply lookup_insert_ne.
      cbn in Hm. set_solver.
Qed.

Lemma parse_subnodes_app (args1 args2 : list Descriptor) (data : NodeData)
    (node : xml_node) :
  parse_subnodes data node (args1 ++ args2) =
    (data' <- parse_subnodes data node args1 ;; parse_subnodes data' node args2).
Proof. apply foldM_app. Qed.

(** The list that exactly one descriptor names. *)
Lemma walk_subnodes_list (pre post : list Descriptor) (m : string)
    (node_args list_args : list Descriptor) (node : xml_node) :
  no_nested_node (pre ++ NodeList m node_args list_args :: post) = true ->
  m ∉ list_names pre ->
  m ∉ list_names post ->
  forall data r,
    parse_subnodes data node (pre ++ NodeList m node_args list_args :: post) = Ok r ->
    exists recs,
      parse_children m node_args node = Ok recs
      /\ nd_subnodes r !! m = Some (default [] (nd_subnodes data !! m) ++ recs).
Proof.
  intros Hn Hpre Hpost data r H.
  apply no_nested_node_app in Hn as [Hn1 Hn2].
  apply no_nested_node_cons in Hn2 as [_ Hn2].
  rewrite parse_subnodes_app in H. apply bind_Ok in H as (data1 & H1 & H).
  rewrite parse_subnodes_cons in H. apply bind_Ok in H as (data2 & Hd & H).
  apply parse_subnode_plain_inv in Hd as (recs & Hrecs & ->).
  exists recs. split; [exact Hrecs|].
  rewrite (walk_subnodes_other post node m Hn2 Hpost _ r H).
  cbn. rewrite lookup_insert_eq.
  rewrite (walk_subnodes_other pre node m Hn1 Hpre data data1 H1). reflexivity.
Qed.

(** ** Only declared names are captured, in the records of the lists too *)

Lemma keys_declared_mono (A A' L L' : list string) (c : NodeData) :
  (forall k, k ∈ A -> k ∈ A') ->
  (forall k, k ∈ L -> k ∈ L') ->
  keys_declared A L c -> keys_declared A' L' c.
Proof. intros HA HL [Ha Hl]. split; intros k Hk; auto. Qed.

Lemma new_records_walk (args : list Descriptor) (node : xml_node) :
  Forall (fun d => forall data data' node,
            parse_subnode d data node = Ok data' ->
            new_records_declared (declared_attributes d) (declared_lists d)
                                 data data') args ->
  forall data data',
    parse_subnodes data node args = Ok data' ->
    new_records_declared (flat_map declared_attributes args)
                         (flat_map declared_lists args) data data'.
Proof.
  induction 1 as [|d args Hd _ IH]; intros data data' H.
  - cbn in H. injection H as <-. intros m recs' c Hm Hc. left. eauto.
  - rewrite parse_subnodes_cons in H. apply bind_Ok in H as (data1 & H1 & H).
    intros m recs' c Hm Hc.
    destruct (IH data1 data' H m recs' c Hm Hc) as [(recs1 & Hm1 & Hc1)|Hnew].
    + destruct (Hd data data1 node H1 m recs1 c Hm1 Hc1) as [Hold|Hnew];
        [left; exact Hold|].
      right. intros c' Hc'. apply (keys_declared_mono _ _ _ _ _) with (3 := Hnew c' Hc');
        intros k Hk; cbn [flat_map]; apply elem_of_app; left; exact Hk.
    + right. intros c' Hc'. apply (keys_declared_mono _ _ _ _ _) with (3 := Hnew c' Hc');
        intros k Hk; cbn [flat_map]; apply elem_of_app; right; exact Hk.
Qed.

Lemma walk_keys_declared (name : string) (args : list Descriptor) (node : xml_node)
    (c : NodeData) :
  parse_subnodes (set_name name empty_NodeData) node args = Ok c ->
  keys_declared (flat_map declared_attributes args) (flat_map declared_lists args) c.
Proof.
  intros H. unfold parse_subnodes in H. apply keys_within_walk in H.
  - destruct H as [Ha Hl]. split; intros k Hk.
    + destruct (Ha k Hk) as [H|H].
      * cbn in H. rewrite dom_empty_L in H. inversion H.
      * apply elem_of_flat_map in H as (d & Hd & H). apply elem_of_flat_map.
        exists d. split; [exact Hd|]. apply captured_attributes_declared, H.
    + destruct (Hl k Hk) as [H|H].
      * cbn in H. rewrite dom_empty_L in H. inversion H.
      * apply elem_of_flat_map in H as (d & Hd & H). apply elem_of_flat_map.
        exists d. split; [exact Hd|]. apply captured_lists_declared, H.
  - apply List.Forall_forall. intros d _. apply parse_subnode_keys.
Qed.

Lemma parse_subnode_new_records (d : Descriptor) :
  forall (data data' : NodeData) (node : xml_node),
    parse_subnode d data node = Ok data' ->
    new_records_declared (declared_attributes d) (declared_lists d) data data'.
Proof.
  induction d as [|k ar|ar|name args IH|name node_args args IH]
    using Descriptor_nested_ind; intros data data' node H.
  - cbn in H. injection H as <-. intros m recs' c Hm Hc. left. eauto.
  - apply parse_subnode_plain_inv in H. cbv beta iota in H. subst data'.
    intros m recs' c Hm Hc. left. destruct (attribute node k); eauto.
  - apply parse_subnode_plain_inv in H. cbv beta iota in H. subst data'.
    intros m recs' c Hm Hc. left. destruct (text_empty node); eauto.
  - rewrite parse_subnode_Node in H. apply bind_Ok in H as (b & _ & H).
    destruct b.
    + unfold Node_parse in H.
      exact (new_records_walk args _ IH (set_name name data) data' H).
    + injection H as <-. intros m recs' c Hm Hc. left. eauto.
  - apply parse_subnode_plain_inv in H as (recs & Hrecs & ->).
    intros m recs' c Hm Hc. cbn [append_subnodes nd_subnodes] in Hm.
    destruct (decide (name = m)) as [<-|Hne].
    + rewrite lookup_insert_eq in Hm. injection Hm as <-.
      apply in_app_or in Hc as [Hc|Hc].
      * left. destruct (nd_subnodes data !! name) as [old|]; [eauto|destruct Hc].
      * right. unfold parse_children in Hrecs. apply mapM_Ok_all in Hrecs.
        destruct (Forall2_In_r _ _ _ c Hrecs Hc) as (x & _ & Hx).
        unfold Node_parse in Hx.
        pose proof (walk_keys_declared name node_args (Some x) c Hx) as Hkeys.
        pose proof (new_records_walk node_args _ IH _ c Hx) as Hbelow.
        assert (Hmono : forall c0,
                   keys_declared (flat_map declared_attributes node_args)
                                 (flat_map declared_lists node_args) c0 ->
                   keys_declared (declared_attributes (NodeList name node_args args))
                                 (declared_lists (NodeList name node_args args)) c0).
        { intros c0. apply keys_declared_mono; intros k0 Hk0; cbn;
            [exact Hk0|right; exact Hk0]. }
        intros c' Hc'. inversion Hc' as [|c1 c2 r1 m1 recs1 Hm1 Hin1 Hst1]; subst.
        -- apply Hmono, Hkeys.
        -- destruct (Hbelow m1 recs1 c2 Hm1 Hin1) as [(recs0 & H0 & _)|Hnew].
           ++ cbn in H0. rewrite lookup_empty in H0. discriminate.
           ++ apply Hmono, Hnew, Hst1.
    + rewrite lookup_insert_ne in Hm by exact Hne. left. eauto.
Qed.

(** C2. Whenever [parse] returns a record, every key of its [attributes]
    is the name of an [Attribute] descriptor of the schema and every key of
    its [subnodes] is the inner node name of a [NodeList] descriptor of the
    schema, and the same holds of every record of its lists, and of the
    records of their lists: a name that only the document has is never a
    key. *)
Theorem declared_names_only :
  forall (s name : string) (args : list Descriptor) (r c : NodeData),
    parse s name args = Ok r ->
    stored_in c r ->
    (forall k, k ∈ dom (nd_attributes c) ->
               k ∈ declared_attributes (Node name args))
    /\ (forall k, k ∈ dom (nd_subnodes c) ->
                  k ∈ declared_lists (Node name args)).
Proof.
  intros s name args r c H Hc. unfold parse, parse_document in H.
  apply bind_Ok in H as (b & _ & H). unfold Node_parse in H.
  change (keys_declared (flat_map declared_attributes args)
                        (flat_map declared_lists args) c).
  inversion Hc as [|c1 c2 r1 m1 recs1 Hm1 Hin1 Hst1]; subst.
  - exact (walk_keys_declared name args _ _ H).
  - assert (Hall : Forall (fun d => forall data data' node,
                      parse_subnode d data node = Ok data' ->
                      new_records_declared (declared_attributes d) (declared_lists d)
                                           data data') args).
    { apply List.Forall_forall. intros d _. apply parse_subnode_new_records. }
    destruct (new_records_walk args _ Hall _ _ H m1 recs1 c2 Hm1 Hin1)
      as [(recs0 & H0 & _)|Hnew].
    + cbn in H0. rewrite lookup_empty in H0. discriminate.
    + exact (Hnew _ Hst1).
Qed.

Lemma declared_names_only_witness :
  exists r c : NodeData,
    parse undeclared_document xml_name xml_args = Ok r
    /\ nd_subnodes r !! "data" = Some [c]
    /\ attribute_as_string
         (attribute (document_element (snd (load_buffer undeclared_document)))
                    "color") = "red"
    /\ ("color" ∉ dom (nd_attributes r))
    /\ ("other" ∉ dom (nd_subnodes r))
    /\ ("secret" ∉ dom (nd_attributes c))
    /\ ("extra" ∉ dom (nd_subnodes c)).
Proof.
  destruct (parse undeclared_document xml_name xml_args) as [r|e] eqn:H;
    [|vm_compute in H; discriminate].
  assert (Hc : exists c, nd_subnodes r !! "data" = Some [c]).
  { vm_compute in H. injection H as <-. eexists. vm_compute. reflexivity. }
  destruct Hc as (c & Hc). exists r, c.
  split; [reflexivity|]. split; [exact Hc|]. split; [vm_compute; reflexivity|].
  destruct (declared_names_only undeclared_document xml_name xml_args r r H
              (stored_here r)) as [Ha Hl].
  destruct (declared_names_only undeclared_document xml_name xml_args r c H
              (stored_below c c r "data" [c] Hc (or_introl eq_refl) (stored_here c)))
    as [Ha' Hl'].
  assert (HA : forall k, k ∈ declared_attributes (Node xml_name xml_args) ->
                         k = "key" \/ k = "client_id" \/ k = "id").
  { intros k Hk. apply list_elem_of_In in Hk. cbn in Hk.
    destruct Hk as [Hk|[Hk|[Hk|[]]]]; auto. }
  assert (HL : forall k, k ∈ declared_lists (Node xml_name xml_args) -> k = "data").
  { intros k Hk. apply list_elem_of_In in Hk. cbn in Hk.
    destruct Hk as [Hk|[]]; auto. }
  split; [intros Hk; apply Ha, HA in Hk; destruct Hk as [Hk|[Hk|Hk]]; discriminate Hk|].
  split; [intros Hk; apply Hl, HL in Hk; discriminate Hk|].
  split; [intros Hk; apply Ha', HA in Hk; destruct Hk as [Hk|[Hk|Hk]]; discriminate Hk|].
  intros Hk. apply Hl', HL in Hk. discriminate Hk.
Defined.

(** ** What a walk without nested nodes writes *)

Lemma Node_serialize_build (name : string) (args : list Descriptor)
    (parent : xml_node_struct) (data : NodeData) :
  Node_serialize name args parent data =
    (node <- Node_build name args data ;; Ok (append_child_struct parent node)).
Proof.
  unfold Node_serialize, Node_build.
  destruct (serialize_subnodes (new_element (c_str (nd_name data))) data args) as [n|e];
    cbn [bind]; [|reflexivity].
  destruct (Node_validate name args (Some n)); reflexivity.
Qed.

Lemma append_child_element (nm : string) (a : list xml_attribute_struct)
    (cs : list xml_node_struct) (c : xml_node_struct) :
  append_child_struct (node_element nm a cs) c = node_element nm a (cs ++ [c]).
Proof. reflexivity. Qed.

Lemma NodeList_serialize_build (m : string) (node_args : list Descriptor)
    (recs : list NodeData) :
  forall (nm : string) (a : list xml_attribute_struct) (cs : list xml_node_struct),
    foldM (fun parent c => Node_serialize m node_args parent c) recs
          (node_element nm a cs)
    = (nodes <- build_children m node_args recs ;;
       Ok (node_element nm a (cs ++ nodes))).
Proof.
  unfold build_children.
  induction recs as [|c recs IH]; intros nm a cs; cbn [foldM mapM bind].
  - rewrite app_nil_r. reflexivity.
  - rewrite Node_serialize_build.
    destruct (Node_build m node_args c) as [n|e]; cbn [bind]; [|reflexivity].
    rewrite append_child_element, IH.
    destruct (mapM (Node_build m node_args) recs) as [nodes|e]; cbn [bind];
      [|reflexivity].
    rewrite <- app_assoc. reflexivity.
Qed.

(** One round of [serialize_subnodes] on an element. *)
Lemma serialize_subnode_plain_inv (d : Descriptor) (nm : string)
    (a : list xml_attribute_struct) (cs : list xml_node_struct)
    (data : NodeData) (e1 : xml_node_struct) :
  is_Node d = false ->
  serialize_subnode d (node_element nm a cs) data = Ok e1 ->
  exists cs1,
    e1 = node_element nm (a ++ written_attribute d data) cs1
    /\ match d with
       | Text _ => cs1 = set_first_text (c_str (nd_text data)) cs
       | NodeList m node_args _ =>
           exists nodes,
             build_children m node_args (default [] (nd_subnodes data !! m))
               = Ok nodes
             /\ cs1 = cs ++ nodes
       | _ => cs1 = cs
       end.
Proof.
  destruct d as [|k ar|ar|m sub|m sub la]; intros Hd H; try discriminate.
  - cbn in H. injection H as <-. exists cs. cbn. rewrite app_nil_r. auto.
  - cbn [serialize_subnode] in H. injection H as <-. exists cs.
    unfold Attribute_serialize. cbn [written_attribute].
    destruct (nd_attributes data !! k); cbn; [auto|]. rewrite app_nil_r. auto.
  - cbn [serialize_subnode] in H. injection H as <-.
    exists (set_first_text (c_str (nd_text data)) cs). cbn. rewrite app_nil_r. auto.
  - rewrite serialize_subnode_NodeList in H. unfold NodeList_serialize in H.
    cbn [written_attribute]. rewrite app_nil_r.
    destruct (nd_subnodes data !! m) as [recs|]; cbn [default].
    + rewrite NodeList_serialize_build in H.
      apply bind_Ok in H as (nodes & Hnodes & H). injection H as <-.
      exists (cs ++ nodes). split; [reflexivity|]. exists nodes. auto.
    + injection H as <-. exists cs. split; [reflexivity|].
      exists []. rewrite app_nil_r. split; reflexivity.
Qed.

Lemma serialize_subnodes_cons (d : Descriptor) (args : list Descriptor)
    (parent : xml_node_struct) (data : NodeData) :
  serialize_subnodes parent data (d :: args) =
    (parent' <- serialize_subnode d parent data ;;
     serialize_subnodes parent' data args).
Proof. reflexivity. Qed.

Lemma serialize_subnodes_app (args1 args2 : list Descriptor)
    (parent : xml_node_struct) (data : NodeData) :
  serialize_subnodes parent data (args1 ++ args2) =
    (parent' <- serialize_subnodes parent data args1 ;;
     serialize_subnodes parent' data args2).
Proof. apply foldM_app. Qed.

(** The walk keeps the element and its name, and appends the attributes
    of the record that are declared. *)
Lemma serialize_walk_attributes (args : list Descriptor) (data : NodeData) :
  no_nested_node args = true ->
  forall nm a cs e',
    serialize_subnodes (node_element nm a cs) data args = Ok e' ->
    exists cs', e' = node_element nm (a ++ written_attributes args data) cs'.
Proof.
  induction args as [|d args IH]; intros Hn nm a cs e' H.
  - cbn in H. injection H as <-. exists cs. cbn. rewrite app_nil_r. reflexivity.
  - apply no_nested_node_cons in Hn as [Hd Hn].
    rewrite serialize_subnodes_cons in H. apply bind_Ok in H as (e1 & H1 & H).
    apply serialize_subnode_plain_inv in H1 as (cs1 & -> & _); [|exact Hd].
    destruct (IH Hn _ _ _ _ H) as (cs' & ->). exists cs'.
    unfold written_attributes. cbn [flat_map]. rewrite app_assoc. reflexivity.
Qed.

Lemma is_element_inv (n : xml_node_struct) :
  is_element n = true -> exists nm a cs, n = node_element nm a cs.
Proof. destruct n as [nm a cs|v]; [eauto|discriminate]. Qed.

Lemma serialize_subnode_element (d : Descriptor) (parent parent' : xml_node_struct)
    (data : NodeData) :
  is_element parent = true ->
  serialize_subnode d parent data = Ok parent' ->
  is_element parent' = true.
Proof.
  intros He. apply is_element_inv in He as (nm & a & cs & ->).
  destruct d as [|k ar|ar|m sub|m sub la].
  - cbn. intros H. injection H as <-. reflexivity.
  - cbn. intros H. injection H as <-. unfold Attribute_serialize.
    destruct (nd_attributes data !! k); reflexivity.
  - cbn. intros H. injection H as <-. reflexivity.
  - rewrite serialize_subnode_Node, Node_serialize_build. intros H.
    apply bind_Ok in H as (n & _ & H). injection H as <-. reflexivity.
  - rewrite serialize_subnode_NodeList. unfold NodeList_serialize.
    destruct (nd_subnodes data !! m) as [recs|].
    + rewrite NodeList_serialize_build. intros H.
      apply bind_Ok in H as (nodes & _ & H). injection H as <-. reflexivity.
    + intros H. injection H as <-. reflexivity.
Qed.

Lemma serialize_subnodes_element (args : list Descriptor)
    (parent parent' : xml_node_struct) (data : NodeData) :
  is_element parent = true ->
  serialize_subnodes parent data args = Ok parent' ->
  is_element parent' = true.
Proof.
  intros He. unfold serialize_subnodes.
  apply (foldM_invariant (fun x => is_element x = true)); [exact He|].
  intros x d y _ Hx Hy. exact (serialize_subnode_element d x y data Hx Hy).
Qed.

(** A built element is an element that bears the declared name. *)
Lemma Node_build_named (m : string) (node_args : list Descriptor)
    (data : NodeData) (n : xml_node_struct) :
  Node_build m node_args data = Ok n ->
  is_element n = true /\ struct_name n = m /\ c_str (nd_name data) = m.
Proof.
  unfold Node_build. intros H. apply bind_Ok in H as (n' & Hn' & H).
  apply bind_Ok in H as (b & Hb & H). injection H as <-.
  pose proof (serialize_subnodes_name _ _ _ _ Hn') as Hname.
  cbn [new_element struct_name] in Hname.
  split; [exact (serialize_subnodes_element node_args (new_element (c_str (nd_name data)))
                  n' data eq_refl Hn')|].
  rewrite Node_validate_present in Hb.
  destruct (String.eqb_spec m (struct_name n')) as [Heq|_]; [|discriminate].
  split; congruence.
Qed.

Lemma build_children_named (m : string) (node_args : list Descriptor)
    (recs : list NodeData) (nodes : list xml_node_struct) :
  build_children m node_args recs = Ok nodes ->
  Forall (fun n => is_element n = true /\ struct_name n = m) nodes.
Proof.
  unfold build_children. intros H. apply mapM_Ok_all in H.
  induction H as [|c n recs nodes Hc _ IH]; constructor; [|exact IH].
  apply Node_build_named in Hc. tauto.
Qed.

Lemma filter_text_elements (nodes : list xml_node_struct) :
  Forall (fun n => is_element n = true) nodes ->
  List.filter is_text_node nodes = [].
Proof.
  induction 1 as [|n nodes Hn _ IH]; [reflexivity|]. cbn [List.filter].
  destruct n; [exact IH|discriminate].
Qed.

Lemma filter_text_set_first (v : string) (cs : list xml_node_struct) :
  List.filter is_text_node (set_first_text v cs) =
    match List.filter is_text_node cs with
    | [] => [node_pcdata v]
    | _ :: rest => node_pcdata v :: rest
    end.
Proof.
  induction cs as [|c cs IH]; [reflexivity|].
  destruct c as [nm a k|w]; cbn [set_first_text List.filter is_text_node];
    [exact IH|reflexivity].
Qed.

(** The character data of the written element: one node, holding the text
    of the record, when a [Text] is declared. *)
Lemma serialize_walk_text (args : list Descriptor) (data : NodeData) :
  no_nested_node args = true ->
  forall nm a cs e',
    List.filter is_text_node cs = []
    \/ List.filter is_text_node cs = [node_pcdata (c_str (nd_text data))] ->
    serialize_subnodes (node_element nm a cs) data args = Ok e' ->
    List.filter is_text_node (struct_children e') =
      if has_text args then [node_pcdata (c_str (nd_text data))]
      else List.filter is_text_node cs.
Proof.
  induction args as [|d args IH]; intros Hn nm a cs e' Hcs H.
  - cbn in H. injection H as <-. reflexivity.
  - apply no_nested_node_cons in Hn as [Hd Hn].
    rewrite serialize_subnodes_cons in H. apply bind_Ok in H as (e1 & H1 & H).
    apply serialize_subnode_plain_inv in H1 as (cs1 & -> & Hcs1); [|exact Hd].
    unfold has_text. cbn [existsb]. fold (has_text args).
    destruct d as [|k ar|ar|m sub|m sub la]; try discriminate;
      cbn [is_Text orb]; cbv beta iota in Hcs1.
    + subst cs1. exact (IH Hn _ _ _ _ Hcs H).
    + subst cs1. exact (IH Hn _ _ _ _ Hcs H).
    + assert (Hone : List.filter is_text_node cs1 = [node_pcdata (c_str (nd_text data))]).
      { subst cs1. rewrite filter_text_set_first.
        destruct Hcs as [-> | ->]; reflexivity. }
      rewrite (IH Hn _ _ _ _ (or_intror Hone) H), Hone.
      destruct (has_text args); reflexivity.
    + destruct Hcs1 as (nodes & Hnodes & ->).
      assert (Hsame : List.filter is_text_node (cs ++ nodes)
                      = List.filter is_text_node cs).
      { rewrite List.filter_app, (filter_text_elements nodes), app_nil_r;
          [reflexivity|].
        apply build_children_named in Hnodes.
        eapply List.Forall_impl; [|exact Hnodes]. cbn. tauto. }
      rewrite <- Hsame. rewrite <- Hsame in Hcs. exact (IH Hn _ _ _ _ Hcs H).
Qed.

Lemma filter_named_set_first (m v : string) (cs : list xml_node_struct) :
  List.filter (fun c => name_is m (struct_name c)) (set_first_text v cs)
  = List.filter (fun c => name_is m (struct_name c)) cs.
Proof.
  induction cs as [|c cs IH]; [reflexivity|].
  destruct c as [nm a k|w]; cbn [set_first_text List.filter struct_name].
  - rewrite IH. reflexivity.
  - reflexivity.
Qed.

Lemma filter_named_other (m m' : string) (nodes : list xml_node_struct) :
  m <> m' ->
  Forall (fun n => is_element n = true /\ struct_name n = m') nodes ->
  List.filter (fun c => name_is m (struct_name c)) nodes = [].
Proof.
  intros Hne. induction 1 as [|n nodes [_ Hn] _ IH]; [reflexivity|].
  cbn [List.filter]. destruct (name_is m (struct_name n)) eqn:Hm; [|exact IH].
  apply name_is_true in Hm as [_ Hm]. congruence.
Qed.

Lemma filter_named_same (m : string) (nodes : list xml_node_struct) :
  m <> "" ->
  Forall (fun n => is_element n = true /\ struct_name n = m) nodes ->
  List.filter (fun c => name_is m (struct_name c)) nodes = nodes.
Proof.
  intros Hne. induction 1 as [|n nodes [_ Hn] _ IH]; [reflexivity|].
  cbn [List.filter]. rewrite IH.
  assert (Hm : name_is m (struct_name n) = true)
    by (apply name_is_true; split; congruence).
  rewrite Hm. reflexivity.
Qed.

(** The children of a name that no list of the walk bears are left as
    they were. *)
Lemma serialize_walk_children_other (args : list Descriptor) (data : NodeData)
    (m : string) :
  no_nested_node args = true ->
  m ∉ list_names args ->
  forall nm a cs e',
    serialize_subnodes (node_element nm a cs) data args = Ok e' ->
    children (Some e') m = children (Some (node_element nm a cs)) m.
Proof.
  induction args as [|d args IH]; intros Hn Hm nm a cs e' H.
  - cbn in H. injection H as <-. reflexivity.
  - apply no_nested_node_cons in Hn as [Hd Hn].
    unfold list_names in Hm. cbn [flat_map] in Hm. fold (list_names args) in Hm.
    rewrite serialize_subnodes_cons in H. apply bind_Ok in H as (e1 & H1 & H).
    apply serialize_subnode_plain_inv in H1 as (cs1 & -> & Hcs1); [|exact Hd].
    rewrite (IH Hn) with (nm := nm) (a := a ++ written_attribute d data) (cs := cs1);
      [|set_solver|exact H].
    cbn [children struct_children].
    destruct d as [|k ar|ar|m' sub|m' sub la]; try discriminate;
      cbv beta iota in Hcs1.
    + subst cs1. reflexivity.
    + subst cs1. reflexivity.
    + subst cs1. apply filter_named_set_first.
    + destruct Hcs1 as (nodes & Hnodes & ->).
      rewrite List.filter_app, (filter_named_other m m' nodes), app_nil_r;
        [reflexivity| |exact (build_children_named _ _ _ _ Hnodes)].
      cbn in Hm. set_solver.
Qed.

(** The children of the name of the one list that bears it: the elements
    built from the records of that list, in order. *)
Lemma serialize_walk_children_list (pre post : list Descriptor) (m : string)
    (node_args list_args : list Descriptor) (data : NodeData) :
  no_nested_node (pre ++ NodeList m node_args list_args :: post) = true ->
  m ∉ list_names pre ->
  m ∉ list_names post ->
  forall nm a e',
    serialize_subnodes (node_element nm a []) data
                       (pre ++ NodeList m node_args list_args :: post) = Ok e' ->
    exists nodes,
      build_children m node_args (default [] (nd_subnodes data !! m)) = Ok nodes
      /\ children (Some e') m
         = List.filter (fun c => name_is m (struct_name c)) nodes.
Proof.
  intros Hn Hpre Hpost nm a e' H.
  apply no_nested_node_app in Hn as [Hn1 Hn2].
  apply no_nested_node_cons in Hn2 as [Hd Hn2].
  rewrite serialize_subnodes_app in H. apply bind_Ok in H as (e1 & H1 & H).
  rewrite serialize_subnodes_cons in H. apply bind_Ok in H as (e2 & H2 & H).
  destruct (serialize_walk_attributes pre data Hn1 _ _ _ _ H1) as (cs1 & ->).
  pose proof (serialize_walk_children_other pre data m Hn1 Hpre _ _ _ _ H1) as Hc1.
  apply serialize_subnode_plain_inv in H2 as (cs2 & -> & nodes & Hnodes & ->);
    [|exact Hd].
  exists nodes. split; [exact Hnodes|].
  rewrite (serialize_walk_children_other post data m Hn2 Hpost _ _ _ _ H).
  cbn [children struct_children] in Hc1 |- *.
  rewrite List.filter_app, Hc1. reflexivity.
Qed.

(** The walk ends without an exception when every list can be built. *)
Lemma serialize_walk_succeeds (args : list Descriptor) (data : NodeData) :
  no_nested_node args = true ->
  (forall m node_args list_args,
      In (NodeList m node_args list_args) args ->
      exists nodes,
        build_children m node_args (default [] (nd_subnodes data !! m)) = Ok nodes) ->
  forall nm a cs,
    exists e', serialize_subnodes (node_element nm a cs) data args = Ok e'.
Proof.
  induction args as [|d args IH]; intros Hn Hlists nm a cs.
  - eexists. reflexivity.
  - apply no_nested_node_cons in Hn as [Hd Hn].
    assert (Hstep : exists a1 cs1,
               serialize_subnode d (node_element nm a cs) data
               = Ok (node_element nm a1 cs1)).
    { destruct d as [|k ar|ar|m sub|m sub la]; try discriminate.
      - eexists _, _. reflexivity.
      - cbn [serialize_subnode]. unfold Attribute_serialize.
        destruct (nd_attributes data !! k); eexists _, _; reflexivity.
      - eexists _, _. reflexivity.
      - rewrite serialize_subnode_NodeList. unfold NodeList_serialize.
        destruct (Hlists m sub la (or_introl eq_refl)) as (nodes & Hnodes).
        destruct (nd_subnodes data !! m) as [recs|].
        + change (default [] (Some recs)) with recs in Hnodes.
          rewrite NodeList_serialize_build, Hnodes. eexists _, _. reflexivity.
        + eexists _, _. reflexivity. }
    destruct Hstep as (a1 & cs1 & Hstep).
    destruct (IH Hn (fun m sub la Hin => Hlists m sub la (or_intror Hin)) nm a1 cs1)
      as (e' & He').
    exists e'. rewrite serialize_subnodes_cons, Hstep. exact He'.
Qed.

(** ** The children of a name *)

Lemma name_is_empty (iname : string) : name_is "" iname = false.
Proof.
  unfold name_is. destruct (String.eqb_spec iname "") as [->|Hne]; [reflexivity|].
  cbn [negb andb]. apply String.eqb_neq. congruence.
Qed.

Lemma children_empty_name (node : xml_node) : children node "" = [].
Proof.
  destruct node as [n|]; [|reflexivity]. cbn [children].
  induction (struct_children n) as [|c cs IH]; [reflexivity|].
  cbn [List.filter]. rewrite name_is_empty. exact IH.
Qed.

Lemma Forall2_length_eq {A B} (P : A -> B -> Prop) (l : list A) (k : list B) :
  Forall2 P l k -> length k = length l.
Proof. induction 1; cbn; congruence. Qed.

Lemma parse_walk (s name : string) (args : list Descriptor) (r : NodeData) :
  parse s name args = Ok r ->
  parse_subnodes (set_name name empty_NodeData)
                 (document_element (snd (load_buffer s))) args = Ok r.
Proof.
  unfold parse, parse_document. intros H. apply bind_Ok in H as (b & _ & H).
  exact H.
Qed.

(** ** Round trip *)

Lemma walk_succeeds_all (args : list Descriptor) (node : xml_node) :
  Forall (fun d => succeeds d node) args -> walk_succeeds args node.
Proof.
  induction 1 as [|d args Hd _ IH]; intros data.
  - exists data. reflexivity.
  - destruct (Hd data) as (r & Hr). destruct (IH r) as (r' & Hr').
    exists r'. rewrite parse_subnodes_cons, Hr. exact Hr'.
Qed.

Lemma succeeds_Attribute (k : string) (ar : list Descriptor) (node : xml_node) :
  succeeds (Attribute k ar) node <->
  (attribute node k <> None \/ is_required ar = false).
Proof.
  unfold succeeds. cbn [parse_subnode]. unfold Attribute_validate, Attribute_subnode.
  destruct (attribute node k) as [x|]; [|destruct (is_required ar)]; cbn [bind];
    split.
  - intros _. left. discriminate.
  - intros _ data. eexists. reflexivity.
  - intros H. destruct (H empty_NodeData) as (r & Hr). discriminate.
  - intros [H|H]; congruence.
  - intros _. right. reflexivity.
  - intros _ data. eexists. reflexivity.
Qed.

Lemma succeeds_Text (ar : list Descriptor) (node : xml_node) :
  succeeds (Text ar) node <->
  (text_empty node = false \/ is_required ar = false).
Proof.
  unfold succeeds. cbn [parse_subnode]. unfold Text_validate, Text_subnode, text.
  destruct (text_empty node); [destruct (is_required ar)|]; cbn [bind]; split.
  - intros H. destruct (H empty_NodeData) as (r & Hr). discriminate.
  - intros [H|H]; congruence.
  - intros _. right. reflexivity.
  - intros _ data. eexists. reflexivity.
  - intros _. left. reflexivity.
  - intros _ data. eexists. reflexivity.
Qed.

Lemma succeeds_NodeList (m : string) (sub la : list Descriptor) (node : xml_node) :
  succeeds (NodeList m sub la) node <->
  exists recs, parse_children m sub node = Ok recs.
Proof.
  unfold succeeds. split.
  - intros H. destruct (H empty_NodeData) as (r & Hr).
    rewrite parse_subnode_NodeList in Hr. unfold NodeList_parse in Hr.
    apply bind_Ok in Hr as (recs & Hrecs & _). exists recs. exact Hrecs.
  - intros (recs & Hrecs) data. rewrite parse_subnode_NodeList.
    unfold NodeList_parse. unfold parse_children, NodeList_subnode in *.
    rewrite Hrecs. eexists. reflexivity.
Qed.

Lemma elem_of_list_names (args : list Descriptor) (m : string) :
  no_nested_node args = true ->
  m ∈ list_names args ->
  exists sub la, In (NodeList m sub la) args.
Proof.
  intros Hn Hm. apply elem_of_flat_map in Hm as (d & Hd & Hm).
  apply list_elem_of_In in Hd.
  unfold no_nested_node in Hn. rewrite forallb_forall in Hn.
  specialize (Hn d Hd).
  destruct d as [|k ar|ar|m' sub|m' sub la]; cbn in Hm, Hn; try discriminate;
    try (inversion Hm; fail).
  apply list_elem_of_singleton in Hm as ->. eauto.
Qed.

Lemma list_names_app (args1 args2 : list Descriptor) :
  list_names (args1 ++ args2) = list_names args1 ++ list_names args2.
Proof. unfold list_names. apply flat_map_app. Qed.

Lemma NoDup_list_names_split (pre post : list Descriptor) (m : string)
    (sub la : list Descriptor) :
  NoDup (list_names (pre ++ NodeList m sub la :: post)) ->
  (m ∉ list_names pre) /\ (m ∉ list_names post).
Proof.
  rewrite list_names_app. unfold list_names at 2. cbn [flat_map captured_lists app].
  fold (list_names post). intros H.
  apply NoDup_app in H as (_ & Hpre & Hpost).
  apply NoDup_cons in Hpost as [Hpost _].
  split; [|exact Hpost]. intros Hin. apply (Hpre m Hin). left.
Qed.

Lemma In_attribute_names (k : string) (ar args : list Descriptor) :
  In (Attribute k ar) args -> k ∈ attribute_names args.
Proof.
  intros H. apply elem_of_flat_map. exists (Attribute k ar).
  split; [apply list_elem_of_In, H|left].
Qed.

Lemma In_has_text (ar args : list Descriptor) :
  In (Text ar) args -> has_text args = true.
Proof.
  intros H. unfold has_text. apply existsb_exists. exists (Text ar). auto.
Qed.

Lemma In_not_Node (d : Descriptor) (args : list Descriptor) :
  no_nested_node args = true -> In d args -> is_Node d = false.
Proof.
  unfold no_nested_node. rewrite forallb_forall. intros H Hd.
  apply negb_true_iff, H, Hd.
Qed.

(** A handle that shows the attributes, the text and the children that the
    record was parsed from is parsed into the same record. *)
Lemma walk_assemble (args : list Descriptor) (data r : NodeData)
    (node t : xml_node) :
  no_nested_node args = true ->
  NoDup (list_names args) ->
  parse_subnodes data node args = Ok r ->
  (forall k, k ∈ attribute_names args ->
             (fun x => of_c_str (attr_value x)) <$> attribute t k
             = nd_attributes r !! k) ->
  (has_text args = true ->
   (text_empty t = false /\ of_c_str (text_as_string t) = nd_text r)
   \/ (text_empty t = true /\ nd_text r = nd_text data
       /\ forall ar, In (Text ar) args -> is_required ar = false)) ->
  (forall m sub la, In (NodeList m sub la) args ->
                    parse_children m sub t = parse_children m sub node) ->
  parse_subnodes data t args = Ok r.
Proof.
  intros Hn Hdup H T1 T2 T3.
  pose proof (walk_Ok_all args node data r H) as Hall.
  rewrite List.Forall_forall in Hall.
  assert (Hok : walk_succeeds args t).
  { apply walk_succeeds_all, List.Forall_forall. intros d Hd.
    pose proof (Hall d Hd) as Hs.
    pose proof (In_not_Node d args Hn Hd) as Hnode.
    destruct d as [|k ar|ar|m sub|m sub la]; try discriminate.
    - intros data'. eexists. reflexivity.
    - apply succeeds_Attribute. apply succeeds_Attribute in Hs.
      destruct (attribute t k) as [x|] eqn:Ht; [left; discriminate|].
      destruct Hs as [Hs|Hs]; [|right; exact Hs]. exfalso.
      pose proof (T1 k (In_attribute_names k ar args Hd)) as Hk.
      rewrite Ht in Hk. cbn in Hk.
      rewrite (walk_attributes args node Hn data r H k) in Hk.
      rewrite decide_True in Hk by exact (In_attribute_names k ar args Hd).
      destruct (attribute node k); [discriminate|]. apply Hs. reflexivity.
    - apply succeeds_Text.
      destruct (T2 (In_has_text ar args Hd)) as [[Ht _]|(_ & _ & Hreq)].
      + left. exact Ht.
      + right. exact (Hreq ar Hd).
    - apply succeeds_NodeList. apply succeeds_NodeList in Hs.
      rewrite (T3 m sub la Hd). exact Hs. }
  destruct (Hok data) as (r' & Hr'). rewrite Hr'. f_equal.
  apply NodeData_eq.
  - rewrite (walk_name args t Hn data r' Hr'), (walk_name args node Hn data r H).
    reflexivity.
  - rewrite (walk_text args t Hn data r' Hr').
    pose proof (walk_text args node Hn data r H) as Hr.
    destruct (has_text args); [|exact (eq_sym Hr)].
    destruct (T2 eq_refl) as [[Ht Hs]|(Ht & Hs & _)]; rewrite Ht; cbn; congruence.
  - intros k. rewrite (walk_attributes args t Hn data r' Hr' k).
    pose proof (walk_attributes args node Hn data r H k) as Hr.
    destruct (decide (k ∈ attribute_names args)) as [Hk|Hk]; [|exact (eq_sym Hr)].
    specialize (T1 k Hk). destruct (attribute t k) as [x|]; cbn in T1.
    + exact T1.
    + rewrite <- T1 in Hr. destruct (attribute node k); [discriminate|].
      rewrite <- T1. exact (eq_sym Hr).
  - intros m. destruct (decide (m ∈ list_names args)) as [Hm|Hm].
    + destruct (elem_of_list_names args m Hn Hm) as (sub & la & Hin).
      pose proof (T3 m sub la Hin) as Hsame.
      apply in_split in Hin as (pre & post & ->).
      destruct (NoDup_list_names_split pre post m sub la Hdup) as [Hpre Hpost].
      destruct (walk_subnodes_list pre post m sub la t Hn Hpre Hpost data r' Hr')
        as (recs' & Hrecs' & ->).
      destruct (walk_subnodes_list pre post m sub la node Hn Hpre Hpost data r H)
        as (recs & Hrecs & ->).
      congruence.
    + rewrite (walk_subnodes_other args t m Hn Hm data r' Hr').
      rewrite (walk_subnodes_other args node m Hn Hm data r H). reflexivity.
Qed.

Lemma written_sound (args : list Descriptor) (data : NodeData)
    (x : xml_attribute_struct) :
  In x (written_attributes args data) ->
  c_str <$> nd_attributes data !! attr_name x = Some (attr_value x).
Proof.
  unfold written_attributes. rewrite in_flat_map. intros (d & _ & Hx).
  destruct d as [|k ar|ar|m sub|m sub la]; cbn in Hx; try tauto.
  destruct (nd_attributes data !! k) as [v|] eqn:Hk; [|destruct Hx].
  destruct Hx as [<-|[]]. cbn. rewrite Hk. reflexivity.
Qed.

Lemma written_complete (args : list Descriptor) (data : NodeData) (k : string)
    (v : std_string) :
  no_nested_node args = true ->
  k ∈ attribute_names args ->
  nd_attributes data !! k = Some v ->
  In (mk_attribute k (c_str v)) (written_attributes args data).
Proof.
  intros Hn Hk Hv. apply elem_of_flat_map in Hk as (d & Hd & Hk).
  apply list_elem_of_In in Hd. pose proof (In_not_Node d args Hn Hd) as Hnode.
  unfold written_attributes. apply in_flat_map. exists d. split; [exact Hd|].
  destruct d as [|k' ar|ar|m sub|m sub la]; cbn in Hk; try discriminate;
    try (inversion Hk; fail).
  apply list_elem_of_singleton in Hk as <-. cbn. rewrite Hv. left. reflexivity.
Qed.

(** The attribute lookups on the written element give back the attributes
    of the record. *)
Lemma written_lookup (args : list Descriptor) (data : NodeData) (k : string)
    (nm : string) (cs : list xml_node_struct) :
  no_nested_node args = true ->
  k ∈ attribute_names args ->
  k <> "" ->
  attr_value <$> attribute (Some (node_element nm (written_attributes args data) cs)) k
  = c_str <$> nd_attributes data !! k.
Proof.
  intros Hn Hk Hne. cbn [attribute struct_attributes].
  destruct (List.find _ _) as [x|] eqn:Hfind; cbn.
  - apply List.find_some in Hfind as [Hin Hx].
    apply name_is_true in Hx as [_ ->]. symmetry. exact (written_sound _ _ _ Hin).
  - destruct (nd_attributes data !! k) as [v|] eqn:Hv; [|reflexivity].
    pose proof (written_complete args data k v Hn Hk Hv) as Hin.
    pose proof (List.find_none _ _ Hfind _ Hin) as Hx. cbn in Hx.
    assert (Ht : name_is k k = true) by (apply name_is_true; auto). congruence.
Qed.

Lemma attribute_empty_name (node : xml_node) : attribute node "" = None.
Proof.
  destruct node as [n|]; [|reflexivity]. cbn [attribute].
  induction (struct_attributes n) as [|x l IH]; [reflexivity|].
  cbn [List.find]. rewrite name_is_empty. exact IH.
Qed.

Lemma find_head_filter {A} (p : A -> bool) (l : list A) :
  List.find p l = head (List.filter p l).
Proof.
  induction l as [|x l IH]; [reflexivity|]. cbn [List.find List.filter].
  destruct (p x); [reflexivity|exact IH].
Qed.

Lemma text_data_element (n : xml_node_struct) :
  is_element n = true ->
  text_data (Some n) = head (List.filter is_text_node (struct_children n)).
Proof.
  destruct n as [nm a cs|v]; [|discriminate]. intros _. cbn. apply find_head_filter.
Qed.

(** *** Without the empty character data *)

Lemma strip_name (n : xml_node_struct) :
  struct_name (strip_empty_text n) = struct_name n.
Proof. destruct n; reflexivity. Qed.

Lemma strip_is_element (n : xml_node_struct) :
  is_element (strip_empty_text n) = is_element n.
Proof. destruct n; reflexivity. Qed.

Lemma strip_attribute (n : xml_node_struct) (k : string) :
  attribute (Some (strip_empty_text n)) k = attribute (Some n) k.
Proof. destruct n; reflexivity. Qed.

Lemma strip_children (n : xml_node_struct) (m : string) :
  children (Some (strip_empty_text n)) m
  = List.map strip_empty_text (children (Some n) m).
Proof.
  destruct n as [nm a cs|v]; [|reflexivity].
  cbn [children strip_empty_text struct_children].
  induction cs as [|c cs IH]; [reflexivity|]. cbn [flat_map List.filter].
  rewrite List.filter_app, IH.
  destruct c as [nm' a' cs'|w].
  - cbn [is_empty_text List.filter struct_name strip_empty_text].
    destruct (name_is m nm'); reflexivity.
  - cbn [is_empty_text struct_name].
    assert (Hf : name_is m "" = false)
      by (unfold name_is; reflexivity).
    rewrite Hf.
    destruct (String.eqb w "");
      cbn [List.filter struct_name strip_empty_text app]; [reflexivity|].
    rewrite Hf. reflexivity.
Qed.

Lemma strip_text_filter (n : xml_node_struct) :
  List.filter is_text_node (struct_children (strip_empty_text n))
  = List.filter (fun c => negb (is_empty_text c))
                (List.filter is_text_node (struct_children n)).
Proof.
  destruct n as [nm a cs|v]; [|reflexivity].
  cbn [strip_empty_text struct_children].
  induction cs as [|c cs IH]; [reflexivity|]. cbn [flat_map List.filter].
  rewrite List.filter_app, IH.
  destruct c as [nm' a' cs'|w].
  - reflexivity.
  - cbn [is_empty_text is_text_node List.filter].
    destruct (String.eqb w ""); reflexivity.
Qed.

Lemma text_nonempty_children (node : xml_node) (m : string) :
  text_nonempty_handle node = true ->
  Forall (fun c => text_nonempty_handle (Some c) = true) (children node m).
Proof.
  destruct node as [n|]; [|constructor]. cbn [text_nonempty_handle children].
  destruct n as [nm a cs|v]; [|constructor]. cbn [text_nonempty struct_children].
  rewrite forallb_forall. intros H. apply List.Forall_forall. intros c Hc.
  apply List.filter_In in Hc as [Hc _]. exact (H c Hc).
Qed.

Lemma text_nonempty_data (node : xml_node) (d : xml_node_struct) :
  text_nonempty_handle node = true ->
  text_data node = Some d ->
  struct_value d <> "".
Proof.
  destruct node as [n|]; [|discriminate]. cbn [text_nonempty_handle text_data].
  intros Hn Hd.
  assert (Hd' : text_nonempty d = true /\ is_text_node d = true).
  { destruct n as [nm a cs|v]; cbn in Hn, Hd.
    - apply List.find_some in Hd as [Hin Ht]. split; [|exact Ht].
      rewrite forallb_forall in Hn. exact (Hn d Hin).
    - injection Hd as <-. auto. }
  destruct Hd' as [H1 H2]. destruct d as [nm a cs|v]; [discriminate|].
  cbn in H1 |- *. apply negb_true_iff, String.eqb_neq in H1. exact H1.
Qed.

(** *** The children of a list *)

Lemma children_round_trip (m : string) (sub : list Descriptor)
    (cs : list xml_node_struct) :
  round_trip_at m sub ->
  forall recs,
    mapM (fun c => Node_parse m sub empty_NodeData (Some c)) cs = Ok recs ->
    exists nodes,
      build_children m sub recs = Ok nodes
      /\ mapM (fun c => Node_parse m sub empty_NodeData (Some c)) nodes = Ok recs
      /\ (Forall (fun c => text_nonempty_handle (Some c) = true) cs ->
          mapM (fun c => Node_parse m sub empty_NodeData (Some c))
               (List.map strip_empty_text nodes) = Ok recs).
Proof.
  intros Hrt. unfold build_children.
  induction cs as [|c cs IH]; intros recs H; cbn [mapM] in H.
  - injection H as <-. exists []. repeat split; reflexivity.
  - apply bind_Ok in H as (rec & Hrec & H). apply bind_Ok in H as (recs' & Hrecs' & H).
    injection H as <-.
    destruct (Hrt (Some c) rec Hrec) as (n & Hbuild & Hparse & Hstrip).
    destruct (IH recs' Hrecs') as (nodes & Hbuilds & Hparses & Hstrips).
    exists (n :: nodes). cbn [mapM List.map].
    rewrite Hbuild, Hbuilds, Hparse, Hparses. cbn [bind].
    split; [reflexivity|]. split; [reflexivity|].
    intros Hne. inversion Hne as [|c' cs' Hc Hcs]; subst.
    rewrite (Hstrip Hc), (Hstrips Hcs). reflexivity.
Qed.

Lemma built_children_named (m : string) (sub : list Descriptor) (node : xml_node)
    (recs : list NodeData) (nodes : list xml_node_struct) :
  parse_children m sub node = Ok recs ->
  build_children m sub recs = Ok nodes ->
  List.filter (fun c => name_is m (struct_name c)) nodes = nodes.
Proof.
  intros Hrecs Hnodes. destruct (decide (m = "")) as [->|Hne].
  - unfold parse_children in Hrecs. rewrite children_empty_name in Hrecs.
    cbn in Hrecs. injection Hrecs as <-. cbn in Hnodes. injection Hnodes as <-.
    reflexivity.
  - apply filter_named_same; [exact Hne|].
    exact (build_children_named _ _ _ _ Hnodes).
Qed.

Lemma walk_list_records (m : string) (sub : list Descriptor) (node : xml_node)
    (r : NodeData) (m' : string) (sub' la' : list Descriptor) :
  no_nested_node sub = true ->
  NoDup (list_names sub) ->
  parse_subnodes (set_name m empty_NodeData) node sub = Ok r ->
  In (NodeList m' sub' la') sub ->
  exists pre post recs,
    sub = pre ++ NodeList m' sub' la' :: post
    /\ (m' ∉ list_names pre) /\ (m' ∉ list_names post)
    /\ parse_children m' sub' node = Ok recs
    /\ nd_subnodes r !! m' = Some recs.
Proof.
  intros Hn Hdup H Hin. apply in_split in Hin as (pre & post & ->).
  destruct (NoDup_list_names_split pre post m' sub' la' Hdup) as [Hpre Hpost].
  destruct (walk_subnodes_list pre post m' sub' la' node Hn Hpre Hpost _ r H)
    as (recs & Hrecs & Hsub).
  cbn in Hsub. rewrite lookup_empty in Hsub.
  exists pre, post, recs. auto.
Qed.

Lemma round_trip_builds (m : string) (sub : list Descriptor) (node : xml_node)
    (r : NodeData) :
  no_nested_node sub = true ->
  NoDup (list_names sub) ->
  (forall m' sub' la', In (NodeList m' sub' la') sub -> round_trip_at m' sub') ->
  parse_subnodes (set_name m empty_NodeData) node sub = Ok r ->
  forall m' sub' la',
    In (NodeList m' sub' la') sub ->
    exists nodes,
      build_children m' sub' (default [] (nd_subnodes r !! m')) = Ok nodes.
Proof.
  intros Hn Hdup IH H m' sub' la' Hin.
  destruct (walk_list_records m sub node r m' sub' la' Hn Hdup H Hin)
    as (pre & post & recs & _ & _ & _ & Hrecs & ->).
  destruct (children_round_trip m' sub' _ (IH m' sub' la' Hin) recs Hrecs)
    as (nodes & Hnodes & _). exists nodes. exact Hnodes.
Qed.

Lemma round_trip_lists (m : string) (sub : list Descriptor) (node : xml_node)
    (r : NodeData) (nm : string) (e' : xml_node_struct) :
  no_nested_node sub = true ->
  NoDup (list_names sub) ->
  (forall m' sub' la', In (NodeList m' sub' la') sub -> round_trip_at m' sub') ->
  parse_subnodes (set_name m empty_NodeData) node sub = Ok r ->
  serialize_subnodes (node_element nm [] []) r sub = Ok e' ->
  forall m' sub' la',
    In (NodeList m' sub' la') sub ->
    parse_children m' sub' (Some e') = parse_children m' sub' node
    /\ (text_nonempty_handle node = true ->
        parse_children m' sub' (Some (strip_empty_text e'))
        = parse_children m' sub' node).
Proof.
  intros Hn Hdup IH H He' m' sub' la' Hin.
  destruct (walk_list_records m sub node r m' sub' la' Hn Hdup H Hin)
    as (pre & post & recs & -> & Hpre & Hpost & Hrecs & Hsub).
  destruct (serialize_walk_children_list pre post m' sub' la' r Hn Hpre Hpost
              _ _ _ He') as (nodes & Hnodes & Hchildren).
  rewrite Hsub in Hnodes. change (default [] (Some recs)) with recs in Hnodes.
  rewrite (built_children_named m' sub' node recs nodes Hrecs Hnodes) in Hchildren.
  destruct (children_round_trip m' sub' _ (IH m' sub' la' Hin) recs Hrecs)
    as (nodes' & Hnodes' & Hparse & Hstrip).
  assert (nodes' = nodes) as -> by congruence.
  rewrite Hrecs. unfold parse_children.
  rewrite strip_children, Hchildren. split; [exact Hparse|].
  intros Hne. apply Hstrip. exact (text_nonempty_children node m' Hne).
Qed.

(** *** One node *)

Lemma unambiguous_args_inv (args : list Descriptor) :
  unambiguous_args args = true ->
  no_nested_node args = true
  /\ NoDup (list_names args)
  /\ Forall (fun d => unambiguous d = true) args.
Proof.
  unfold unambiguous_args. rewrite andb_true_iff, bool_decide_eq_true.
  intros [Hall Hdup]. rewrite forallb_forall in Hall.
  split; [|split; [exact Hdup|apply List.Forall_forall, Hall]].
  unfold no_nested_node. apply forallb_forall. intros d Hd.
  specialize (Hall d Hd). destruct d; try reflexivity. discriminate.
Qed.

Lemma round_trip_args (m : string) (sub : list Descriptor) :
  unambiguous_args sub = true ->
  (forall m' sub' la', In (NodeList m' sub' la') sub -> round_trip_at m' sub') ->
  round_trip_at m sub.
Proof.
  intros Hu IH node r H.
  apply unambiguous_args_inv in Hu as (Hn & Hdup & _).
  unfold Node_parse in H.
  pose proof (walk_name sub node Hn _ r H) as Hname. cbn in Hname.
  assert (Hplain : of_c_str (c_str (nd_text r)) = nd_text r).
  { rewrite (walk_text sub node Hn _ r H).
    destruct (has_text sub && negb (text_empty node)); reflexivity. }
  destruct (serialize_walk_succeeds sub r Hn
              (round_trip_builds m sub node r Hn Hdup IH H) (c_str (nd_name r)) [] [])
    as (e' & He').
  destruct (serialize_walk_attributes sub r Hn _ _ _ _ He') as (cs' & Hshape).
  cbn [app] in Hshape.
  assert (Hbuild : Node_build m sub r = Ok e').
  { unfold Node_build, new_element. rewrite He'. cbn [bind].
    rewrite Node_validate_present, Hshape. cbn [struct_name].
    rewrite Hname. cbn [c_str of_c_str]. rewrite String.eqb_refl. reflexivity. }
  exists e'. split; [exact Hbuild|].
  assert (Helem : is_element e' = true) by (rewrite Hshape; reflexivity).
  assert (Hattr : forall k, k ∈ attribute_names sub ->
             (fun x => of_c_str (attr_value x)) <$> attribute (Some e') k
             = nd_attributes r !! k).
  { intros k Hk. destruct (decide (k = "")) as [->|Hne].
    - rewrite attribute_empty_name.
      rewrite (walk_attributes sub node Hn _ r H "").
      rewrite attribute_empty_name. destruct (decide _); reflexivity.
    - pose proof (written_lookup sub r k (c_str (nd_name r)) cs' Hn Hk Hne) as Hw.
      rewrite <- Hshape in Hw.
      pose proof (walk_attributes sub node Hn _ r H k) as Hr.
      rewrite decide_True in Hr by exact Hk.
      cbn [nd_attributes set_name empty_NodeData] in Hr.
      rewrite lookup_empty in Hr.
      destruct (attribute (Some e') k) as [x|], (nd_attributes r !! k) as [v|];
        cbn in Hw |- *; try discriminate; [|reflexivity].
      injection Hw as Hw. rewrite Hw.
      destruct (attribute node k) as [y|]; [|discriminate].
      injection Hr as ->. reflexivity. }
  assert (Htext : has_text sub = true ->
             List.filter is_text_node (struct_children e')
             = [node_pcdata (c_str (nd_text r))]).
  { intros Ht.
    rewrite (serialize_walk_text sub r Hn (c_str (nd_name r)) [] [] e'
               (or_introl eq_refl) He'), Ht.
    reflexivity. }
  pose proof (round_trip_lists m sub node r _ e' Hn Hdup IH H He') as Hlists.
  split.
  - unfold Node_parse.
    apply (walk_assemble sub _ r node (Some e') Hn Hdup H Hattr).
    + intros Ht. left. unfold text_empty, text_as_string.
      rewrite (text_data_element e' Helem), (Htext Ht).
      split; [reflexivity|exact Hplain].
    + intros m' sub' la' Hin. exact (proj1 (Hlists m' sub' la' Hin)).
  - intros Hne. unfold Node_parse.
    apply (walk_assemble sub _ r node (Some (strip_empty_text e')) Hn Hdup H).
    + intros k Hk. rewrite strip_attribute. exact (Hattr k Hk).
    + intros Ht. unfold text_empty, text_as_string.
      rewrite text_data_element by (rewrite strip_is_element; exact Helem).
      rewrite strip_text_filter, (Htext Ht). cbn [List.filter is_empty_text].
      destruct (String.eqb_spec (c_str (nd_text r)) "") as [Hempty|Hfull];
        cbn [negb head].
      * right. split; [reflexivity|].
        split; [rewrite <- Hplain, Hempty; reflexivity|].
        intros ar Har. destruct (is_required ar) eqn:Hreq; [exfalso|reflexivity].
        pose proof (walk_Ok_all sub node _ r H) as Hall.
        rewrite List.Forall_forall in Hall.
        pose proof (proj1 (succeeds_Text ar node) (Hall _ Har)) as [Hfound|Hopt];
          [|congruence].
        pose proof (walk_text sub node Hn _ r H) as Hr.
        rewrite Ht, Hfound in Hr. cbn [andb negb] in Hr.
        unfold text_empty, text_as_string in Hfound, Hr.
        destruct (text_data node) as [d|] eqn:Hd; [|discriminate].
        apply (text_nonempty_data node d Hne Hd).
        rewrite Hr in Hempty. exact Hempty.
      * left. split; [reflexivity|exact Hplain].
    + intros m' sub' la' Hin. exact (proj2 (Hlists m' sub' la' Hin) Hne).
Qed.

Lemma round_trip_descriptor (d : Descriptor) :
  unambiguous d = true ->
  match d with
  | NodeList m sub _ => round_trip_at m sub
  | _ => True
  end.
Proof.
  induction d as [|name args|args|name args IH|m sub la IH]
    using Descriptor_nested_ind; intros Hu; try exact I.
  cbn [unambiguous] in Hu. apply round_trip_args; [exact Hu|].
  intros m' sub' la' Hin. rewrite List.Forall_forall in IH.
  apply (IH _ Hin). apply andb_true_iff in Hu as [Hall _].
  rewrite forallb_forall in Hall. exact (Hall _ Hin).
Qed.

(** For every unambiguous schema, the record read from a node is written
    as an element that is read back as the same record. *)
Lemma round_trip_node (name : string) (args : list Descriptor) :
  unambiguous_args args = true -> round_trip_at name args.
Proof.
  intros Hu. apply round_trip_args; [exact Hu|].
  intros m' sub' la' Hin. apply unambiguous_args_inv in Hu as (_ & _ & Hall).
  rewrite List.Forall_forall in Hall.
  exact (round_trip_descriptor (NodeList m' sub' la') (Hall _ Hin)).
Qed.

(** *** The tokenizer makes no empty character data *)

Lemma text_nonempty_element (nm : string) (a : list xml_attribute_struct)
    (cs : list xml_node_struct) :
  nodes_nonempty cs -> text_nonempty (node_element nm a cs) = true.
Proof.
  intros H. cbn. apply forallb_forall. unfold nodes_nonempty in H.
  rewrite List.Forall_forall in H. exact H.
Qed.

Lemma nodes_nonempty_rev (l : list xml_node_struct) :
  nodes_nonempty l -> nodes_nonempty (rev l).
Proof. unfold nodes_nonempty. apply Forall_rev. Qed.

Lemma close_element_nonempty (f : open_element) :
  nodes_nonempty (open_children f) -> text_nonempty (close_element f) = true.
Proof. intros H. apply text_nonempty_element, nodes_nonempty_rev, H. Qed.

Lemma push_node_nonempty (n : xml_node_struct) (cur : cursor) :
  text_nonempty n = true -> cursor_nonempty cur -> cursor_nonempty (push_node n cur).
Proof.
  intros Hn [Hdoc Hopen]. unfold push_node.
  destruct (open_elements cur) as [|f fs] eqn:Hfs; split; cbn.
  - constructor; assumption.
  - constructor.
  - exact Hdoc.
  - inversion Hopen; subst. constructor; [|assumption]. constructor; assumption.
Qed.

Lemma push_element_nonempty (name_ : string) (cur : cursor) :
  cursor_nonempty cur -> cursor_nonempty (push_element name_ cur).
Proof.
  intros [Hdoc Hopen]. split; cbn; [exact Hdoc|].
  constructor; [constructor|exact Hopen].
Qed.

Lemma pop_element_nonempty (cur : cursor) :
  cursor_nonempty cur -> cursor_nonempty (pop_element cur).
Proof.
  intros [Hdoc Hopen]. unfold pop_element.
  destruct (open_elements cur) as [|f fs] eqn:Hfs; [split; [exact Hdoc|]|].
  - rewrite Hfs. constructor.
  - inversion Hopen; subst. apply push_node_nonempty.
    + apply close_element_nonempty. assumption.
    + split; assumption.
Qed.

Lemma push_attribute_nonempty (name_ : string) (cur : cursor) :
  cursor_nonempty cur -> cursor_nonempty (push_attribute name_ cur).
Proof.
  intros [Hdoc Hopen]. unfold push_attribute.
  destruct (open_elements cur) as [|f fs] eqn:Hfs; [split; [exact Hdoc|]|].
  - rewrite Hfs. constructor.
  - inversion Hopen; subst. split; [exact Hdoc|]. constructor; assumption.
Qed.

Lemma set_attribute_value_nonempty (v : string) (cur : cursor) :
  cursor_nonempty cur -> cursor_nonempty (set_attribute_value v cur).
Proof.
  intros [Hdoc Hopen]. unfold set_attribute_value.
  destruct (open_elements cur) as [|f fs] eqn:Hfs; [split; [exact Hdoc|]|].
  - rewrite Hfs. constructor.
  - inversion Hopen; subst. split; [exact Hdoc|]. constructor; assumption.
Qed.

Lemma unescape_nonempty (acc : string) : acc <> "" -> unescape acc <> "".
Proof.
  destruct acc as [|c acc]; [congruence|]. intros _.
  unfold unescape. cbn [unescape_from].
  repeat match goal with
         | |- context [if ?b then _ else _] => destruct b
         end; discriminate.
Qed.

Lemma push_pcdata_nonempty (acc : string) (cur : cursor) :
  cursor_nonempty cur -> cursor_nonempty (push_pcdata acc cur).
Proof.
  intros H. unfold push_pcdata. destruct (open_elements cur); [exact H|].
  destruct (all_space acc) eqn:Hacc; [exact H|].
  apply push_node_nonempty; [|exact H]. cbn. apply negb_true_iff, String.eqb_neq.
  apply unescape_nonempty. intros ->. discriminate.
Qed.

Lemma step_nonempty (c : ascii) (m : mode) (cur : cursor) :
  cursor_nonempty cur ->
  match step c m cur with
  | inl (_, cur') => cursor_nonempty cur'
  | inr (_, cur') => cursor_nonempty cur'
  end.
Proof.
  intros H. destruct m; cbn [step];
    repeat match goal with
           | |- context [if ?b then _ else _] => destruct b
           end;
    auto using push_pcdata_nonempty, push_element_nonempty, pop_element_nonempty,
               push_attribute_nonempty, set_attribute_value_nonempty.
Qed.

Lemma at_end_nonempty (m : mode) (cur : cursor) :
  cursor_nonempty cur -> cursor_nonempty (snd (at_end m cur)).
Proof.
  intros H. destruct m; cbn [at_end snd];
    auto using push_element_nonempty, push_attribute_nonempty.
  pose proof (push_pcdata_nonempty acc cur H) as H'.
  destruct (open_elements (push_pcdata acc cur)); [|exact H'].
  destruct (existsb _ _); exact H'.
Qed.

Lemma unwind_nonempty (fs : list open_element) :
  forall inner doc,
    text_nonempty inner = true ->
    nodes_nonempty doc ->
    Forall (fun f => nodes_nonempty (open_children f)) fs ->
    nodes_nonempty (unwind inner fs doc).
Proof.
  induction fs as [|f fs IH]; intros inner doc Hinner Hdoc Hfs; cbn [unwind].
  - constructor; assumption.
  - inversion Hfs; subst. apply IH; [|assumption|assumption].
    apply close_element_nonempty. cbn. constructor; assumption.
Qed.

Lemma tree_of_nonempty (cur : cursor) :
  cursor_nonempty cur -> nodes_nonempty (tree_of cur).
Proof.
  intros [Hdoc Hopen]. unfold tree_of.
  destruct (open_elements cur) as [|f fs]; apply nodes_nonempty_rev; [exact Hdoc|].
  inversion Hopen; subst.
  apply unwind_nonempty; [apply close_element_nonempty| |]; assumption.
Qed.

Lemma parse_tree_nonempty (s : string) :
  forall m cur,
    cursor_nonempty cur -> nodes_nonempty (snd (parse_tree s m cur)).
Proof.
  induction s as [|c s IH]; intros m cur H; cbn [parse_tree].
  - pose proof (at_end_nonempty m cur H) as H'.
    destruct (at_end m cur) as [st cur']. apply tree_of_nonempty, H'.
  - pose proof (step_nonempty c m cur H) as H'.
    destruct (step c m cur) as [[st cur']|[m' cur']].
    + apply tree_of_nonempty, H'.
    + apply IH, H'.
Qed.

(** No tree that the modelled [load_buffer] leaves has an empty character
    data node. *)
Lemma load_buffer_nonempty (s : string) :
  text_nonempty_handle (document_element (snd (load_buffer s))) = true.
Proof.
  pose proof (parse_tree_nonempty s (in_pcdata EmptyString) (mk_cursor [] [])) as H.
  unfold load_buffer, document_element.
  assert (Hinit : cursor_nonempty (mk_cursor [] [])) by (split; constructor).
  specialize (H Hinit). unfold nodes_nonempty in H. rewrite List.Forall_forall in H.
  destruct (List.find is_element _) as [e|] eqn:He; [|reflexivity].
  apply List.find_some in He as [Hin _]. exact (H e Hin).
Qed.

(** *** The whole document *)

(** C1, as stated, fails: the nested [Node] is parsed into the record of
    the root and overwrites its name, so [parse] returns a record that
    [serialize] refuses. *)
Lemma round_trip_counterexample :
  exists r : NodeData,
    parse "<root><child/></root>" "root" nested_schema = Ok r
    /\ nd_name r = "child"
    /\ serialize r "root" nested_schema = Throw (NodeNameMismatch "root" "child").
Proof.
  eexists. split; [vm_compute; reflexivity|]. split; vm_compute; reflexivity.
Qed.

(** With two lists of the same inner name the text is printed and read
    back, but the record read back has more children. *)
Lemma round_trip_two_lists :
  exists (r r' : NodeData) (out : string) (recs recs' : list NodeData),
    parse "<root><data/></root>" "root" two_lists = Ok r
    /\ serialize r "root" two_lists = Ok out
    /\ parse out "root" two_lists = Ok r'
    /\ nd_subnodes r !! "data" = Some recs /\ length recs = 2%nat
    /\ nd_subnodes r' !! "data" = Some recs' /\ length recs' = 8%nat.
Proof.
  eexists _, _, _, _, _.
  split; [vm_compute; reflexivity|]. split; [vm_compute; reflexivity|].
  split; [vm_compute; reflexivity|]. split; [vm_compute; reflexivity|].
  split; [reflexivity|]. split; [vm_compute; reflexivity|]. reflexivity.
Qed.

(** A character data node that is present and empty passes a required
    [Text]; it is printed as nothing, and the text read back has no
    character data node at all. *)
Example round_trip_empty_text_node :
  exists r : NodeData,
    parse_document [node_element "root" [] [node_pcdata EmptyString]]
      "root" [Text [Required]] = Ok r
    /\ nd_text r = EmptyString
    /\ serialize r "root" [Text [Required]] = Ok "<root></root>"
    /\ parse "<root></root>" "root" [Text [Required]] = Throw MissingRequiredText.
Proof.
  eexists. split; [vm_compute; reflexivity|]. split; [reflexivity|].
  split; vm_compute; reflexivity.
Qed.

Lemma serialize_document_build (data : NodeData) (name : string)
    (args : list Descriptor) (n : xml_node_struct) :
  Node_build name args data = Ok n ->
  serialize_document data name args = Ok [n].
Proof.
  unfold Node_build, serialize_document. intros H.
  apply bind_Ok in H as (root & Hroot & H). apply bind_Ok in H as (b & Hb & H).
  injection H as <-. rewrite Hroot. cbn [bind]. rewrite Hb. reflexivity.
Qed.

Lemma parse_document_single (name : string) (args : list Descriptor)
    (n : xml_node_struct) :
  is_element n = true ->
  struct_name n = name ->
  parse_document [n] name args = Node_parse name args empty_NodeData (Some n).
Proof.
  intros He Hn. unfold parse_document, document_element. cbn [List.find].
  rewrite He, Node_validate_present, Hn, String.eqb_refl. reflexivity.
Qed.

(** C1, amended. Take a schema in which no [Node] stands directly among
    the descriptors of a node and no two lists of a node have the same
    inner name.  For every record [r] that [parse] returns, [serialize]
    builds a document and prints it; that document is parsed into [r];
    and the printed text is parsed into [r] whenever the document that
    was parsed has no empty character data node and the tree collaborator
    reloads the printed text as the document that was printed, up to its
    empty character data nodes. *)
Theorem round_trip :
  forall (s name : string) (args : list Descriptor) (r : NodeData),
    unambiguous_args args = true ->
    parse s name args = Ok r ->
    exists doc' : xml_document,
      serialize_document r name args = Ok doc'
      /\ serialize r name args = Ok (print doc')
      /\ parse_document doc' name args = Ok r
      /\ (text_nonempty_handle (document_element (snd (load_buffer s))) = true ->
          snd (load_buffer (print doc')) = strip_document doc' ->
          parse (print doc') name args = Ok r).
Proof.
  intros s name args r Hu H. unfold parse, parse_document in H.
  apply bind_Ok in H as (b & _ & H).
  destruct (round_trip_node name args Hu _ r H) as (n & Hbuild & Htree & Hstrip).
  pose proof (Node_build_named name args r n Hbuild) as (He & Hn & _).
  pose proof (serialize_document_build r name args n Hbuild) as Hdoc.
  exists [n]. split; [exact Hdoc|]. split.
  - unfold serialize. rewrite Hdoc. reflexivity.
  - split.
    + rewrite (parse_document_single name args n He Hn). exact Htree.
    + intros Hfull Hload. unfold parse. rewrite Hload.
      unfold strip_document. cbn [flat_map app].
      assert (Hne : is_empty_text n = false) by (destruct n; [reflexivity|discriminate]).
      rewrite Hne. cbn [app]. rewrite parse_document_single.
      * exact (Hstrip Hfull).
      * rewrite strip_is_element. exact He.
      * rewrite strip_name. exact Hn.
Qed.

Lemma round_trip_witness :
  (exists (r : NodeData) (out : string),
      parse scenario5 xml_name xml_args = Ok r
      /\ serialize r xml_name xml_args = Ok out
      /\ parse out xml_name xml_args = Ok r)
  /\ (exists (r : NodeData) (out : string),
         parse "<root/>" "root" [Text []] = Ok r
         /\ serialize r "root" [Text []] = Ok out
         /\ parse out "root" [Text []] = Ok r).
Proof.
  split.
  - destruct (parse scenario5 xml_name xml_args) as [r|e] eqn:Hr;
      [|vm_compute in Hr; discriminate].
    assert (Hu : unambiguous_args xml_args = true) by (vm_compute; reflexivity).
    destruct (round_trip scenario5 xml_name xml_args r Hu Hr)
      as (doc' & Hdoc & Hser & _ & Htext).
    exists r, (print doc'). split; [reflexivity|]. split; [exact Hser|].
    apply Htext; [vm_compute; reflexivity|]. vm_compute in Hr. injection Hr as <-.
    vm_compute in Hdoc. injection Hdoc as <-. vm_compute. reflexivity.
  - destruct (parse "<root/>" "root" [Text []]) as [r|e] eqn:Hr;
      [|vm_compute in Hr; discriminate].
    assert (Hu : unambiguous_args [Text []] = true) by (vm_compute; reflexivity).
    destruct (round_trip "<root/>" "root" [Text []] r Hu Hr)
      as (doc' & Hdoc & Hser & _ & Htext).
    exists r, (print doc'). split; [reflexivity|]. split; [exact Hser|].
    apply Htext; [vm_compute; reflexivity|]. vm_compute in Hr. injection Hr as <-.
    vm_compute in Hdoc. injection Hdoc as <-. vm_compute. reflexivity.
Defined.

(** ** When [serialize] returns a text *)

Lemma foldM_succeeds_iff {A B} (f : A -> B -> result A) (p : B -> bool) (l : list B) :
  (forall a b, In b l -> (exists a', f a b = Ok a') <-> p b = true) ->
  forall a, (exists a', foldM f l a = Ok a') <-> forallb p l = true.
Proof.
  induction l as [|b l IH]; intros H a; cbn [foldM forallb].
  - split; [reflexivity|eauto].
  - rewrite andb_true_iff. split.
    + intros (a' & Ha'). apply bind_Ok in Ha' as (a1 & H1 & Ha').
      split.
      * apply (H a b (or_introl eq_refl)). eauto.
      * apply (IH (fun a0 b0 Hb0 => H a0 b0 (or_intror Hb0)) a1). eauto.
    + intros [Hb Hl]. apply (H a b (or_introl eq_refl)) in Hb as (a1 & H1).
      rewrite H1. cbn [bind].
      apply (IH (fun a0 b0 Hb0 => H a0 b0 (or_intror Hb0)) a1). exact Hl.
Qed.

Lemma Node_serialize_succeeds (m : string) (sub : list Descriptor) :
  Forall (fun d => forall parent data,
            (exists p', serialize_subnode d parent data = Ok p')
            <-> c_named d data = true) sub ->
  forall parent data,
    (exists p', Node_serialize m sub parent data = Ok p')
    <-> String.eqb m (c_str (nd_name data))
        && forallb (fun d' => c_named d' data) sub = true.
Proof.
  intros IH parent data. rewrite List.Forall_forall in IH.
  pose proof (foldM_succeeds_iff
                (fun node desc => serialize_subnode desc node data)
                (fun d' => c_named d' data) sub
                (fun a b Hb => IH b Hb a data) (new_element (c_str (nd_name data)))) as Hwalk.
  unfold Node_serialize, serialize_subnodes. rewrite andb_true_iff. split.
  - intros (p' & H). apply bind_Ok in H as (node & Hnode & H).
    apply bind_Ok in H as (b & Hb & _).
    pose proof (serialize_subnodes_name sub _ _ data Hnode) as Hname.
    cbn [new_element struct_name] in Hname.
    rewrite Node_validate_present, Hname in Hb.
    split; [|apply Hwalk; eauto].
    destruct (String.eqb m (c_str (nd_name data))); [reflexivity|discriminate].
  - intros [Hm Hsub]. apply Hwalk in Hsub as (node & Hnode).
    pose proof (serialize_subnodes_name sub _ _ data Hnode) as Hname.
    cbn [new_element struct_name] in Hname.
    unfold serialize_subnodes in Hnode. rewrite Hnode. cbn [bind].
    rewrite Node_validate_present, Hname, Hm. cbn [bind]. eauto.
Qed.

Lemma serialize_subnode_succeeds (d : Descriptor) :
  forall (parent : xml_node_struct) (data : NodeData),
    (exists p', serialize_subnode d parent data = Ok p') <-> c_named d data = true.
Proof.
  induction d as [|k ar|ar|m sub IH|m sub la IH]
    using Descriptor_nested_ind; intros parent data.
  - cbn. split; eauto.
  - cbn. split; eauto.
  - cbn. split; eauto.
  - rewrite serialize_subnode_Node. cbn [c_named].
    exact (Node_serialize_succeeds m sub IH parent data).
  - rewrite serialize_subnode_NodeList. unfold NodeList_serialize. cbn [c_named].
    destruct (nd_subnodes data !! m) as [subs|]; cbn [default forallb];
      [|split; eauto].
    apply (foldM_succeeds_iff
             (fun parent child => Node_serialize m sub parent child)
             (fun c => String.eqb m (c_str (nd_name c))
                       && forallb (fun d' => c_named d' c) sub)).
    intros a c _. exact (Node_serialize_succeeds m sub IH a c).
Qed.

Lemma serialize_succeeds (data : NodeData) (name : string) (args : list Descriptor) :
  (exists out : string, serialize data name args = Ok out)
  <-> c_named (Node name args) data = true.
Proof.
  pose proof (serialize_subnode_succeeds (Node name args)
                (new_element EmptyString) data) as H.
  rewrite <- H, serialize_subnode_Node.
  unfold serialize, serialize_document, Node_serialize.
  destruct (serialize_subnodes (new_element (c_str (nd_name data))) data args) as [root|e];
    cbn [bind]; [|split; intros (x & Hx); discriminate].
  destruct (Node_validate name args (Some root)) as [b|e]; cbn [bind];
    split; intros (x & Hx); try discriminate; eauto.
Qed.

Lemma named_by_key_intro (r : NodeData) :
  (forall m recs c, nd_subnodes r !! m = Some recs -> In c recs ->
                    nd_name c = of_c_str m /\ named_by_key c) ->
  named_by_key r.
Proof.
  intros H c m recs c' Hst Hm Hc'.
  inversion Hst as [|c1 c2 r1 m1 recs1 Hm1 Hin1 Hst1]; subst.
  - exact (proj1 (H m recs c' Hm Hc')).
  - exact (proj2 (H m1 recs1 c2 Hm1 Hin1) c m recs c' Hst1 Hm Hc').
Qed.

Lemma named_by_key_below (r c : NodeData) (m : string) (recs : list NodeData) :
  named_by_key r ->
  nd_subnodes r !! m = Some recs ->
  In c recs ->
  nd_name c = of_c_str m /\ named_by_key c.
Proof.
  intros H Hm Hc. split; [exact (H r m recs c (stored_here r) Hm Hc)|].
  intros c0 m0 recs0 c' Hst. apply H.
  exact (stored_below c0 c r m recs Hm Hc Hst).
Qed.

Lemma no_node_inside_no_nested (args : list Descriptor) :
  forallb no_node_inside args = true -> no_nested_node args = true.
Proof.
  intros H. unfold no_nested_node. apply forallb_forall. intros d Hd.
  rewrite forallb_forall in H. specialize (H d Hd). destruct d; try reflexivity.
  discriminate.
Qed.

Lemma new_records_named_walk (args : list Descriptor) (node : xml_node) :
  Forall (fun d => forall data data' node,
            parse_subnode d data node = Ok data' ->
            new_records_named data data') args ->
  forall data data',
    parse_subnodes data node args = Ok data' -> new_records_named data data'.
Proof.
  induction 1 as [|d args Hd _ IH]; intros data data' H.
  - cbn in H. injection H as <-. intros m recs' c Hm Hc. left. eauto.
  - rewrite parse_subnodes_cons in H. apply bind_Ok in H as (data1 & H1 & H).
    intros m recs' c Hm Hc.
    destruct (IH data1 data' H m recs' c Hm Hc) as [(recs1 & Hm1 & Hc1)|Hnew];
      [|right; exact Hnew].
    exact (Hd data data1 node H1 m recs1 c Hm1 Hc1).
Qed.

Lemma parse_subnode_new_named (d : Descriptor) :
  no_node_inside d = true ->
  forall (data data' : NodeData) (node : xml_node),
    parse_subnode d data node = Ok data' -> new_records_named data data'.
Proof.
  induction d as [|k ar|ar|name args IH|name node_args args IH]
    using Descriptor_nested_ind; intros Hd data data' node H.
  - cbn in H. injection H as <-. intros m recs' c Hm Hc. left. eauto.
  - apply parse_subnode_plain_inv in H. cbv beta iota in H. subst data'.
    intros m recs' c Hm Hc. left. destruct (attribute node k); eauto.
  - apply parse_subnode_plain_inv in H. cbv beta iota in H. subst data'.
    intros m recs' c Hm Hc. left. destruct (text_empty node); eauto.
  - discriminate.
  - cbn [no_node_inside] in Hd.
    apply parse_subnode_plain_inv in H as (recs & Hrecs & ->).
    intros m recs' c Hm Hc. cbn [append_subnodes nd_subnodes] in Hm.
    destruct (decide (name = m)) as [<-|Hne].
    + rewrite lookup_insert_eq in Hm. injection Hm as <-.
      apply in_app_or in Hc as [Hc|Hc].
      * left. destruct (nd_subnodes data !! name) as [old|]; [eauto|destruct Hc].
      * right. unfold parse_children in Hrecs. apply mapM_Ok_all in Hrecs.
        destruct (Forall2_In_r _ _ _ c Hrecs Hc) as (x & _ & Hx).
        unfold Node_parse in Hx. split.
        -- exact (walk_name node_args (Some x)
                    (no_node_inside_no_nested _ Hd) _ c Hx).
        -- assert (Hall : Forall (fun d => forall data data' node,
                             parse_subnode d data node = Ok data' ->
                             new_records_named data data') node_args).
           { rewrite List.Forall_forall in IH. apply List.Forall_forall.
             intros d Hin. apply (IH d Hin).
             rewrite forallb_forall in Hd. exact (Hd d Hin). }
           pose proof (new_records_named_walk node_args _ Hall _ c Hx) as Hbelow.
           apply named_by_key_intro. intros m1 recs1 c1 Hm1 Hc1.
           destruct (Hbelow m1 recs1 c1 Hm1 Hc1) as [(recs0 & H0 & _)|Hnew];
             [|exact Hnew].
           cbn in H0. rewrite lookup_empty in H0. discriminate.
    + rewrite lookup_insert_ne in Hm by exact Hne. left. eauto.
Qed.

Lemma c_named_by_key (d : Descriptor) :
  no_node_inside d = true ->
  forall r : NodeData, named_by_key r -> c_named d r = true.
Proof.
  induction d as [|k ar|ar|name args IH|name node_args args IH]
    using Descriptor_nested_ind; intros Hd r Hr; try reflexivity; [discriminate|].
  cbn [no_node_inside] in Hd. cbn [c_named].
  destruct (nd_subnodes r !! name) as [recs|] eqn:Hm; [|reflexivity].
  cbn [default]. apply forallb_forall. intros c Hc.
  destruct (named_by_key_below r c name recs Hr Hm Hc) as [Hname Hkey].
  rewrite Hname. cbn [c_str of_c_str]. rewrite String.eqb_refl. cbn [andb].
  apply forallb_forall. intros d Hin. rewrite List.Forall_forall in IH.
  apply (IH d Hin); [|exact Hkey]. rewrite forallb_forall in Hd. exact (Hd d Hin).
Qed.

(** [serialize] takes every record that [parse] returns for a schema
    without a [Node] directly among the descriptors of a node. *)
Lemma parse_builds (s name : string) (args : list Descriptor) (r : NodeData) :
  forallb no_node_inside args = true ->
  parse s name args = Ok r ->
  exists doc', serialize_document r name args = Ok doc'.
Proof.
  intros Hu H. apply parse_walk in H.
  assert (Hnamed : c_named (Node name args) r = true).
  { cbn [c_named].
    rewrite (walk_name args _ (no_node_inside_no_nested _ Hu) _ r H).
    cbn [nd_name set_name c_str of_c_str]. rewrite String.eqb_refl. cbn [andb].
    assert (Hall : Forall (fun d => forall data data' node,
                      parse_subnode d data node = Ok data' ->
                      new_records_named data data') args).
    { apply List.Forall_forall. intros d Hin. apply parse_subnode_new_named.
      rewrite forallb_forall in Hu. exact (Hu d Hin). }
    pose proof (new_records_named_walk args _ Hall _ r H) as Hbelow.
    assert (Hkey : named_by_key r).
    { apply named_by_key_intro. intros m1 recs1 c1 Hm1 Hc1.
      destruct (Hbelow m1 recs1 c1 Hm1 Hc1) as [(recs0 & H0 & _)|Hnew];
        [|exact Hnew].
      cbn in H0. rewrite lookup_empty in H0. discriminate. }
    apply forallb_forall. intros d Hin. apply c_named_by_key; [|exact Hkey].
    rewrite forallb_forall in Hu. exact (Hu d Hin). }
  apply serialize_succeeds in Hnamed as (out & Hout). unfold serialize in Hout.
  destruct (serialize_document r name args) as [doc'|e]; [eauto|discriminate].
Qed.

(** ** Lists: order and count *)

(** The list of a name that no descriptor captures is left as it was, also
    by a nested [Node]. *)
Lemma parse_subnode_subnodes_other (d : Descriptor) (m : string) :
  m ∉ captured_lists d ->
  forall (data data' : NodeData) (node : xml_node),
    parse_subnode d data node = Ok data' ->
    nd_subnodes data' !! m = nd_subnodes data !! m.
Proof.
  induction d as [|k ar|ar|name args IH|name node_args args IH]
    using Descriptor_nested_ind; intros Hm data data' node H.
  - cbn in H. congruence.
  - apply parse_subnode_plain_inv in H. cbv beta iota in H. subst data'.
    destruct (attribute node k); reflexivity.
  - apply parse_subnode_plain_inv in H. cbv beta iota in H. subst data'.
    destruct (text_empty node); reflexivity.
  - rewrite parse_subnode_Node in H. apply bind_Ok in H as (b & _ & H).
    destruct b; [|congruence]. unfold Node_parse, parse_subnodes in H.
    cbn [captured_lists] in Hm.
    apply (foldM_invariant
             (fun x => nd_subnodes x !! m = nd_subnodes data !! m)) in H;
      [exact H|reflexivity|].
    intros x d y Hd Hx Hy. rewrite <- Hx. rewrite List.Forall_forall in IH.
    apply (IH d Hd) with (node := Node_subnode name node); [|exact Hy].
    intros Hin. apply Hm. apply elem_of_flat_map. exists d.
    split; [apply list_elem_of_In, Hd|exact Hin].
  - apply parse_subnode_plain_inv in H as (recs & _ & ->).
    cbn. apply lookup_insert_ne. cbn in Hm. set_solver.
Qed.

Lemma parse_walk_subnodes_other (args : list Descriptor) (node : xml_node)
    (m : string) :
  m ∉ list_names args ->
  forall data r,
    parse_subnodes data node args = Ok r ->
    nd_subnodes r !! m = nd_subnodes data !! m.
Proof.
  intros Hm data r H. unfold parse_subnodes in H.
  apply (foldM_invariant (fun x => nd_subnodes x !! m = nd_subnodes data !! m)) in H;
    [exact H|reflexivity|].
  intros x d y Hd Hx Hy. rewrite <- Hx.
  apply (parse_subnode_subnodes_other d m) with (node := node); [|exact Hy].
  intros Hin. apply Hm. apply elem_of_flat_map. exists d.
  split; [apply list_elem_of_In, Hd|exact Hin].
Qed.

Lemma parse_walk_subnodes_list (pre post : list Descriptor) (m : string)
    (node_args list_args : list Descriptor) (node : xml_node) :
  m ∉ list_names pre ->
  m ∉ list_names post ->
  forall data r,
    parse_subnodes data node (pre ++ NodeList m node_args list_args :: post) = Ok r ->
    exists recs,
      parse_children m node_args node = Ok recs
      /\ nd_subnodes r !! m = Some (default [] (nd_subnodes data !! m) ++ recs).
Proof.
  intros Hpre Hpost data r H.
  rewrite parse_subnodes_app in H. apply bind_Ok in H as (data1 & H1 & H).
  rewrite parse_subnodes_cons in H. apply bind_Ok in H as (data2 & Hd & H).
  apply parse_subnode_plain_inv in Hd as (recs & Hrecs & ->).
  exists recs. split; [exact Hrecs|].
  rewrite (parse_walk_subnodes_other post node m Hpost _ r H).
  cbn. rewrite lookup_insert_eq.
  rewrite (parse_walk_subnodes_other pre node m Hpre data data1 H1). reflexivity.
Qed.

(** One round of [serialize_subnodes] leaves the children of a name that
    the descriptor does not write. *)
Lemma serialize_subnode_children_other (d : Descriptor) (m : string)
    (nm : string) (a : list xml_attribute_struct) (cs : list xml_node_struct)
    (data : NodeData) (e1 : xml_node_struct) :
  m ∉ located_names d ->
  serialize_subnode d (node_element nm a cs) data = Ok e1 ->
  exists a1 cs1,
    e1 = node_element nm a1 cs1
    /\ List.filter (fun c => name_is m (struct_name c)) cs1
       = List.filter (fun c => name_is m (struct_name c)) cs.
Proof.
  intros Hm H. destruct (is_Node d) eqn:Hd.
  - destruct d as [| | |m' sub|]; try discriminate.
    rewrite serialize_subnode_Node, Node_serialize_build in H.
    apply bind_Ok in H as (n & Hn & H). injection H as <-.
    exists a, (cs ++ [n]). split; [reflexivity|].
    apply Node_build_named in Hn as (_ & Hn & _).
    rewrite List.filter_app. cbn [List.filter].
    destruct (name_is m (struct_name n)) eqn:Hname.
    + apply name_is_true in Hname as [_ Hname]. exfalso. apply Hm.
      cbn. rewrite Hname, Hn. left.
    + apply app_nil_r.
  - apply serialize_subnode_plain_inv in H as (cs1 & -> & Hcs1); [|exact Hd].
    eexists _, cs1. split; [reflexivity|].
    destruct d as [|k ar|ar|m' sub|m' sub la]; try discriminate;
      cbv beta iota in Hcs1.
    + subst cs1. reflexivity.
    + subst cs1. reflexivity.
    + subst cs1. apply filter_named_set_first.
    + destruct Hcs1 as (nodes & Hnodes & ->).
      rewrite List.filter_app, (filter_named_other m m' nodes), app_nil_r;
        [reflexivity| |exact (build_children_named _ _ _ _ Hnodes)].
      intros ->. apply Hm. cbn. left.
Qed.

Lemma serialize_children_other (args : list Descriptor) (data : NodeData)
    (m : string) :
  m ∉ flat_map located_names args ->
  forall nm a cs e',
    serialize_subnodes (node_element nm a cs) data args = Ok e' ->
    exists a' cs',
      e' = node_element nm a' cs'
      /\ List.filter (fun c => name_is m (struct_name c)) cs'
         = List.filter (fun c => name_is m (struct_name c)) cs.
Proof.
  induction args as [|d args IH]; intros Hm nm a cs e' H.
  - cbn in H. injection H as <-. eauto.
  - cbn [flat_map] in Hm.
    rewrite serialize_subnodes_cons in H. apply bind_Ok in H as (e1 & H1 & H).
    apply (serialize_subnode_children_other d m) in H1 as (a1 & cs1 & -> & Hcs1);
      [|set_solver].
    destruct (IH ltac:(set_solver) _ _ _ _ H) as (a' & cs' & -> & Hcs').
    exists a', cs'. split; [reflexivity|]. congruence.
Qed.

(** The children of the name of the one list that writes them: the
    elements built from the records of that list, in order. *)
Lemma serialize_children_list (pre post : list Descriptor) (m : string)
    (node_args list_args : list Descriptor) (data : NodeData) :
  m ∉ flat_map located_names pre ->
  m ∉ flat_map located_names post ->
  forall nm e',
    serialize_subnodes (node_element nm [] []) data
                       (pre ++ NodeList m node_args list_args :: post) = Ok e' ->
    exists nodes,
      build_children m node_args (default [] (nd_subnodes data !! m)) = Ok nodes
      /\ children (Some e') m
         = List.filter (fun c => name_is m (struct_name c)) nodes.
Proof.
  intros Hpre Hpost nm e' H.
  rewrite serialize_subnodes_app in H. apply bind_Ok in H as (e1 & H1 & H).
  rewrite serialize_subnodes_cons in H. apply bind_Ok in H as (e2 & H2 & H).
  destruct (serialize_children_other pre data m Hpre _ _ _ _ H1)
    as (a1 & cs1 & -> & Hcs1).
  apply serialize_subnode_plain_inv in H2 as (cs2 & -> & nodes & Hnodes & ->);
    [|reflexivity].
  destruct (serialize_children_other post data m Hpost _ _ _ _ H)
    as (a3 & cs3 & -> & Hcs3).
  exists nodes. split; [exact Hnodes|].
  cbn [children struct_children]. rewrite Hcs3, List.filter_app, Hcs1. reflexivity.
Qed.

Lemma located_names_lists (args : list Descriptor) (m : string) :
  m ∈ flat_map located_names args ->
  m ∈ list_names args \/ m ∈ node_names args.
Proof.
  intros H. apply elem_of_flat_map in H as (d & Hd & H).
  destruct d as [|k ar|ar|m' sub|m' sub la]; cbn in H; try (inversion H; fail).
  - right. apply elem_of_flat_map. exists (Node m' sub). split; [exact Hd|exact H].
  - left. apply elem_of_flat_map. exists (NodeList m' sub la). split; [exact Hd|exact H].
Qed.

(** C7, as stated, fails: with two lists of the same inner name, one child
    of that name is stored twice; with a [Node] directly among the
    descriptors of the root, the record that [parse] returns bears the
    name of that node and [serialize] throws; and with such a [Node] of
    the inner name of the list, [serialize] writes one child more than
    the list has records. *)
Lemma list_count_counterexample :
  (length (children (document_element (snd (load_buffer "<root><data/></root>")))
                    "data") = 1%nat
   /\ exists r recs,
        parse "<root><data/></root>" "root" two_lists = Ok r
        /\ nd_subnodes r !! "data" = Some recs
        /\ length recs = 2%nat)
  /\ (exists r recs,
         parse "<root><child/><data/></root>" "root" node_and_list = Ok r
         /\ nd_subnodes r !! "data" = Some recs
         /\ length recs = 1%nat
         /\ serialize r "root" node_and_list
            = Throw (NodeNameMismatch "root" "child"))
  /\ (exists r recs,
         parse "<data><data/></data>" "data" node_named_as_list = Ok r
         /\ nd_subnodes r !! "data" = Some recs
         /\ length recs = 1%nat
         /\ serialize r "data" node_named_as_list
            = Ok "<data><data/><data/></data>").
Proof.
  split; [|split].
  - split; [vm_compute; reflexivity|].
    eexists _, _. split; [vm_compute; reflexivity|].
    split; vm_compute; reflexivity.
  - eexists _, _. split; [vm_compute; reflexivity|].
    split; [vm_compute; reflexivity|]. split; vm_compute; reflexivity.
  - eexists _, _. split; [vm_compute; reflexivity|].
    split; [vm_compute; reflexivity|]. split; vm_compute; reflexivity.
Qed.

(** C7, amended. Take a root descriptor with a [NodeList] of inner name
    [m], where no other descriptor of the root, nor of a [Node] nested in
    it, is a [NodeList] of that inner name.  When [parse] returns a
    record, its [subnodes] holds under [m] one record for each child of
    the document element named [m], the i-th record being the one parsed
    from the i-th child.  [serialize] of that record builds a document
    and prints it when, besides, no [Node] stands directly among the
    descriptors of a node, in the lists too; and in every document that
    it builds, when no [Node] directly
    among the descriptors of the root bears the name [m], the children
    named [m] of the root are, in order, the elements built from those
    records, so there are as many.  With the schema of [main],
    [scenario5] gives two records under [data], with the texts [D1] and
    [D2] in this order, and is printed back with both. *)
Theorem list_order_and_count :
  (forall (s name m : string) (pre post node_args list_args : list Descriptor)
          (r : NodeData),
      m ∉ list_names pre ->
      m ∉ list_names post ->
      parse s name (pre ++ NodeList m node_args list_args :: post) = Ok r ->
      exists recs : list NodeData,
        nd_subnodes r !! m = Some recs
        /\ Forall2 (fun c rec => Node_parse m node_args empty_NodeData (Some c) = Ok rec)
                   (children (document_element (snd (load_buffer s))) m) recs
        /\ length recs
           = length (children (document_element (snd (load_buffer s))) m)
        /\ (forallb no_node_inside (pre ++ NodeList m node_args list_args :: post)
              = true ->
            exists doc' : xml_document,
              serialize_document r name
                (pre ++ NodeList m node_args list_args :: post) = Ok doc'
              /\ serialize r name (pre ++ NodeList m node_args list_args :: post)
                 = Ok (print doc'))
        /\ (forall doc' : xml_document,
              m ∉ node_names pre ->
              m ∉ node_names post ->
              serialize_document r name
                (pre ++ NodeList m node_args list_args :: post) = Ok doc' ->
              exists root : xml_node_struct,
                doc' = [root]
                /\ Forall2 (fun rec n => Node_build m node_args rec = Ok n)
                           recs (children (Some root) m)
                /\ length (children (Some root) m)
                   = length (children (document_element (snd (load_buffer s))) m)))
  /\ (exists r d1 d2 : NodeData,
         parse scenario5 xml_name xml_args = Ok r
         /\ nd_subnodes r !! "data" = Some [d1; d2]
         /\ nd_text d1 = "D1" /\ nd_text d2 = "D2"
         /\ serialize r xml_name xml_args = Ok scenario5).
Proof.
  split.
  - intros s name m pre post node_args list_args r Hpre Hpost H0.
    pose proof (parse_walk _ _ _ _ H0) as H.
    destruct (parse_walk_subnodes_list pre post m node_args list_args _ Hpre Hpost _ _ H)
      as (recs & Hrecs & Hsub).
    cbn in Hsub. rewrite lookup_empty in Hsub. cbn in Hsub.
    exists recs. split; [exact Hsub|].
    unfold parse_children in Hrecs. apply mapM_Ok_all in Hrecs.
    split; [exact Hrecs|].
    split; [exact (Forall2_length_eq _ _ _ Hrecs)|].
    split.
    { intros Hu. destruct (parse_builds s name _ r Hu H0) as (doc' & Hdoc).
      exists doc'. split; [exact Hdoc|]. unfold serialize. rewrite Hdoc. reflexivity. }
    intros doc' Hnpre Hnpost Hdoc. unfold serialize_document in Hdoc.
    apply bind_Ok in Hdoc as (root & Hroot & Hdoc).
    apply bind_Ok in Hdoc as (b & _ & Hdoc). injection Hdoc as <-.
    exists root. split; [reflexivity|].
    assert (Hlpre : m ∉ flat_map located_names pre).
    { intros Hin. apply located_names_lists in Hin as [Hin|Hin]; tauto. }
    assert (Hlpost : m ∉ flat_map located_names post).
    { intros Hin. apply located_names_lists in Hin as [Hin|Hin]; tauto. }
    destruct (serialize_children_list pre post m node_args list_args r
                Hlpre Hlpost _ _ Hroot) as (nodes & Hnodes & Hchildren).
    rewrite Hsub in Hnodes. change (default [] (Some recs)) with recs in Hnodes.
    assert (Hsame : children (Some root) m = nodes).
    { rewrite Hchildren. destruct (decide (m = "")) as [->|Hne].
      - rewrite children_empty_name in Hrecs. inversion Hrecs; subst.
        cbn in Hnodes. injection Hnodes as <-. reflexivity.
      - apply filter_named_same; [exact Hne|].
        exact (build_children_named _ _ _ _ Hnodes). }
    rewrite Hsame. unfold build_children in Hnodes. apply mapM_Ok_all in Hnodes.
    split; [exact Hnodes|].
    rewrite (Forall2_length_eq _ _ _ Hnodes). exact (Forall2_length_eq _ _ _ Hrecs).
  - eexists _, _, _. split; [vm_compute; reflexivity|].
    split; [vm_compute; reflexivity|].
    split; [reflexivity|]. split; [reflexivity|]. vm_compute. reflexivity.
Qed.

Lemma list_order_and_count_witness :
  exists (recs : list NodeData) (root : xml_node_struct),
    length recs = 2%nat
    /\ length (children (Some root) "data") = 2%nat.
Proof.
  destruct (parse scenario5 xml_name xml_args) as [r|e] eqn:Hr;
    [|vm_compute in Hr; discriminate].
  destruct (proj1 list_order_and_count scenario5 xml_name "data"
              [Required; Attribute "key" [Required]; Attribute "client_id" []] []
              [Attribute "id" [Required]; Text [Required]] [] r)
    as (recs & _ & _ & Hlen & Hser & Hout).
  - vm_compute. set_solver.
  - vm_compute. set_solver.
  - exact Hr.
  - destruct Hser as (doc' & Hdoc & _); [vm_compute; reflexivity|].
    destruct (Hout doc') as (root & _ & _ & Hlen').
    + vm_compute. set_solver.
    + vm_compute. set_solver.
    + exact Hdoc.
    + exists recs, root. rewrite Hlen, Hlen'. split; vm_compute; reflexivity.
Defined.

(** * More properties of the descriptors and of the two walks *)

(** ** Required markers *)

Lemma is_required_In (args : list Descriptor) :
  is_required args = true <-> In Required args.
Proof.
  induction args as [|d args IH]; cbn [is_required In].
  - split; [discriminate|tauto].
  - destruct d; cbn [is_Required]; rewrite ?IH; split; intros H;
      try (right; exact H); try (destruct H as [H|H]; [discriminate|exact H]);
      try reflexivity; try (left; reflexivity).
Qed.

(** X1. [is_required_v<Args...>] holds exactly when [Required] is one of
    the arguments, at any position: the other arguments, and a [Required]
    inside one of them, do not count. *)
Theorem is_required_iff :
  forall args : list Descriptor, is_required args = true <-> In Required args.
Proof. exact is_required_In. Qed.

(** X2. A [Required] among the descriptors of a node is looked at only by
    the [validate] of that node: the two walks over the descriptors do the
    same with and without it. *)
Theorem required_marker_inert :
  forall (args : list Descriptor) (data : NodeData) (node : xml_node)
         (parent : xml_node_struct),
    parse_subnodes data node (List.filter (fun d => negb (is_Required d)) args)
      = parse_subnodes data node args
    /\ serialize_subnodes parent data
         (List.filter (fun d => negb (is_Required d)) args)
       = serialize_subnodes parent data args.
Proof.
  induction args as [|d args IH]; intros data node parent; [split; reflexivity|].
  cbn [List.filter]. destruct (is_Required d) eqn:Hd; cbn [negb].
  - destruct d; try discriminate.
    rewrite parse_subnodes_cons, serialize_subnodes_cons.
    cbn [parse_subnode serialize_subnode bind]. apply IH.
  - rewrite !parse_subnodes_cons, !serialize_subnodes_cons. split.
    + destruct (parse_subnode d data node) as [d'|e]; cbn [bind]; [|reflexivity].
      apply (IH d' node parent).
    + destruct (serialize_subnode d parent data) as [p'|e]; cbn [bind];
        [|reflexivity].
      apply (IH data node p').
Qed.

(** X3. The arguments of a [NodeList] other than its inner node are never
    looked at, and the inner node is validated only on children that were
    located: without a child of that name the list is parsed into an empty
    entry, whatever is marked [Required]; and an exception of the list is
    the exception of [Node::parse] on one of the children. *)
Theorem list_never_required :
  forall (m : string) (sub la : list Descriptor) (data : NodeData) (node : xml_node),
    (NodeList_subnode m node = [] ->
     parse_subnode (NodeList m sub la) data node = Ok (append_subnodes m [] data))
    /\ (forall e : runtime_error,
           parse_subnode (NodeList m sub la) data node = Throw e ->
           exists c : xml_node_struct,
             In c (NodeList_subnode m node)
             /\ Node_parse m sub empty_NodeData (Some c) = Throw e).
Proof.
  intros m sub la data node. rewrite parse_subnode_NodeList. unfold NodeList_parse.
  split.
  - intros ->. reflexivity.
  - intros e H. apply bind_Throw in H as [H|(subs & _ & H)]; [|discriminate].
    exact (mapM_throw_inv _ _ _ H).
Qed.

Lemma list_never_required_witness :
  parse_subnode (NodeList "data" [Required; Text [Required]] [Required])
                empty_NodeData (Some (node_element "root" [] []))
  = Ok (append_subnodes "data" [] empty_NodeData).
Proof.
  apply (proj1 (list_never_required "data" [Required; Text [Required]] [Required]
                  empty_NodeData (Some (node_element "root" [] [])))).
  reflexivity.
Defined.

(** ** The order of the descriptors *)

Lemma is_required_Permutation (args args' : list Descriptor) :
  Permutation args args' -> is_required args' = is_required args.
Proof.
  intros HP.
  destruct (is_required args) eqn:H.
  - apply is_required_In. apply is_required_In in H.
    exact (Permutation_in _ HP H).
  - destruct (is_required args') eqn:H'; [|reflexivity].
    apply is_required_In in H'. apply Permutation_sym in HP.
    apply (Permutation_in _ HP), is_required_In in H'. congruence.
Qed.

Lemma no_nested_node_Permutation (args args' : list Descriptor) :
  Permutation args args' -> no_nested_node args = true -> no_nested_node args' = true.
Proof.
  unfold no_nested_node. rewrite !forallb_forall. intros HP H d Hd.
  apply H. exact (Permutation_in _ (Permutation_sym HP) Hd).
Qed.

Lemma has_text_Permutation (args args' : list Descriptor) :
  Permutation args args' -> has_text args' = has_text args.
Proof.
  intros HP. unfold has_text.
  destruct (existsb is_Text args) eqn:H.
  - apply existsb_exists. apply existsb_exists in H as (d & Hd & Ht).
    exists d. split; [exact (Permutation_in _ HP Hd)|exact Ht].
  - destruct (existsb is_Text args') eqn:H'; [|reflexivity].
    apply existsb_exists in H' as (d & Hd & Ht).
    assert (existsb is_Text args = true); [|congruence].
    apply existsb_exists. exists d.
    split; [exact (Permutation_in _ (Permutation_sym HP) Hd)|exact Ht].
Qed.

Lemma attribute_names_Permutation (args args' : list Descriptor) :
  Permutation args args' -> Permutation (attribute_names args) (attribute_names args').
Proof. intros HP. unfold attribute_names. apply Permutation_flat_map, HP. Qed.

Lemma list_names_Permutation (args args' : list Descriptor) :
  Permutation args args' -> Permutation (list_names args) (list_names args').
Proof. intros HP. unfold list_names. apply Permutation_flat_map, HP. Qed.

Lemma walk_permutation (args args' : list Descriptor) (data r : NodeData)
    (node : xml_node) :
  Permutation args args' ->
  no_nested_node args = true ->
  NoDup (list_names args) ->
  parse_subnodes data node args = Ok r ->
  parse_subnodes data node args' = Ok r.
Proof.
  intros HP Hn Hdup H.
  pose proof (no_nested_node_Permutation args args' HP Hn) as Hn'.
  pose proof (walk_Ok_all args node data r H) as Hall.
  assert (Hall' : Forall (fun d => succeeds d node) args').
  { rewrite List.Forall_forall in Hall |- *. intros d Hd.
    apply Hall. exact (Permutation_in _ (Permutation_sym HP) Hd). }
  destruct (walk_succeeds_all args' node Hall' data) as (r' & Hr').
  rewrite Hr'. f_equal. apply NodeData_eq.
  - rewrite (walk_name args' node Hn' data r' Hr'), (walk_name args node Hn data r H).
    reflexivity.
  - rewrite (walk_text args' node Hn' data r' Hr'), (walk_text args node Hn data r H).
    rewrite (has_text_Permutation args args' HP). reflexivity.
  - intros k.
    rewrite (walk_attributes args' node Hn' data r' Hr' k).
    rewrite (walk_attributes args node Hn data r H k).
    pose proof (attribute_names_Permutation args args' HP) as HA.
    destruct (decide (k ∈ attribute_names args)) as [Hk|Hk];
      destruct (decide (k ∈ attribute_names args')) as [Hk'|Hk']; try reflexivity.
    + exfalso. apply Hk'. rewrite <- HA. exact Hk.
    + exfalso. apply Hk. rewrite HA. exact Hk'.
  - intros m.
    pose proof (list_names_Permutation args args' HP) as HL.
    assert (Hdup' : NoDup (list_names args')) by (rewrite <- HL; exact Hdup).
    destruct (decide (m ∈ list_names args)) as [Hm|Hm].
    + destruct (elem_of_list_names args m Hn Hm) as (sub & la & Hin).
      pose proof (Permutation_in _ HP Hin) as Hin'.
      apply in_split in Hin as (pre & post & ->).
      apply in_split in Hin' as (pre' & post' & ->).
      destruct (NoDup_list_names_split pre post m sub la Hdup) as [Hpre Hpost].
      destruct (NoDup_list_names_split pre' post' m sub la Hdup') as [Hpre' Hpost'].
      destruct (walk_subnodes_list pre' post' m sub la node Hn' Hpre' Hpost' data r' Hr')
        as (recs' & Hrecs' & ->).
      destruct (walk_subnodes_list pre post m sub la node Hn Hpre Hpost data r H)
        as (recs & Hrecs & ->).
      congruence.
    + assert (Hm' : m ∉ list_names args') by (rewrite <- HL; exact Hm).
      rewrite (walk_subnodes_other args' node m Hn' Hm' data r' Hr').
      rewrite (walk_subnodes_other args node m Hn Hm data r H). reflexivity.
Qed.

(** X4. When no [Node] stands directly among the descriptors of the root
    and its lists have distinct inner names, the record that [parse]
    returns does not depend on the order in which the descriptors are
    given. *)
Theorem parse_order_independent :
  forall (s name : string) (args args' : list Descriptor) (r : NodeData),
    Permutation args args' ->
    no_nested_node args = true ->
    NoDup (list_names args) ->
    parse s name args = Ok r ->
    parse s name args' = Ok r.
Proof.
  intros s name args args' r HP Hn Hdup H. unfold parse, parse_document in *.
  apply bind_Ok in H as (b & Hb & H).
  assert (Hv : exists b', Node_validate name args' (document_element (snd (load_buffer s)))
                          = Ok b').
  { unfold Node_validate in Hb |- *.
    destruct (document_element (snd (load_buffer s))) as [e|].
    - destruct (String.eqb name (pugi.name (Some e))); [eauto|discriminate].
    - rewrite (is_required_Permutation args args' HP).
      destruct (is_required args); [discriminate|eauto]. }
  destruct Hv as (b' & ->). cbn [bind].
  exact (walk_permutation args args' _ r _ HP Hn Hdup H).
Qed.

Lemma parse_order_independent_witness :
  parse example5 xml_name (rev xml_args) = parse example5 xml_name xml_args.
Proof.
  destruct (parse example5 xml_name xml_args) as [r|e] eqn:H;
    [|vm_compute in H; discriminate].
  apply (parse_order_independent example5 xml_name xml_args (rev xml_args) r).
  - apply Permutation_rev.
  - reflexivity.
  - vm_compute. repeat constructor; set_solver.
  - exact H.
Defined.

(** The exception, on the other hand, is that of the first descriptor
    that throws. *)
Example error_depends_on_order :
  parse "<root/>" "root" [Attribute "a" [Required]; Attribute "b" [Required]]
    = Throw (MissingRequiredAttribute "a")
  /\ parse "<root/>" "root" [Attribute "b" [Required]; Attribute "a" [Required]]
     = Throw (MissingRequiredAttribute "b").
Proof. split; vm_compute; reflexivity. Qed.

(** ** What [parse] stores, field by field *)

(** X5. When no [Node] stands directly among the descriptors of the root
    and its lists have distinct inner names, the record that [parse]
    returns bears the declared name; its text is the text of the document
    element when the schema has a [Text] and the element has character
    data, and empty otherwise; its attributes are the declared attributes
    that the document element has; and it has one entry for each list,
    with the records of the children of that name. *)
Theorem parse_fields :
  forall (s name : string) (args : list Descriptor) (r : NodeData),
    no_nested_node args = true ->
    NoDup (list_names args) ->
    parse s name args = Ok r ->
    nd_name r = name
    /\ nd_text r =
         (if has_text args
             && negb (text_empty (document_element (snd (load_buffer s))))
          then text_as_string (document_element (snd (load_buffer s)))
          else EmptyString)
    /\ (forall k : string,
           nd_attributes r !! k =
             if decide (k ∈ attribute_names args)
             then of_c_str
                    <$> (attr_value
                           <$> attribute (document_element (snd (load_buffer s))) k)
             else None)
    /\ (forall m : string,
           if decide (m ∈ list_names args)
           then exists (sub la : list Descriptor) (recs : list NodeData),
                  In (NodeList m sub la) args
                  /\ parse_children m sub (document_element (snd (load_buffer s)))
                     = Ok recs
                  /\ nd_subnodes r !! m = Some recs
           else nd_subnodes r !! m = None).
Proof.
  intros s name args r Hn Hdup H. apply parse_walk in H.
  split; [exact (walk_name args _ Hn _ r H)|].
  split; [exact (walk_text args _ Hn _ r H)|].
  split.
  - intros k. rewrite (walk_attributes args _ Hn _ r H k). cbn.
    rewrite lookup_empty.
    destruct (decide (k ∈ attribute_names args)); [|reflexivity].
    destruct (attribute _ k); reflexivity.
  - intros m. destruct (decide (m ∈ list_names args)) as [Hm|Hm].
    + destruct (elem_of_list_names args m Hn Hm) as (sub & la & Hin).
      exists sub, la. pose proof Hin as Hin'.
      apply in_split in Hin' as (pre & post & ->).
      destruct (NoDup_list_names_split pre post m sub la Hdup) as [Hpre Hpost].
      destruct (walk_subnodes_list pre post m sub la _ Hn Hpre Hpost _ r H)
        as (recs & Hrecs & Hr).
      exists recs. split; [exact Hin|]. split; [exact Hrecs|exact Hr].
    + rewrite (walk_subnodes_other args _ m Hn Hm _ r H). reflexivity.
Qed.

Lemma parse_fields_witness :
  exists r : NodeData,
    parse example3 xml_name xml_args = Ok r
    /\ nd_name r = "root"
    /\ nd_attributes r !! "key" = Some (of_c_str "mykey")
    /\ nd_attributes r !! "other" = None.
Proof.
  destruct (parse example3 xml_name xml_args) as [r|e] eqn:H;
    [|vm_compute in H; discriminate].
  assert (Hn : no_nested_node xml_args = true) by reflexivity.
  assert (Hdup : NoDup (list_names xml_args)).
  { vm_compute. repeat constructor; set_solver. }
  destruct (parse_fields example3 xml_name xml_args r Hn Hdup H)
    as (Hname & _ & Hattr & _).
  exists r. split; [reflexivity|]. split; [exact Hname|].
  split; [rewrite Hattr|rewrite Hattr]; vm_compute; reflexivity.
Defined.

(** ** What [parse] does not look at *)

Lemma find_filter_keep {A} (p q : A -> bool) (l : list A) :
  (forall x, p x = true -> q x = true) ->
  List.find p (List.filter q l) = List.find p l.
Proof.
  intros H. induction l as [|x l IH]; [reflexivity|]. cbn [List.filter List.find].
  destruct (q x) eqn:Hq; cbn [List.find].
  - rewrite IH. reflexivity.
  - destruct (p x) eqn:Hp; [|exact IH]. rewrite (H x Hp) in Hq. discriminate.
Qed.

Lemma filter_filter_keep {A} (p q : A -> bool) (l : list A) :
  (forall x, p x = true -> q x = true) ->
  List.filter p (List.filter q l) = List.filter p l.
Proof.
  intros H. induction l as [|x l IH]; [reflexivity|]. cbn [List.filter].
  destruct (q x) eqn:Hq; cbn [List.filter].
  - rewrite IH. reflexivity.
  - destruct (p x) eqn:Hp; [|exact IH]. rewrite (H x Hp) in Hq. discriminate.
Qed.

Lemma name_is_other (a m iname : string) :
  m <> a -> name_is m iname = true -> negb (name_is a iname) = true.
Proof.
  intros Hne Hm. apply name_is_true in Hm as [_ Hm]. apply negb_true_iff.
  destruct (name_is a iname) eqn:Ha; [|reflexivity].
  apply name_is_true in Ha as [_ Ha]. congruence.
Qed.

Lemma text_node_unnamed (a : string) (c : xml_node_struct) :
  is_text_node c = true -> negb (name_is a (struct_name c)) = true.
Proof.
  destruct c as [nm attrs cs|v]; [discriminate|]. intros _. cbn [struct_name].
  unfold name_is. reflexivity.
Qed.

Lemma named_is_element (m : string) (c : xml_node_struct) :
  name_is m (struct_name c) = true -> is_element c = true.
Proof.
  destruct c as [nm attrs cs|v]; [reflexivity|]. cbn [struct_name]. unfold name_is.
  discriminate.
Qed.

Lemma attribute_remove_attribute (a k : string) (n : xml_node_struct) :
  k <> a -> attribute (Some (remove_attribute a n)) k = attribute (Some n) k.
Proof.
  intros Hne. destruct n as [nm attrs cs|v]; [|reflexivity].
  cbn [remove_attribute attribute struct_attributes]. apply find_filter_other, Hne.
Qed.

Lemma parse_subnode_remove_attribute (a : string) (d : Descriptor)
    (n : xml_node_struct) (data : NodeData) :
  a ∉ direct_attributes d ->
  parse_subnode d data (Some (remove_attribute a n))
  = parse_subnode d data (Some n).
Proof.
  intros Ha. destruct d as [|k ar|ar|m sub|m sub la].
  - reflexivity.
  - cbn [parse_subnode]. unfold Attribute_subnode.
    rewrite attribute_remove_attribute; [reflexivity|].
    intros ->. apply Ha. cbn. left.
  - destruct n; reflexivity.
  - destruct n; reflexivity.
  - destruct n; reflexivity.
Qed.

Lemma parse_subnode_remove_children (a : string) (d : Descriptor)
    (n : xml_node_struct) (data : NodeData) :
  a ∉ located_names d ->
  parse_subnode d data (Some (remove_children a n))
  = parse_subnode d data (Some n).
Proof.
  intros Ha. destruct n as [nm attrs cs|v]; [|reflexivity].
  assert (Hfind : forall m, m <> a ->
            child (Some (remove_children a (node_element nm attrs cs))) m
            = child (Some (node_element nm attrs cs)) m).
  { intros m Hm. cbn [remove_children child struct_children].
    apply find_filter_keep. intros c. apply name_is_other, Hm. }
  assert (Hfilter : forall m, m <> a ->
            children (Some (remove_children a (node_element nm attrs cs))) m
            = children (Some (node_element nm attrs cs)) m).
  { intros m Hm. cbn [remove_children children struct_children].
    apply filter_filter_keep. intros c. apply name_is_other, Hm. }
  destruct d as [|k ar|ar|m sub|m sub la].
  - reflexivity.
  - reflexivity.
  - cbn [parse_subnode]. unfold Text_subnode, text, Text_validate, Text_parse,
      text_empty, text_as_string.
    cbn [remove_children text_data is_text_node struct_children].
    rewrite (find_filter_keep is_text_node _ cs (text_node_unnamed a)). reflexivity.
  - cbn [parse_subnode]. unfold Node_subnode. rewrite Hfind; [reflexivity|].
    intros ->. apply Ha. cbn. left.
  - cbn [parse_subnode]. unfold NodeList_subnode. rewrite Hfilter; [reflexivity|].
    intros ->. apply Ha. cbn. left.
Qed.

Lemma foldM_ext_in {A B} (f g : A -> B -> result A) (l : list B) :
  (forall a b, In b l -> f a b = g a b) ->
  forall a, foldM f l a = foldM g l a.
Proof.
  induction l as [|b l IH]; intros H a; [reflexivity|]. cbn [foldM].
  rewrite (H a b (or_introl eq_refl)). destruct (g a b) as [a'|e]; [|reflexivity].
  cbn [bind]. apply IH. intros a0 b0 Hb0. apply H. right. exact Hb0.
Qed.

Lemma parse_document_single_any (name : string) (args : list Descriptor)
    (n n' : xml_node_struct) :
  is_element n' = is_element n ->
  struct_name n' = struct_name n ->
  (forall data, parse_subnodes data (Some n') args = parse_subnodes data (Some n) args) ->
  parse_document [n'] name args = parse_document [n] name args.
Proof.
  intros He Hn H. unfold parse_document, document_element. cbn [List.find].
  rewrite He. destruct (is_element n).
  - rewrite !Node_validate_present, Hn. unfold Node_parse. rewrite H. reflexivity.
  - reflexivity.
Qed.

(** X6. [parse] looks at the document element only through the names its
    descriptors bear: the attributes of a name that no [Attribute] among
    the descriptors of the root bears, and the child elements of a name
    that no [Node] or [NodeList] among them bears, can be taken away
    without a change of the record or of the exception. *)
Theorem parse_ignores_undeclared :
  forall (name a : string) (args : list Descriptor) (n : xml_node_struct),
    (a ∉ flat_map direct_attributes args ->
     parse_document [remove_attribute a n] name args = parse_document [n] name args)
    /\ (a ∉ flat_map located_names args ->
        parse_document [remove_children a n] name args = parse_document [n] name args).
Proof.
  intros name a args n. split; intros Ha; apply parse_document_single_any.
  - destruct n; reflexivity.
  - destruct n; reflexivity.
  - intros data. unfold parse_subnodes. apply foldM_ext_in. intros x d Hd.
    apply parse_subnode_remove_attribute. intros Hin. apply Ha.
    apply elem_of_flat_map. exists d. split; [apply list_elem_of_In, Hd|exact Hin].
  - destruct n; reflexivity.
  - destruct n; reflexivity.
  - intros data. unfold parse_subnodes. apply foldM_ext_in. intros x d Hd.
    apply parse_subnode_remove_children. intros Hin. apply Ha.
    apply elem_of_flat_map. exists d. split; [apply list_elem_of_In, Hd|exact Hin].
Qed.

Lemma parse_ignores_undeclared_witness :
  parse_document
    [remove_attribute "color"
       (node_element "root" [mk_attribute "color" "red"; mk_attribute "key" "k"] [])]
    xml_name xml_args
  = parse_document
      [node_element "root" [mk_attribute "color" "red"; mk_attribute "key" "k"] []]
      xml_name xml_args.
Proof.
  apply (proj1 (parse_ignores_undeclared xml_name "color" xml_args
                  (node_element "root"
                     [mk_attribute "color" "red"; mk_attribute "key" "k"] []))).
  intros H. apply list_elem_of_In in H. cbn in H.
  destruct H as [H|[H|[]]]; discriminate H.
Defined.

(** ** A node nested in a node *)

(** X7. A [Node] that stands directly among the descriptors of a node
    makes no record of its own: when its element is there, its descriptors
    are parsed against that element into the record of the enclosing node,
    renamed to the name of the nested [Node].  When the nested [Node] has
    no [Node] directly among its own descriptors, the record that results
    bears the name of the nested [Node], and has the text and the
    attributes of its element over what the record had. *)
Theorem nested_node_overwrites :
  forall (m : string) (sub : list Descriptor) (data r : NodeData)
         (node : xml_node) (c : xml_node_struct),
    Node_subnode m node = Some c ->
    parse_subnode (Node m sub) data node = Ok r ->
    parse_subnodes (set_name m data) (Some c) sub = Ok r
    /\ (no_nested_node sub = true ->
        nd_name r = m
        /\ nd_text r =
             (if has_text sub && negb (text_empty (Some c))
              then text_as_string (Some c) else nd_text data)
        /\ (forall k : string,
               nd_attributes r !! k =
                 if decide (k ∈ attribute_names sub)
                 then match attribute (Some c) k with
                      | Some x => Some (of_c_str (attr_value x))
                      | None => nd_attributes data !! k
                      end
                 else nd_attributes data !! k)).
Proof.
  intros m sub data r node c Hc H. rewrite parse_subnode_Node, Hc in H.
  rewrite (Node_validate_located m sub node c Hc) in H. cbn [bind] in H.
  unfold Node_parse in H.
  split; [exact H|]. intros Hn.
  split; [exact (walk_name sub _ Hn _ r H)|].
  split; [exact (walk_text sub _ Hn _ r H)|].
  intros k. exact (walk_attributes sub _ Hn _ r H k).
Qed.

Lemma nested_node_overwrites_witness :
  exists r : NodeData,
    parse_subnode (Node "child" [Attribute "a" []])
                  (mkNodeData "root" "" ∅ {[ "a" := of_c_str "of the root" ]})
                  (Some (node_element "root" [mk_attribute "a" "of the root"]
                           [node_element "child" [mk_attribute "a" "of the child"] []]))
    = Ok r
    /\ nd_name r = "child"
    /\ nd_attributes r !! "a" = Some (of_c_str "of the child").
Proof.
  eexists. split; [vm_compute; reflexivity|].
  destruct (nested_node_overwrites "child" [Attribute "a" []]
              (mkNodeData "root" "" ∅ {[ "a" := of_c_str "of the root" ]})
              (mkNodeData "child" "" ∅ {[ "a" := of_c_str "of the child" ]})
              (Some (node_element "root" [mk_attribute "a" "of the root"]
                       [node_element "child" [mk_attribute "a" "of the child"] []]))
              (node_element "child" [mk_attribute "a" "of the child"] []))
    as (_ & Hfields).
  - reflexivity.
  - vm_compute. reflexivity.
  - destruct (Hfields eq_refl) as (Hname & _ & Hattr).
    split; [exact Hname|]. rewrite Hattr. vm_compute. reflexivity.
Defined.

(** ** A document without an element *)

Lemma parse_subnode_null (d : Descriptor) (data : NodeData) :
  parse_subnode d data None =
    if direct_required d then
      Throw (match d with
             | Attribute k _ => MissingRequiredAttribute k
             | Node m _ => MissingRequiredNode m
             | _ => MissingRequiredText
             end)
    else Ok (match d with
             | NodeList m _ _ => append_subnodes m [] data
             | _ => data
             end).
Proof.
  destruct d as [|k ar|ar|m ar|m sub la]; cbn [direct_required].
  - reflexivity.
  - cbn. destruct (is_required ar); reflexivity.
  - cbn. destruct (is_required ar); reflexivity.
  - cbn. destruct (is_required ar); reflexivity.
  - reflexivity.
Qed.

Lemma walk_null (args : list Descriptor) :
  forallb (fun d => negb (direct_required d)) args = true ->
  forall data,
    exists r,
      parse_subnodes data None args = Ok r
      /\ nd_name r = nd_name data
      /\ nd_text r = nd_text data
      /\ nd_attributes r = nd_attributes data
      /\ forall m, nd_subnodes r !! m =
                     if decide (m ∈ flat_map direct_lists args)
                     then Some (default [] (nd_subnodes data !! m))
                     else nd_subnodes data !! m.
Proof.
  induction args as [|d args IH]; intros Hreq data.
  - exists data. repeat split.
  - cbn [forallb] in Hreq. apply andb_true_iff in Hreq as [Hd Hreq].
    apply negb_true_iff in Hd.
    rewrite parse_subnodes_cons, parse_subnode_null, Hd. cbn [bind].
    destruct (IH Hreq (match d with
                       | NodeList m _ _ => append_subnodes m [] data
                       | _ => data
                       end)) as (r & Hr & Hname & Htext & Hattr & Hsub).
    exists r. split; [exact Hr|].
    destruct d as [|k ar|ar|m' sub|m' sub la]; cbn [flat_map direct_lists app];
      try (repeat split; assumption).
    cbn in Hname, Htext, Hattr. repeat split; try assumption.
    intros m. rewrite Hsub. cbn [append_subnodes nd_subnodes].
    rewrite app_nil_r.
    destruct (decide (m = m')) as [->|Hne].
    + rewrite lookup_insert_eq. cbn [default].
      rewrite (decide_True (P := m' ∈ m' :: flat_map direct_lists args)) by left.
      destruct (decide (m' ∈ flat_map direct_lists args)); reflexivity.
    + rewrite lookup_insert_ne by congruence.
      destruct (decide (m ∈ flat_map direct_lists args)) as [Hin|Hnin].
      * rewrite decide_True by (right; exact Hin). reflexivity.
      * rewrite decide_False; [reflexivity|]. set_solver.
Qed.

Lemma walk_null_throws (args : list Descriptor) :
  forallb (fun d => negb (direct_required d)) args = false ->
  forall data, exists e, parse_subnodes data None args = Throw e.
Proof.
  induction args as [|d args IH]; intros Hreq data; [discriminate|].
  cbn [forallb] in Hreq. rewrite parse_subnodes_cons, parse_subnode_null.
  destruct (direct_required d); cbn [negb andb bind] in *; [eauto|].
  apply IH, Hreq.
Qed.

(** X8. [parse] does not stop when the root descriptor is not required
    and the document has no element: it walks the descriptors on the null
    handle.  When none of the attributes, texts and nodes directly among
    them is required, [parse] returns a record with the declared name, no
    text, no attribute and an empty entry for each list; otherwise it
    throws. *)
Theorem parse_without_document_element :
  forall (s name : string) (args : list Descriptor),
    document_element (snd (load_buffer s)) = None ->
    is_required args = false ->
    (forallb (fun d => negb (direct_required d)) args = true ->
     exists r : NodeData,
       parse s name args = Ok r
       /\ nd_name r = name
       /\ nd_text r = EmptyString
       /\ nd_attributes r = ∅
       /\ forall m, nd_subnodes r !! m =
                      if decide (m ∈ flat_map direct_lists args)
                      then Some [] else None)
    /\ (forallb (fun d => negb (direct_required d)) args = false ->
        exists e : runtime_error, parse s name args = Throw e).
Proof.
  intros s name args Hdoc Hopt. unfold parse, parse_document. rewrite Hdoc.
  cbn [Node_validate]. rewrite Hopt. cbn [bind]. unfold Node_parse. split.
  - intros Hreq.
    destruct (walk_null args Hreq (set_name name empty_NodeData))
      as (r & Hr & Hname & Htext & Hattr & Hsub).
    exists r. split; [exact Hr|]. split; [exact Hname|]. split; [exact Htext|].
    split; [exact Hattr|]. intros m. rewrite Hsub. cbn. rewrite lookup_empty.
    reflexivity.
  - intros Hreq. apply walk_null_throws, Hreq.
Qed.

Lemma parse_without_document_element_witness :
  exists r : NodeData,
    parse "" "root" [Attribute "client_id" []; NodeList "data" [Text [Required]] []]
      = Ok r
    /\ nd_name r = "root"
    /\ nd_text r = EmptyString
    /\ nd_attributes r = ∅
    /\ forall m, nd_subnodes r !! m =
                   if decide (m ∈ flat_map direct_lists
                                    [Attribute "client_id" [];
                                     NodeList "data" [Text [Required]] []])
                   then Some [] else None.
Proof.
  apply (parse_without_document_element "" "root"
           [Attribute "client_id" []; NodeList "data" [Text [Required]] []]);
    reflexivity.
Defined.

(** ** Required text and required nodes *)

Lemma text_empty_remove_text (nm : string) (attrs : list xml_attribute_struct)
    (cs : list xml_node_struct) :
  text_empty (Some (node_element nm attrs (List.filter is_element cs))) = true.
Proof.
  unfold text_empty. cbn [text_data is_text_node struct_children].
  destruct (List.find is_text_node (List.filter is_element cs)) as [c|] eqn:H;
    [|reflexivity].
  apply List.find_some in H as [Hin Hc]. apply List.filter_In in Hin as [_ He].
  destruct c; discriminate.
Qed.

Lemma parse_subnode_remove_text (d : Descriptor) (nm : string)
    (attrs : list xml_attribute_struct) (cs : list xml_node_struct)
    (data : NodeData) :
  is_Text d = false ->
  parse_subnode d data (Some (node_element nm attrs (List.filter is_element cs)))
  = parse_subnode d data (Some (node_element nm attrs cs)).
Proof.
  intros Hd. destruct d as [|k ar|ar|m sub|m sub la]; try discriminate.
  - reflexivity.
  - reflexivity.
  - cbn [parse_subnode]. unfold Node_subnode. cbn [child struct_children].
    rewrite (find_filter_keep (fun c => name_is m (struct_name c)) is_element cs
               (named_is_element m)).
    reflexivity.
  - cbn [parse_subnode]. unfold NodeList_subnode. cbn [children struct_children].
    rewrite (filter_filter_keep (fun c => name_is m (struct_name c)) is_element cs
               (named_is_element m)).
    reflexivity.
Qed.

Lemma walk_remove_text (args : list Descriptor) (ar : list Descriptor) (nm : string)
    (attrs : list xml_attribute_struct) (cs : list xml_node_struct)
    (data r : NodeData) :
  In (Text ar) args ->
  is_required ar = true ->
  parse_subnodes data (Some (node_element nm attrs cs)) args = Ok r ->
  walk_throws args (Some (node_element nm attrs (List.filter is_element cs)))
              MissingRequiredText.
Proof.
  intros Hin Hreq H. apply walk_throws_some.
  - exists (Text ar). split; [exact Hin|]. intros data'. cbn [parse_subnode].
    unfold Text_subnode, text, Text_validate.
    rewrite text_empty_remove_text, Hreq. reflexivity.
  - intros d Hd data' e He.
    destruct (is_Text d) eqn:Ht.
    + destruct d as [| |ar'| |]; try discriminate. cbn [parse_subnode] in He.
      unfold Text_subnode, text, Text_validate in He.
      rewrite text_empty_remove_text in He.
      destruct (is_required ar'); cbn [bind] in He; congruence.
    + rewrite parse_subnode_remove_text in He by exact Ht.
      pose proof (walk_Ok_all args _ data r H) as Hall.
      rewrite List.Forall_forall in Hall. destruct (Hall d Hd data') as (r' & Hr').
      congruence.
Qed.

(** X9. When a [Text] among the descriptors of the root is required,
    taking the character data away from the document element of a
    document that [parse] accepts makes [parse] throw
    [MissingRequiredText]. *)
Theorem required_text_enforced :
  forall (name : string) (args ar : list Descriptor) (nm : string)
         (attrs : list xml_attribute_struct) (cs : list xml_node_struct)
         (r : NodeData),
    In (Text ar) args ->
    is_required ar = true ->
    parse_document [node_element nm attrs cs] name args = Ok r ->
    parse_document [remove_text (node_element nm attrs cs)] name args
      = Throw MissingRequiredText.
Proof.
  intros name args ar nm attrs cs r Hin Hreq H.
  unfold parse_document, document_element in *.
  cbn [remove_text List.find is_element] in *.
  rewrite Node_validate_present in *. cbn [struct_name] in *.
  destruct (String.eqb name nm); [|discriminate]. cbn [bind] in *.
  unfold Node_parse in *.
  exact (walk_remove_text args ar nm attrs cs _ r Hin Hreq H _).
Qed.

Lemma required_text_enforced_witness :
  parse_document [remove_text (node_element "data" [mk_attribute "id" "1"]
                                            [node_pcdata "D1"])]
                 "data" [Attribute "id" [Required]; Text [Required]]
  = Throw MissingRequiredText.
Proof.
  eapply (required_text_enforced "data" [Attribute "id" [Required]; Text [Required]]
            [Required]).
  - right. left. reflexivity.
  - reflexivity.
  - vm_compute. reflexivity.
Defined.

Lemma child_remove_children (m : string) (nm : string)
    (attrs : list xml_attribute_struct) (cs : list xml_node_struct) :
  child (Some (remove_children m (node_element nm attrs cs))) m = None.
Proof.
  cbn [remove_children child struct_children].
  destruct (List.find _ _) as [c|] eqn:H; [|reflexivity].
  apply List.find_some in H as [Hin Hc]. apply List.filter_In in Hin as [_ Hn].
  rewrite Hc in Hn. discriminate.
Qed.

Lemma children_remove_children (m : string) (nm : string)
    (attrs : list xml_attribute_struct) (cs : list xml_node_struct) :
  children (Some (remove_children m (node_element nm attrs cs))) m = [].
Proof.
  cbn [remove_children children struct_children].
  induction cs as [|c cs IH]; [reflexivity|]. cbn [List.filter].
  destruct (name_is m (struct_name c)) eqn:Hc; cbn [negb List.filter]; [exact IH|].
  rewrite Hc. exact IH.
Qed.

Lemma walk_remove_children (args : list Descriptor) (m : string)
    (ar : list Descriptor) (nm : string)
    (attrs : list xml_attribute_struct) (cs : list xml_node_struct)
    (data r : NodeData) :
  In (Node m ar) args ->
  is_required ar = true ->
  parse_subnodes data (Some (node_element nm attrs cs)) args = Ok r ->
  walk_throws args (Some (remove_children m (node_element nm attrs cs)))
              (MissingRequiredNode m).
Proof.
  intros Hin Hreq H. apply walk_throws_some.
  - exists (Node m ar). split; [exact Hin|]. intros data'.
    rewrite parse_subnode_Node. unfold Node_subnode.
    rewrite child_remove_children. cbn [Node_validate]. rewrite Hreq. reflexivity.
  - intros d Hd data' e He.
    destruct (decide (m ∈ located_names d)) as [Hm|Hm].
    + destruct d as [|k ar'|ar'|m' ar'|m' sub la]; cbn in Hm;
        try (inversion Hm; fail);
        apply list_elem_of_singleton in Hm as <-.
      * rewrite parse_subnode_Node in He. unfold Node_subnode in He.
        rewrite child_remove_children in He. cbn [Node_validate] in He.
        destruct (is_required ar'); cbn [bind] in He; congruence.
      * rewrite parse_subnode_NodeList in He. unfold NodeList_subnode in He.
        rewrite children_remove_children in He. discriminate.
    + rewrite parse_subnode_remove_children in He by exact Hm.
      pose proof (walk_Ok_all args _ data r H) as Hall.
      rewrite List.Forall_forall in Hall. destruct (Hall d Hd data') as (r' & Hr').
      congruence.
Qed.

(** X10. When a [Node] among the descriptors of the root is required,
    taking the child elements of its name away from the document element
    of a document that [parse] accepts makes [parse] throw
    [MissingRequiredNode] with that name. *)
Theorem required_node_enforced :
  forall (name m : string) (args ar : list Descriptor) (nm : string)
         (attrs : list xml_attribute_struct) (cs : list xml_node_struct)
         (r : NodeData),
    In (Node m ar) args ->
    is_required ar = true ->
    parse_document [node_element nm attrs cs] name args = Ok r ->
    parse_document [remove_children m (node_element nm attrs cs)] name args
      = Throw (MissingRequiredNode m).
Proof.
  intros name m args ar nm attrs cs r Hin Hreq H.
  unfold parse_document, document_element in *.
  cbn [remove_children List.find is_element] in *.
  rewrite Node_validate_present in *. cbn [struct_name] in *.
  destruct (String.eqb name nm); [|discriminate]. cbn [bind] in *.
  unfold Node_parse in *.
  exact (walk_remove_children args m ar nm attrs cs _ r Hin Hreq H _).
Qed.

Lemma required_node_enforced_witness :
  parse_document [remove_children "head"
                    (node_element "root" []
                       [node_element "head" [mk_attribute "v" "1"] []])]
                 "root" [Node "head" [Required; Attribute "v" []]]
  = Throw (MissingRequiredNode "head").
Proof.
  eapply (required_node_enforced "root" "head"
            [Node "head" [Required; Attribute "v" []]] [Required; Attribute "v" []]).
  - left. reflexivity.
  - reflexivity.
  - vm_compute. reflexivity.
Defined.

(** ** The exceptions of [parse] *)

Lemma declared_error_In (d : Descriptor) (args : list Descriptor)
    (e : runtime_error) :
  In d args -> declared_error [d] e -> declared_error args e.
Proof.
  intros Hd. destruct e as [k| |m|x y]; cbn [declared_error flat_map existsb];
    rewrite ?app_nil_r, ?orb_false_r.
  - intros H. apply elem_of_flat_map. exists d.
    split; [apply list_elem_of_In, Hd|exact H].
  - intros H. apply existsb_exists. exists d. split; assumption.
  - intros H. apply elem_of_flat_map. exists d.
    split; [apply list_elem_of_In, Hd|exact H].
  - tauto.
Qed.

Lemma walk_declared_error (args : list Descriptor) (node : xml_node)
    (data : NodeData) (e : runtime_error) :
  Forall (fun d => forall data node e,
            parse_subnode d data node = Throw e -> declared_error [d] e) args ->
  parse_subnodes data node args = Throw e ->
  declared_error args e.
Proof.
  intros IH H. unfold parse_subnodes in H.
  apply foldM_throw_inv in H as (d & x & Hin & H).
  rewrite List.Forall_forall in IH.
  exact (declared_error_In d args e Hin (IH d Hin x node e H)).
Qed.

(** Every exception of a round of [parse_subnodes] is backed by a
    required descriptor; none is a name mismatch. *)
Lemma parse_subnode_declared_error (d : Descriptor) :
  forall (data : NodeData) (node : xml_node) (e : runtime_error),
    parse_subnode d data node = Throw e -> declared_error [d] e.
Proof.
  induction d as [|k ar|ar|m sub IH|m sub la IH]
    using Descriptor_nested_ind; intros data node e H.
  - discriminate.
  - cbn [parse_subnode] in H. apply bind_Throw in H as [H|(b & _ & H)];
      [|discriminate].
    unfold Attribute_validate in H. destruct (Attribute_subnode k node);
      [discriminate|].
    destruct (is_required ar) eqn:Hr; [|discriminate]. injection H as <-.
    cbn. rewrite Hr. cbn. left.
  - cbn [parse_subnode] in H. apply bind_Throw in H as [H|(b & _ & H)];
      [|discriminate].
    unfold Text_validate in H. destruct (text_empty _); [|discriminate].
    destruct (is_required ar) eqn:Hr; [|discriminate]. injection H as <-.
    cbn. rewrite Hr. reflexivity.
  - rewrite parse_subnode_Node in H.
    destruct (Node_subnode m node) as [c|] eqn:Hc.
    + rewrite (Node_validate_located m sub node c Hc) in H. cbn [bind] in H.
      unfold Node_parse in H.
      pose proof (walk_declared_error sub _ _ e IH H) as He.
      destruct e as [k| |m'|x y];
        cbn [declared_error flat_map existsb required_attributes
             requires_text required_nodes] in *;
        rewrite ?app_nil_r, ?orb_false_r; try assumption.
      apply elem_of_app. right. exact He.
    + cbn [Node_validate] in H. destruct (is_required sub) eqn:Hr;
        cbn [bind] in H; [|discriminate].
      injection H as <-. cbn. rewrite Hr, app_nil_r. left.
  - rewrite parse_subnode_NodeList in H. unfold NodeList_parse in H.
    apply bind_Throw in H as [H|(subs & _ & H)]; [|discriminate].
    apply mapM_throw_inv in H as (c & _ & H). unfold Node_parse in H.
    pose proof (walk_declared_error sub _ _ e IH H) as He.
    destruct e as [k| |m'|x y];
      cbn [declared_error flat_map existsb required_attributes
           requires_text required_nodes] in *;
      rewrite ?app_nil_r, ?orb_false_r; assumption.
Qed.

Lemma Node_parse_declared_error (name : string) (args : list Descriptor)
    (data : NodeData) (node : xml_node) (e : runtime_error) :
  Node_parse name args data node = Throw e -> declared_error args e.
Proof.
  unfold Node_parse. apply walk_declared_error, List.Forall_forall.
  intros d _. apply parse_subnode_declared_error.
Qed.

(** X11. Every exception of [parse] has its cause in the schema or at the
    root: a [NodeNameMismatch] bears the declared name of the root and the
    other name of the document element; a [MissingRequiredNode] is that of
    the required root of a document without an element, or bears the name
    of a required nested [Node]; a [MissingRequiredAttribute] bears the
    name of a required [Attribute] of the schema; and
    [MissingRequiredText] is thrown only when the schema has a required
    [Text]. *)
Theorem parse_errors_declared :
  forall (s name : string) (args : list Descriptor) (e : runtime_error),
    parse s name args = Throw e ->
    match e with
    | NodeNameMismatch expected actual =>
        expected = name
        /\ actual <> name
        /\ exists el, document_element (snd (load_buffer s)) = Some el
                      /\ struct_name el = actual
    | MissingRequiredNode m =>
        (m = name /\ is_required args = true
         /\ document_element (snd (load_buffer s)) = None)
        \/ declared_error args (MissingRequiredNode m)
    | _ => declared_error args e
    end.
Proof.
  intros s name args e H. unfold parse, parse_document in H.
  apply bind_Throw in H as [H|(b & _ & H)].
  - destruct (document_element (snd (load_buffer s))) as [el|] eqn:Hel.
    + apply Node_validate_present_throw in H as [-> Hne].
      split; [reflexivity|]. split; [exact Hne|]. exists el. auto.
    + cbn [Node_validate] in H. destruct (is_required args) eqn:Hr; [|discriminate].
      injection H as <-. left. auto.
  - apply Node_parse_declared_error in H.
    destruct e as [k| |m|x y]; [exact H|exact H|right; exact H|destruct H].
Qed.

Lemma parse_errors_declared_witness :
  declared_error xml_args MissingRequiredText.
Proof.
  apply (parse_errors_declared scenario4 xml_name xml_args MissingRequiredText).
  vm_compute. reflexivity.
Defined.

(** X12. A schema in which nothing that can be missing is required takes
    every document whose element bears the name of the root. *)
Theorem parse_total_without_required :
  forall (s name : string) (args : list Descriptor),
    flat_map required_attributes args = [] ->
    existsb requires_text args = false ->
    flat_map required_nodes args = [] ->
    match document_element (snd (load_buffer s)) with
    | Some el => struct_name el = name
    | None => is_required args = false
    end ->
    exists r : NodeData, parse s name args = Ok r.
Proof.
  intros s name args Ha Ht Hn Hdoc.
  destruct (parse s name args) as [r|e] eqn:H; [eauto|exfalso].
  unfold parse, parse_document in H.
  apply bind_Throw in H as [H|(b & _ & H)].
  - destruct (document_element (snd (load_buffer s))) as [el|].
    + apply Node_validate_present_throw in H as [_ Hne]. congruence.
    + cbn [Node_validate] in H. rewrite Hdoc in H. discriminate.
  - apply Node_parse_declared_error in H.
    destruct e as [k| |m|x y]; cbn [declared_error] in H.
    + rewrite Ha in H. inversion H.
    + congruence.
    + rewrite Hn in H. inversion H.
    + exact H.
Qed.

Lemma parse_total_without_required_witness :
  exists r : NodeData,
    parse example1 "wrong"
          [Attribute "key" []; NodeList "data" [Required; Text []] [Required]]
    = Ok r.
Proof.
  apply (parse_total_without_required example1 "wrong"
           [Attribute "key" []; NodeList "data" [Required; Text []] [Required]]);
    reflexivity.
Defined.

(** ** What [serialize] writes *)

Lemma serialize_subnode_attributes (d : Descriptor) (nm : string)
    (a : list xml_attribute_struct) (cs : list xml_node_struct)
    (data : NodeData) (e1 : xml_node_struct) :
  serialize_subnode d (node_element nm a cs) data = Ok e1 ->
  exists cs1, e1 = node_element nm (a ++ written_attribute d data) cs1.
Proof.
  destruct (is_Node d) eqn:Hd.
  - destruct d as [| | |m sub|]; try discriminate. intros H.
    rewrite serialize_subnode_Node, Node_serialize_build in H.
    apply bind_Ok in H as (n & _ & H). injection H as <-.
    cbn [written_attribute]. rewrite app_nil_r. eexists. reflexivity.
  - intros H. apply serialize_subnode_plain_inv in H as (cs1 & -> & _); [|exact Hd].
    eexists. reflexivity.
Qed.

Lemma serialize_subnodes_attributes (args : list Descriptor) (data : NodeData) :
  forall nm a cs e',
    serialize_subnodes (node_element nm a cs) data args = Ok e' ->
    exists cs', e' = node_element nm (a ++ written_attributes args data) cs'.
Proof.
  induction args as [|d args IH]; intros nm a cs e' H.
  - cbn in H. injection H as <-. exists cs. cbn. rewrite app_nil_r. reflexivity.
  - rewrite serialize_subnodes_cons in H. apply bind_Ok in H as (e1 & H1 & H).
    apply serialize_subnode_attributes in H1 as (cs1 & ->).
    destruct (IH _ _ _ _ H) as (cs' & ->). exists cs'.
    unfold written_attributes. cbn [flat_map]. rewrite app_assoc. reflexivity.
Qed.

Lemma serialize_document_root (data : NodeData) (name : string)
    (args : list Descriptor) (doc : xml_document) :
  serialize_document data name args = Ok doc ->
  c_str (nd_name data) = name
  /\ exists cs, doc = [node_element name (written_attributes args data) cs].
Proof.
  unfold serialize_document. intros H.
  apply bind_Ok in H as (root & Hroot & H). apply bind_Ok in H as (b & Hb & H).
  injection H as <-.
  apply serialize_subnodes_attributes in Hroot as (cs & ->).
  rewrite Node_validate_present in Hb. cbn [struct_name] in Hb.
  destruct (String.eqb_spec name (c_str (nd_name data))) as [->|]; [|discriminate].
  split; [reflexivity|]. exists cs. reflexivity.
Qed.

(** X13. The document that [serialize] builds is one element of the
    declared name.  Its attributes are those of the [Attribute]
    descriptors of the root whose name is a key of the record, one for
    each descriptor and in the order of the descriptors, whatever the
    order in the document that was parsed, each with the value of the
    record up to its first NUL byte; no other attribute of the record is
    written. *)
Theorem serialize_attribute_order :
  forall (data : NodeData) (name : string) (args : list Descriptor)
         (doc : xml_document),
    serialize_document data name args = Ok doc ->
    exists cs : list xml_node_struct,
      doc = [node_element name (written_attributes args data) cs].
Proof.
  intros data name args doc H. exact (proj2 (serialize_document_root _ _ _ _ H)).
Qed.

Lemma serialize_attribute_order_witness :
  exists cs : list xml_node_struct,
    [node_element "root" [mk_attribute "key" "k"; mk_attribute "client_id" "c"] []]
    = [node_element "root"
         (written_attributes xml_args
            (mkNodeData "root" "" ∅ {[ "client_id" := of_c_str "c"; "key" := of_c_str "k" ]})) cs].
Proof.
  apply (serialize_attribute_order
           (mkNodeData "root" "" ∅ {[ "client_id" := of_c_str "c"; "key" := of_c_str "k" ]})
           xml_name xml_args).
  vm_compute. reflexivity.
Defined.

Lemma serialize_subnode_frame (d : Descriptor) :
  forall (data data' : NodeData) (parent : xml_node_struct),
    nd_name data = nd_name data' ->
    (captures_text d = true -> nd_text data = nd_text data') ->
    (forall k, k ∈ captured_attributes d ->
               nd_attributes data !! k = nd_attributes data' !! k) ->
    (forall m, m ∈ captured_lists d ->
               default [] (nd_subnodes data !! m) = default [] (nd_subnodes data' !! m)) ->
    serialize_subnode d parent data = serialize_subnode d parent data'.
Proof.
  induction d as [|k ar|ar|m sub IH|m sub la IH]
    using Descriptor_nested_ind; intros data data' parent Hname Htext Hattr Hlist.
  - reflexivity.
  - cbn [serialize_subnode]. unfold Attribute_serialize.
    rewrite (Hattr k) by (cbn; left). reflexivity.
  - cbn [serialize_subnode]. unfold Text_serialize. rewrite (Htext eq_refl).
    reflexivity.
  - rewrite !serialize_subnode_Node. unfold Node_serialize, serialize_subnodes.
    rewrite Hname.
    rewrite (foldM_ext_in
               (fun parent desc => serialize_subnode desc parent data)
               (fun parent desc => serialize_subnode desc parent data') sub);
      [reflexivity|].
    intros p d Hd. rewrite List.Forall_forall in IH. apply (IH d Hd); [exact Hname| | |].
    + intros Hc. apply Htext. cbn [captures_text]. apply existsb_exists.
      exists d. split; assumption.
    + intros k Hk. apply Hattr. cbn [captured_attributes].
      apply elem_of_flat_map. exists d. split; [apply list_elem_of_In, Hd|exact Hk].
    + intros m' Hm'. apply Hlist. cbn [captured_lists].
      apply elem_of_flat_map. exists d. split; [apply list_elem_of_In, Hd|exact Hm'].
  - rewrite !serialize_subnode_NodeList. unfold NodeList_serialize.
    specialize (Hlist m). cbn [captured_lists] in Hlist.
    assert (Hm : default [] (nd_subnodes data !! m) = default [] (nd_subnodes data' !! m))
      by (apply Hlist; left).
    destruct (nd_subnodes data !! m) as [subs|], (nd_subnodes data' !! m) as [subs'|];
      cbn in Hm; subst; reflexivity.
Qed.

(** X14. [serialize] reads of a record its name, its text when a
    descriptor writes it, the attributes that the schema declares and the
    lists that the schema declares, a missing list counting as an empty
    one: two records that agree on these are serialized alike, whatever
    else they hold. *)
Theorem serialize_ignores_undeclared :
  forall (args : list Descriptor) (name : string) (data data' : NodeData),
    nd_name data = nd_name data' ->
    (existsb captures_text args = true -> nd_text data = nd_text data') ->
    (forall k, k ∈ attribute_names args ->
               nd_attributes data !! k = nd_attributes data' !! k) ->
    (forall m, m ∈ list_names args ->
               default [] (nd_subnodes data !! m) = default [] (nd_subnodes data' !! m)) ->
    serialize data name args = serialize data' name args.
Proof.
  intros args name data data' Hname Htext Hattr Hlist.
  unfold serialize, serialize_document, serialize_subnodes. rewrite Hname.
  rewrite (foldM_ext_in
             (fun parent desc => serialize_subnode desc parent data)
             (fun parent desc => serialize_subnode desc parent data') args);
    [reflexivity|].
  intros p d Hd. apply serialize_subnode_frame; [exact Hname| | |].
  - intros Hc. apply Htext. apply existsb_exists. exists d. split; assumption.
  - intros k Hk. apply Hattr. apply elem_of_flat_map. exists d.
    split; [apply list_elem_of_In, Hd|exact Hk].
  - intros m Hm. apply Hlist. apply elem_of_flat_map. exists d.
    split; [apply list_elem_of_In, Hd|exact Hm].
Qed.

Lemma serialize_ignores_undeclared_witness :
  serialize (mkNodeData "root" "ignored" {[ "other" := [empty_NodeData] ]}
                        {[ "key" := of_c_str "k"; "color" := of_c_str "red" ]})
            xml_name xml_args
  = serialize (mkNodeData "root" "" {[ "data" := [] ]} {[ "key" := of_c_str "k" ]})
              xml_name xml_args.
Proof.
  apply (serialize_ignores_undeclared xml_args xml_name).
  - reflexivity.
  - intros H. vm_compute in H. discriminate.
  - intros k Hk. apply list_elem_of_In in Hk.
    destruct Hk as [<-|[<-|[]]]; vm_compute; reflexivity.
  - intros m Hm. apply list_elem_of_In in Hm.
    destruct Hm as [<-|[]]; vm_compute; reflexivity.
Defined.

(** ** When [serialize] throws *)

(** X15. [serialize] checks names and nothing else: it returns a text
    exactly when the name of the record, read up to its first NUL byte,
    is the name of the root and of every nested [Node], and the name of
    each record of a declared list, read likewise, is the inner name of
    the list, and so on inside; and every exception it throws is a
    [NodeNameMismatch], none reports a required attribute, text or
    node. *)
Theorem serialize_succeeds_iff :
  forall (data : NodeData) (name : string) (args : list Descriptor),
    ((exists out : string, serialize data name args = Ok out)
     <-> c_named (Node name args) data = true)
    /\ (forall e : runtime_error,
           serialize data name args = Throw e ->
           exists expected actual, e = NodeNameMismatch expected actual).
Proof.
  intros data name args. split; [apply serialize_succeeds|].
  intros e H. unfold serialize in H.
  apply bind_Throw in H as [H|(doc & _ & H)]; [|discriminate].
  unfold serialize_document in H. apply bind_Throw in H as [H|(root & _ & H)].
  - unfold serialize_subnodes in H. apply foldM_throw_inv in H as (d & p & _ & H).
    exact (serialize_subnode_throw d p data e H).
  - apply bind_Throw in H as [H|(b & _ & H)]; [|discriminate].
    apply Node_validate_present_throw in H as [-> _]. eauto.
Qed.

Lemma walk_throws_exists (args : list Descriptor) (node : xml_node)
    (d : Descriptor) (e : runtime_error) :
  In d args -> throws d node e ->
  forall data, exists e', parse_subnodes data node args = Throw e'.
Proof.
  intros Hin Hd data.
  destruct (parse_subnodes data node args) as [r|e'] eqn:H; [|eauto].
  pose proof (walk_Ok_all args node data r H) as Hall.
  rewrite List.Forall_forall in Hall. destruct (Hall d Hin data) as (r' & Hr').
  rewrite Hd in Hr'. discriminate.
Qed.

Lemma written_attribute_absent (args : list Descriptor) (data : NodeData)
    (k nm : string) (cs : list xml_node_struct) :
  nd_attributes data !! k = None ->
  attribute (Some (node_element nm (written_attributes args data) cs)) k = None.
Proof.
  intros Hk. cbn [attribute struct_attributes].
  destruct (List.find _ _) as [x|] eqn:H; [|reflexivity].
  apply List.find_some in H as [Hin Hx]. apply name_is_true in Hx as [_ ->].
  apply written_sound in Hin. rewrite Hk in Hin. discriminate Hin.
Qed.

(** X16. [serialize] does not look at [Required]: a record that bears
    the names of the schema, as [serialize] reads them, and has no
    attribute of a name that the schema requires is written without an
    exception, and the document that is built and printed is one that
    [parse] refuses. *)
Theorem serialize_skips_required :
  forall (data : NodeData) (name k : string) (args ar : list Descriptor),
    In (Attribute k ar) args ->
    is_required ar = true ->
    nd_attributes data !! k = None ->
    c_named (Node name args) data = true ->
    exists (doc : xml_document) (e : runtime_error),
      serialize_document data name args = Ok doc
      /\ serialize data name args = Ok (print doc)
      /\ parse_document doc name args = Throw e.
Proof.
  intros data name k args ar Hin Hreq Hk Hnamed.
  apply serialize_succeeds in Hnamed as (out & Hout).
  unfold serialize in Hout.
  destruct (serialize_document data name args) as [doc|e0] eqn:H;
    [|discriminate].
  cut (exists e, parse_document doc name args = Throw e).
  { intros (e & He). exists doc, e. unfold serialize. rewrite H.
    split; [reflexivity|]. split; [reflexivity|exact He]. }
  apply serialize_document_root in H as (_ & cs & ->).
  unfold parse_document, document_element. cbn [List.find is_element].
  rewrite Node_validate_present. cbn [struct_name]. rewrite String.eqb_refl.
  cbn [bind]. unfold Node_parse.
  apply (walk_throws_exists args _ (Attribute k ar) (MissingRequiredAttribute k) Hin).
  intros data'. cbn [parse_subnode]. unfold Attribute_subnode.
  rewrite (written_attribute_absent args data k name cs Hk).
  cbn [Attribute_validate]. rewrite Hreq. reflexivity.
Qed.

Lemma serialize_skips_required_witness :
  exists (doc : xml_document) (e : runtime_error),
    serialize_document (mkNodeData "root" "" ∅ ∅) xml_name xml_args = Ok doc
    /\ serialize (mkNodeData "root" "" ∅ ∅) xml_name xml_args = Ok (print doc)
    /\ parse_document doc xml_name xml_args = Throw e.
Proof.
  apply (serialize_skips_required (mkNodeData "root" "" ∅ ∅) xml_name "key"
           xml_args [Required]).
  - right. left. reflexivity.
  - reflexivity.
  - reflexivity.
  - vm_compute. reflexivity.
Defined.

(** [serialize] takes every record that [parse] returns for an
    unambiguous schema. *)
Lemma parse_serializes (s name : string) (args : list Descriptor) (r : NodeData) :
  unambiguous_args args = true ->
  parse s name args = Ok r ->
  exists out, serialize r name args = Ok out.
Proof.
  intros Hu H. unfold parse, parse_document in H. apply bind_Ok in H as (b & _ & H).
  destruct (round_trip_node name args Hu _ r H) as (n & Hbuild & _).
  unfold serialize. rewrite (serialize_document_build r _ _ n Hbuild).
  eexists. reflexivity.
Qed.

Lemma parse_named_args (m : string) (sub : list Descriptor) :
  unambiguous_args sub = true ->
  (forall m' sub' la',
      In (NodeList m' sub' la') sub ->
      forall node r,
        Node_parse m' sub' empty_NodeData node = Ok r ->
        bool_decide (nd_name r = of_c_str m')
        && forallb (fun d' => well_named d' r) sub' = true) ->
  forall node r,
    Node_parse m sub empty_NodeData node = Ok r ->
    bool_decide (nd_name r = of_c_str m)
    && forallb (fun d' => well_named d' r) sub = true.
Proof.
  intros Hu IH node r H.
  apply unambiguous_args_inv in Hu as (Hn & Hdup & _).
  unfold Node_parse in H. apply andb_true_iff. split.
  - apply bool_decide_eq_true. exact (walk_name sub node Hn _ r H).
  - apply forallb_forall. intros d Hd.
    pose proof (In_not_Node d sub Hn Hd) as Hnode.
    destruct d as [|k ar|ar|m' sub'|m' sub' la']; try reflexivity;
      [discriminate|].
    cbn [well_named].
    destruct (walk_list_records m sub node r m' sub' la' Hn Hdup H Hd)
      as (pre & post & recs & _ & _ & _ & Hrecs & ->).
    cbn [default]. apply forallb_forall. intros c Hc.
    unfold parse_children in Hrecs. apply mapM_Ok_all in Hrecs.
    assert (Hfrom : exists x, Node_parse m' sub' empty_NodeData (Some x) = Ok c).
    { clear -Hrecs Hc. induction Hrecs as [|x y l l' Hxy _ IHl]; [destruct Hc|].
      destruct Hc as [<-|Hc]; [eauto|exact (IHl Hc)]. }
    destruct Hfrom as (x & Hx). exact (IH m' sub' la' Hd (Some x) c Hx).
Qed.

Lemma parse_named_descriptor (d : Descriptor) :
  unambiguous d = true ->
  match d with
  | NodeList m sub _ =>
      forall node r,
        Node_parse m sub empty_NodeData node = Ok r ->
        bool_decide (nd_name r = of_c_str m)
        && forallb (fun d' => well_named d' r) sub = true
  | _ => True
  end.
Proof.
  induction d as [|name args|args|name args IH|m sub la IH]
    using Descriptor_nested_ind; intros Hu; try exact I.
  cbn [unambiguous] in Hu. apply parse_named_args; [exact Hu|].
  intros m' sub' la' Hin. rewrite List.Forall_forall in IH.
  apply (IH _ Hin). apply andb_true_iff in Hu as [Hall _].
  rewrite forallb_forall in Hall. exact (Hall _ Hin).
Qed.

Lemma parse_named_node (name : string) (args : list Descriptor) :
  unambiguous_args args = true ->
  forall node r,
    Node_parse name args empty_NodeData node = Ok r ->
    bool_decide (nd_name r = of_c_str name)
    && forallb (fun d' => well_named d' r) args = true.
Proof.
  intros Hu. apply parse_named_args; [exact Hu|].
  intros m' sub' la' Hin. apply unambiguous_args_inv in Hu as (_ & _ & Hall).
  rewrite List.Forall_forall in Hall.
  exact (parse_named_descriptor (NodeList m' sub' la') (Hall _ Hin)).
Qed.

(** X17. For a schema in which no [Node] stands directly among the
    descriptors of a node and the lists of a node have distinct inner
    names, the records that [parse] returns bear the names of the schema:
    the record the name of the root, and each record of a list the inner
    name of the list. *)
Theorem parse_well_named :
  forall (s name : string) (args : list Descriptor) (r : NodeData),
    unambiguous_args args = true ->
    parse s name args = Ok r ->
    well_named (Node name args) r = true.
Proof.
  intros s name args r Hu H. unfold parse, parse_document in H.
  apply bind_Ok in H as (b & _ & H). cbn [well_named].
  exact (parse_named_node name args Hu _ r H).
Qed.

Lemma parse_well_named_witness :
  exists r : NodeData,
    parse example5 xml_name xml_args = Ok r
    /\ well_named (Node xml_name xml_args) r = true.
Proof.
  destruct (parse example5 xml_name xml_args) as [r|e] eqn:H;
    [|vm_compute in H; discriminate].
  exists r. split; [reflexivity|].
  apply (parse_well_named example5 xml_name xml_args r); [|exact H].
  vm_compute. reflexivity.
Defined.

(** ** Validation *)

Lemma Node_validate_present_value (name : string) (args : list Descriptor)
    (n : xml_node_struct) (b : bool) :
  Node_validate name args (Some n) = Ok b -> b = true.
Proof.
  rewrite Node_validate_present. destruct (String.eqb name (struct_name n));
    [congruence|discriminate].
Qed.

(** X20. [validate] of a [Node] on a handle that is not null, and
    [validate] of a [NodeList] on any range, return true or throw: the
    [return false] of [NodeList::validate] is never reached, so a list is
    never skipped by [parse_subnodes]. *)
Theorem validate_never_false :
  (forall (name : string) (args : list Descriptor) (n : xml_node_struct),
      Node_validate name args (Some n) <> Ok false)
  /\ (forall (name : string) (node_args : list Descriptor)
             (cs : list xml_node_struct),
         NodeList_validate name node_args cs <> Ok false).
Proof.
  split.
  - intros name args n H. apply Node_validate_present_value in H. discriminate.
  - intros name node_args cs. induction cs as [|c cs IH]; cbn [NodeList_validate].
    + discriminate.
    + intros H. apply bind_Ok in H as (b & Hb & H).
      apply Node_validate_present_value in Hb as ->. exact (IH H).
Qed.

(** X21. Whether the walk of [parse_subnodes] throws, and which exception,
    depends on the node and on the descriptors only, not on the record it
    is given. *)
Theorem walk_outcome_independent :
  forall (args : list Descriptor) (node : xml_node) (data data' : NodeData),
    match parse_subnodes data node args with
    | Ok _ => exists r', parse_subnodes data' node args = Ok r'
    | Throw e => parse_subnodes data' node args = Throw e
    end.
Proof.
  intros args node data data'.
  assert (H : walk_succeeds args node \/ exists e, walk_throws args node e).
  { apply walk_dichotomy, List.Forall_forall. intros d _.
    apply parse_subnode_dichotomy. }
  destruct H as [H|(e & H)].
  - destruct (H data) as (r & ->). apply H.
  - rewrite (H data). apply H.
Qed.

(** ** The standard output *)

Lemma append_nil_r (s : string) : s +:+ EmptyString = s.
Proof.
  induction s as [|c s IH]; [reflexivity|].
  change (String c (s +:+ EmptyString) = String c s). rewrite IH. reflexivity.
Qed.

Lemma append_assoc (s1 s2 s3 : string) : (s1 +:+ s2) +:+ s3 = s1 +:+ s2 +:+ s3.
Proof.
  induction s1 as [|c s1 IH]; [reflexivity|].
  change (String c ((s1 +:+ s2) +:+ s3) = String c (s1 +:+ s2 +:+ s3)).
  rewrite IH. reflexivity.
Qed.

Lemma io_eta {A} (m : io A) : m = (fst m, snd m).
Proof. destruct m; reflexivity. Qed.

Lemma io_bind_snd {A B} (m : io A) (k : A -> io B) :
  snd (io_bind m k) = bind (snd m) (fun a => snd (k a)).
Proof. unfold io_bind. destruct (snd m); reflexivity. Qed.

Lemma io_bind_lift {A B} (m : result A) (k : A -> io B) :
  io_bind (io_lift m) k =
    match m with Ok a => k a | Throw e => (EmptyString, Throw e) end.
Proof. destruct m as [a|e]; cbn; [|reflexivity]. destruct (k a); reflexivity. Qed.

Lemma foldM_io_snd {A B} (f : A -> B -> io A) (g : A -> B -> result A) (l : list B) :
  (forall a b, In b l -> snd (f a b) = g a b) ->
  forall a, snd (foldM_io f l a) = foldM g l a.
Proof.
  induction l as [|b l IH]; intros H a; [reflexivity|]. cbn [foldM_io foldM].
  rewrite io_bind_snd, (H a b (or_introl eq_refl)).
  destruct (g a b) as [a'|e]; [|reflexivity]. cbn [bind].
  apply IH. intros a0 b0 Hb0. apply H. right. exact Hb0.
Qed.

Lemma mapM_io_snd {A B} (f : B -> io A) (g : B -> result A) (l : list B) :
  (forall b, In b l -> snd (f b) = g b) ->
  snd (mapM_io f l) = mapM g l.
Proof.
  induction l as [|b l IH]; intros H; [reflexivity|]. cbn [mapM_io mapM].
  rewrite io_bind_snd, (H b (or_introl eq_refl)).
  destruct (g b) as [a|e]; [|reflexivity]. cbn [bind].
  rewrite io_bind_snd, IH by (intros b0 Hb0; apply H; right; exact Hb0).
  destruct (mapM g l); reflexivity.
Qed.

(** What the walk with the output returns is what the walk returns. *)
Lemma parse_subnode_io_snd (d : Descriptor) :
  forall (data : NodeData) (node : xml_node),
    snd (parse_subnode_io d data node) = parse_subnode d data node.
Proof.
  induction d as [|k ar|ar|m sub IH|m sub la IH]
    using Descriptor_nested_ind; intros data node.
  - reflexivity.
  - cbn [parse_subnode_io parse_subnode]. rewrite io_bind_lift.
    destruct (Attribute_validate _ _ _); reflexivity.
  - cbn [parse_subnode_io parse_subnode]. unfold Text_subnode_io, Text_subnode.
    rewrite !io_bind_snd. cbn [io_write snd bind io_ret]. rewrite io_bind_lift.
    destruct (Text_validate _ _); reflexivity.
  - cbn [parse_subnode_io parse_subnode]. rewrite io_bind_lift.
    destruct (Node_validate _ _ _) as [[|]|e]; cbn [bind]; try reflexivity.
    apply foldM_io_snd. intros a d Hd. rewrite List.Forall_forall in IH.
    apply (IH d Hd).
  - cbn [parse_subnode_io parse_subnode]. rewrite io_bind_lift.
    destruct (NodeList_validate _ _ _) as [[|]|e]; cbn [bind]; try reflexivity.
    rewrite io_bind_snd.
    rewrite (mapM_io_snd _
               (fun child => foldM (fun data desc => parse_subnode desc data (Some child))
                                   sub (set_name m empty_NodeData))).
    + destruct (mapM _ _); reflexivity.
    + intros c _. apply foldM_io_snd. intros a d Hd.
      rewrite List.Forall_forall in IH. apply (IH d Hd).
Qed.

Lemma Node_parse_io_snd (name : string) (args : list Descriptor) (data : NodeData)
    (node : xml_node) :
  snd (Node_parse_io name args data node) = Node_parse name args data node.
Proof.
  unfold Node_parse_io, parse_subnodes_io, Node_parse, parse_subnodes.
  apply foldM_io_snd. intros a d _. apply parse_subnode_io_snd.
Qed.

Lemma parse_io_snd (s name : string) (args : list Descriptor) :
  snd (parse_io s name args) = parse s name args.
Proof.
  unfold parse_io, parse, parse_document. rewrite io_bind_lift.
  destruct (Node_validate _ _ _) as [b|e]; cbn [bind]; [|reflexivity].
  apply Node_parse_io_snd.
Qed.

Lemma foldM_io_silent {A B} (f : A -> B -> io A) (l : list B) :
  (forall a b, In b l -> fst (f a b) = EmptyString) ->
  forall a, fst (foldM_io f l a) = EmptyString.
Proof.
  induction l as [|b l IH]; intros H a; [reflexivity|]. cbn [foldM_io].
  unfold io_bind. pose proof (H a b (or_introl eq_refl)) as Hb.
  destruct (f a b) as [out [a'|e]]; cbn [fst snd] in *; subst out; [|reflexivity].
  cbn. apply IH. intros a0 b0 Hb0. apply H. right. exact Hb0.
Qed.

Lemma mapM_io_silent {A B} (f : B -> io A) (l : list B) :
  (forall b, In b l -> fst (f b) = EmptyString) ->
  fst (mapM_io f l) = EmptyString.
Proof.
  induction l as [|b l IH]; intros H; [reflexivity|]. cbn [mapM_io].
  unfold io_bind at 1. pose proof (H b (or_introl eq_refl)) as Hb.
  destruct (f b) as [out [a|e]]; cbn [fst snd] in *; subst out; [|reflexivity].
  cbn [append]. unfold io_bind.
  rewrite IH by (intros b0 Hb0; apply H; right; exact Hb0).
  destruct (snd (mapM_io f l)); reflexivity.
Qed.

Lemma uses_text_In (d : Descriptor) (args : list Descriptor) :
  existsb uses_text args = false -> In d args -> uses_text d = false.
Proof.
  intros H Hd. destruct (uses_text d) eqn:Hu; [|reflexivity].
  assert (existsb uses_text args = true); [|congruence].
  apply existsb_exists. exists d. auto.
Qed.

Lemma parse_subnode_io_silent (d : Descriptor) :
  uses_text d = false ->
  forall (data : NodeData) (node : xml_node),
    fst (parse_subnode_io d data node) = EmptyString.
Proof.
  induction d as [|k ar|ar|m sub IH|m sub la IH]
    using Descriptor_nested_ind; intros Hd data node.
  - reflexivity.
  - cbn [parse_subnode_io]. rewrite io_bind_lift.
    destruct (Attribute_validate _ _ _); reflexivity.
  - discriminate.
  - cbn [parse_subnode_io]. rewrite io_bind_lift.
    destruct (Node_validate _ _ _) as [[|]|e]; try reflexivity.
    apply foldM_io_silent. intros a d Hin. rewrite List.Forall_forall in IH.
    apply (IH d Hin). exact (uses_text_In d sub Hd Hin).
  - cbn [parse_subnode_io]. rewrite io_bind_lift.
    destruct (NodeList_validate _ _ _) as [[|]|e]; try reflexivity.
    unfold io_bind. rewrite mapM_io_silent.
    + destruct (snd (mapM_io _ _)); reflexivity.
    + intros c _. apply foldM_io_silent. intros a d Hin.
      rewrite List.Forall_forall in IH. apply (IH d Hin).
      exact (uses_text_In d sub Hd Hin).
Qed.

(** X18. What [parse] writes to the standard output has no part in what
    it returns or throws, and it writes nothing when the schema has no
    [Text] descriptor. *)
Theorem parse_output :
  forall (s name : string) (args : list Descriptor),
    snd (parse_io s name args) = parse s name args
    /\ (existsb uses_text args = false ->
        fst (parse_io s name args) = EmptyString).
Proof.
  intros s name args. split; [apply parse_io_snd|]. intros Hu.
  unfold parse_io. rewrite io_bind_lift.
  destruct (Node_validate _ _ _) as [b|e]; [|reflexivity].
  apply foldM_io_silent. intros a d Hd. apply parse_subnode_io_silent.
  exact (uses_text_In d args Hu Hd).
Qed.

Lemma parse_output_witness :
  fst (parse_io example3 xml_name [Attribute "key" [Required]]) = EmptyString.
Proof.
  apply (proj2 (parse_output example3 xml_name [Attribute "key" [Required]])).
  reflexivity.
Defined.

(** ** [main] *)

Lemma foldM_io_cons_silent {A B} (f : A -> B -> io A) (b : B) (l : list B) (a : A) :
  fst (f a b) = EmptyString ->
  foldM_io f (b :: l) a =
    match snd (f a b) with
    | Ok a' => foldM_io f l a'
    | Throw e => (EmptyString, Throw e)
    end.
Proof.
  intros H. cbn [foldM_io]. unfold io_bind. rewrite H.
  destruct (snd (f a b)) as [a'|e]; [|reflexivity].
  symmetry. apply io_eta.
Qed.

Lemma mapM_io_log {A B} (f : B -> io A) (line : A -> string) (l : list B) :
  (forall b a, snd (f b) = Ok a -> fst (f b) = line a) ->
  forall r, snd (mapM_io f l) = Ok r ->
            fst (mapM_io f l) = String.concat EmptyString (List.map line r).
Proof.
  intros H. induction l as [|b l IH]; intros r Hr.
  - cbn in Hr. injection Hr as <-. reflexivity.
  - cbn [mapM_io] in Hr |- *. unfold io_bind in Hr |- *.
    destruct (snd (f b)) as [a|e] eqn:Hb; cbn [snd fst] in Hr |- *; [|discriminate].
    destruct (snd (mapM_io f l)) as [r'|e] eqn:Hl; cbn [snd fst io_ret] in Hr |- *;
      [|discriminate].
    injection Hr as <-. rewrite (H b a Hb), (IH r' eq_refl), append_nil_r.
    cbn [List.map]. destruct r' as [|a' r']; [|reflexivity].
    cbn. rewrite append_nil_r. reflexivity.
Qed.

Lemma parse_subnode_io_NodeList (name : string) (node_args args : list Descriptor)
    (data : NodeData) (node : xml_node) :
  parse_subnode_io (NodeList name node_args args) data node =
    (subs <~ mapM_io (fun child =>
                        Node_parse_io name node_args empty_NodeData (Some child))
                     (NodeList_subnode name node) ;;
     io_ret (append_subnodes name subs data)).
Proof.
  cbn [parse_subnode_io]. rewrite NodeList_validate_located, io_bind_lift.
  reflexivity.
Qed.

(** The line of a [data] child is written when its [id] is there. *)
Lemma data_child_log (c : xml_node_struct) (rec : NodeData) :
  snd (Node_parse_io "data" [Attribute "id" [Required]; Text [Required]]
                     empty_NodeData (Some c)) = Ok rec ->
  fst (Node_parse_io "data" [Attribute "id" [Required]; Text [Required]]
                     empty_NodeData (Some c)) = record_line rec.
Proof.
  unfold Node_parse_io, parse_subnodes_io. cbn [foldM_io parse_subnode_io].
  unfold Attribute_subnode, Text_subnode_io, Attribute_validate, Text_validate, text,
    io_bind, io_lift, io_write, io_ret.
  cbn [fst snd is_required is_Required].
  destruct (attribute (Some c) "id") as [x|] eqn:Hid; cbn [fst snd];
    [|intros H; discriminate H].
  destruct (text_empty (Some c)) eqn:Ht; cbn [fst snd]; [intros H; discriminate H|].
  intros H. injection H as <-. unfold record_line.
  cbn [Text_parse Attribute_parse set_text set_attribute nd_attributes
       attribute_as_string set_name empty_NodeData].
  rewrite lookup_insert_eq. cbn [default]. rewrite !append_nil_r. reflexivity.
Qed.

(** What a successful [parse] with the schema of [main] has stored, and
    what it has written. *)
Lemma xml_parse_io (s : string) (root : NodeData) :
  parse s xml_name xml_args = Ok root ->
  exists (key : string) (recs : list NodeData),
    nd_attributes root !! "key" = Some (of_c_str key)
    /\ nd_subnodes root !! "data" = Some recs
    /\ fst (parse_io s xml_name xml_args)
       = String.concat EmptyString (List.map record_line recs).
Proof.
  intros H. unfold parse_io. unfold parse, parse_document in H.
  apply bind_Ok in H as (b & Hb & H). rewrite Hb, io_bind_lift.
  unfold Node_parse in H. unfold Node_parse_io, parse_subnodes_io.
  set (node := document_element (snd (load_buffer s))) in *.
  unfold xml_args in *.
  rewrite parse_subnodes_cons in H. apply bind_Ok in H as (d1 & H1 & H).
  rewrite parse_subnodes_cons in H. apply bind_Ok in H as (d2 & H2 & H).
  rewrite parse_subnodes_cons in H. apply bind_Ok in H as (d3 & H3 & H).
  rewrite parse_subnodes_cons in H. apply bind_Ok in H as (d4 & H4 & H).
  cbn in H. injection H as <-.
  rewrite foldM_io_cons_silent, parse_subnode_io_snd, H1
    by (apply parse_subnode_io_silent; reflexivity).
  rewrite foldM_io_cons_silent, parse_subnode_io_snd, H2
    by (apply parse_subnode_io_silent; reflexivity).
  rewrite foldM_io_cons_silent, parse_subnode_io_snd, H3
    by (apply parse_subnode_io_silent; reflexivity).
  cbn in H1. injection H1 as <-.
  pose proof H2 as H2'. apply parse_subnode_plain_inv in H2'. cbv beta iota in H2'.
  pose proof H3 as H3'. apply parse_subnode_plain_inv in H3'. cbv beta iota in H3'.
  assert (Hkey : exists key, attribute node "key" = Some key).
  { cbn [parse_subnode] in H2. unfold Attribute_subnode, Attribute_validate in H2.
    destruct (attribute node "key") as [x|]; [eauto|discriminate]. }
  destruct Hkey as (x & Hx). rewrite Hx in H2'.
  assert (Hd3 : nd_attributes d3 !! "key" = Some (of_c_str (attr_value x))
                /\ nd_subnodes d3 = ∅).
  { subst d3 d2. destruct (attribute node "client_id"); cbn.
    - rewrite lookup_insert_ne by discriminate. rewrite lookup_insert_eq. auto.
    - rewrite lookup_insert_eq. auto. }
  destruct Hd3 as [Hk3 Hs3].
  pose proof H4 as H4'. apply parse_subnode_plain_inv in H4' as (recs & Hrecs & ->).
  exists (attr_value x), recs. split; [exact Hk3|]. split.
  - cbn. rewrite lookup_insert_eq, Hs3, lookup_empty. reflexivity.
  - cbn [foldM_io]. rewrite parse_subnode_io_NodeList.
    assert (Hsnd : snd (mapM_io
                          (fun child =>
                             Node_parse_io "data"
                               [Attribute "id" [Required]; Text [Required]]
                               empty_NodeData (Some child))
                          (NodeList_subnode "data" node)) = Ok recs).
    { rewrite (mapM_io_snd _
                 (fun child => Node_parse "data" [Attribute "id" [Required]; Text [Required]]
                                          empty_NodeData (Some child))).
      - exact Hrecs.
      - intros c _. apply Node_parse_io_snd. }
    unfold io_bind. rewrite Hsnd. cbn [fst snd io_ret].
    rewrite !append_nil_r.
    apply (mapM_io_log _ record_line); [|exact Hsnd].
    intros c rec. apply data_child_log.
Qed.

Lemma bytes_of_c_str (s : string) : bytes (of_c_str s) = s.
Proof. unfold bytes. cbn. apply append_nil_r. Qed.

(** X19. One turn of the loop of [main], for any document.  When [parse]
    throws, the turn writes the document, the lines that [parse] had
    written, and the message of the exception.  When [parse] returns a
    record, [serialize] does not throw, the subscripts of [main] find the
    entries [data] and [key] in the record and add none, and the turn
    writes the document, one line for each [data] child with its [id],
    [OK], the key, the number of [data] children, the texts of the first
    two, and the text of [serialize]. *)
Theorem main_loop_turn :
  forall s : string,
    match parse s xml_name xml_args with
    | Throw e =>
        example_run s =
          "== Example: " +:+ s +:+ endl
          +:+ fst (parse_io s xml_name xml_args)
          +:+ what e +:+ endl
    | Ok root =>
        exists (out key : string) (recs : list NodeData),
          serialize root xml_name xml_args = Ok out
          /\ nd_attributes root !! "key" = Some (of_c_str key)
          /\ nd_subnodes root !! "data" = Some recs
          /\ example_run s =
               "== Example: " +:+ s +:+ endl
               +:+ String.concat EmptyString (List.map record_line recs)
               +:+ "OK" +:+ endl
               +:+ "KEY: " +:+ key +:+ endl
               +:+ "Data subnode count: " +:+ decimal (length recs) +:+ endl
               +:+ "Data1 value: " +:+ bytes (text_at (length recs) 0 recs) +:+ endl
               +:+ "Data2 value: " +:+ bytes (text_at (length recs) 1 recs) +:+ endl
               +:+ "Serialized: " +:+ out +:+ endl
    end.
Proof.
  intros s. pose proof (parse_io_snd s xml_name xml_args) as Hsnd.
  destruct (parse s xml_name xml_args) as [root|e] eqn:Hparse.
  - destruct (xml_parse_io s root Hparse) as (key & recs & Hkey & Hrecs & Hlog).
    assert (Hu : unambiguous_args xml_args = true) by (vm_compute; reflexivity).
    destruct (parse_serializes s xml_name xml_args root Hu Hparse) as (out & Hout).
    exists out, key, recs. split; [exact Hout|]. split; [exact Hkey|].
    split; [exact Hrecs|].
    assert (Hp : parse_io s xml_name xml_args
                 = (String.concat EmptyString (List.map record_line recs), Ok root)).
    { rewrite <- Hlog, <- Hsnd. apply io_eta. }
    unfold example_run, example_body. rewrite Hp.
    unfold io_bind, io_write, io_lift, subnodes_at, attributes_at.
    cbn [fst snd]. rewrite Hrecs. cbn [fst snd]. rewrite Hkey. cbn [fst snd].
    rewrite Hrecs, Hout, bytes_of_c_str. cbn [fst snd].
    rewrite !append_assoc. reflexivity.
  - assert (Hp : parse_io s xml_name xml_args
                 = (fst (parse_io s xml_name xml_args), Throw e)).
    { rewrite <- Hsnd. apply io_eta. }
    unfold example_run, example_body. rewrite Hp.
    unfold io_bind, io_write. cbn [fst snd].
    rewrite !append_assoc. reflexivity.
Qed.

(** What [main] writes and returns. *)
Example main_output :
  main =
    ("== Example: <wrong />" +:+ endl
     +:+ "Expected root node instead of wrong" +:+ endl
     +:+ "== Example: <root />" +:+ endl
     +:+ "Expected xml attribute key" +:+ endl
     +:+ "== Example: " +:+ example3 +:+ endl
     +:+ "OK" +:+ endl
     +:+ "KEY: mykey" +:+ endl
     +:+ "Data subnode count: 0" +:+ endl
     +:+ "Data1 value: " +:+ endl
     +:+ "Data2 value: " +:+ endl
     +:+ "Serialized: <root key=" +:+ quoted "mykey" +:+ "/>" +:+ endl
     +:+ "== Example: " +:+ example4 +:+ endl
     +:+ "Node: 1" +:+ endl
     +:+ "A text node is required" +:+ endl
     +:+ "== Example: " +:+ example5 +:+ endl
     +:+ "Node: 1" +:+ endl
     +:+ "Node: 2" +:+ endl
     +:+ "OK" +:+ endl
     +:+ "KEY: mykey" +:+ endl
     +:+ "Data subnode count: 2" +:+ endl
     +:+ "Data1 value: D1" +:+ endl
     +:+ "Data2 value: D2" +:+ endl
     +:+ "Serialized: " +:+ example5 +:+ endl,
     0%Z).
Proof. vm_compute. reflexivity. Qed.
